(** * Orthodontic evidence synthesis: a shallow embedding of
      [evidence_processor.py] (class [OrthoEvidenceProcessor]).

    Conventions of the embedding.
    - Python [float] and [int] arithmetic is carried out on exact rationals
      ([Q]) and integers ([Z]); binary rounding of floats is not modelled.
      A float of the program is the rational of the model up to that
      rounding, so where a result is rounded to an integer the theorems
      bound its distance to the unrounded value and do not say which way a
      value on a half goes.
    - A Python [str] is the byte string of its UTF-8 encoding.  Substring
      tests on the encoding agree with substring tests on code points.  The
      regular expressions and [float] see the decoded characters; the class
      [\d] is the decimal digits of Unicode.
    - The SQLite connection is a pair of databases (last committed, current)
      together with a budget of store operations that succeed before the
      store raises. *)

From Stdlib Require Import ZArith QArith Qround Qabs Lia Lqa.
From Stdlib Require Import Bool List String Ascii DecimalString Permutation.
Import ListNotations.

Open Scope string_scope.
Open Scope Z_scope.
Open Scope Q_scope.

(* ================================================================== *)
(** * Numbers *)
(* ================================================================== *)

Definition Qltb (a b : Q) : bool := negb (Qle_bool b a).

(** Python [bool(x)] for a number. *)
Definition Qtruthy (x : Q) : bool := negb (Qeq_bool x 0).

(** Python [min(a, b)] and [max(a, b)] on two arguments: the first argument
    is kept unless the second is strictly better. *)
Definition py_min (a b : Q) : Q := if Qltb b a then b else a.
Definition py_max (a b : Q) : Q := if Qltb a b then b else a.

(** Python [round(x)]: nearest integer, ties to the even one. *)
Definition py_round (x : Q) : Z :=
  let f := Qfloor x in
  match Qcompare (x - inject_Z f) (1 # 2) with
  | Lt => f
  | Gt => (f + 1)%Z
  | Eq => if Z.even f then f else (f + 1)%Z
  end.

(** Python [int(x)]: truncation toward zero. *)
Definition py_int (x : Q) : Z :=
  if Qltb x 0 then Qceiling x else Qfloor x.

(** Python [sum] over numbers. *)
Definition py_sum (l : list Q) : Q := fold_left Qplus l 0.

(** Python [max] over a non-empty list; the first maximal element. *)
Definition py_max_list (x : Q) (l : list Q) : Q :=
  fold_left (fun best y => if Qltb best y then y else best) l x.

(** Python [sorted] on numbers (a stable insertion sort). *)
Fixpoint insert_sorted (x : Q) (l : list Q) : list Q :=
  match l with
  | [] => [x]
  | y :: t => if Qltb x y then x :: l else y :: insert_sorted x t
  end.

Definition py_sorted (l : list Q) : list Q :=
  fold_left (fun acc x => insert_sorted x acc) l [].

(* ================================================================== *)
(** * Strings *)
(* ================================================================== *)

(** Python [needle in hay]. *)
Fixpoint contains (needle hay : string) : bool :=
  if String.prefix needle hay then true
  else match hay with
       | EmptyString => false
       | String _ t => contains needle t
       end.

(** Python [sep.join(l)]. *)
Fixpoint join (sep : string) (l : list string) : string :=
  match l with
  | [] => ""
  | [x] => x
  | x :: t => x ++ sep ++ join sep t
  end.

(** Python [str(n)] for an [int]. *)
Definition str_of_Z (n : Z) : string :=
  NilZero.string_of_int (Z.to_int n).

(** ** Characters

    The patterns of the extractor and [float] work on the characters of a
    text, not on its bytes: [code_points] decodes the UTF-8 encoding.  A
    byte sequence that is not the encoding of a character (which a Python
    [str] never holds) decodes to U+FFFD. *)

Definition continuation (b : ascii) : option N :=
  let n := N_of_ascii b in
  if (128 <=? n)%N && (n <? 192)%N then Some (n - 128)%N else None.

Fixpoint code_points (s : string) : list N :=
  match s with
  | EmptyString => []
  | String b0 t0 =>
      let n0 := N_of_ascii b0 in
      if (n0 <? 128)%N then n0 :: code_points t0
      else
        match t0 with
        | String b1 t1 =>
            match continuation b1 with
            | Some n1 =>
                let two := ((n0 - 192) * 64 + n1)%N in
                if (192 <=? n0)%N && (n0 <? 224)%N && (128 <=? two)%N
                then two :: code_points t1
                else
                  match t1 with
                  | String b2 t2 =>
                      match continuation b2 with
                      | Some n2 =>
                          let three :=
                            ((n0 - 224) * 4096 + n1 * 64 + n2)%N in
                          if (224 <=? n0)%N && (n0 <? 240)%N
                             && (2048 <=? three)%N
                             && negb ((55296 <=? three)%N
                                      && (three <=? 57343)%N)
                          then three :: code_points t2
                          else
                            match t2 with
                            | String b3 t3 =>
                                match continuation b3 with
                                | Some n3 =>
                                    let four :=
                                      ((n0 - 240) * 262144 + n1 * 4096
                                       + n2 * 64 + n3)%N in
                                    if (240 <=? n0)%N && (n0 <? 248)%N
                                       && (65536 <=? four)%N
                                       && (four <=? 1114111)%N
                                    then four :: code_points t3
                                    else 65533%N :: code_points t0
                                | None => 65533%N :: code_points t0
                                end
                            | EmptyString => 65533%N :: code_points t0
                            end
                      | None => 65533%N :: code_points t0
                      end
                  | EmptyString => 65533%N :: code_points t0
                  end
            | None => 65533%N :: code_points t0
            end
        | EmptyString => [65533%N]
        end
  end.

(** The decimal digits of Unicode (general category Nd, Unicode 14.0 as in
    Python 3.11): each entry is the digit zero of a run of ten digits.
    These are the characters that [\d] matches and that [float] reads as
    the digits 0 to 9. *)
Definition decimal_zeros : list N :=
  [ 48; 1632; 1776; 1984; 2406; 2534; 2662; 2790; 2918; 3046; 3174; 3302;
    3430; 3558; 3664; 3792; 3872; 4160; 4240; 6112; 6160; 6470; 6608; 6784;
    6800; 6992; 7088; 7232; 7248; 42528; 43216; 43264; 43472; 43504; 43600;
    44016; 65296; 66720; 68912; 69734; 69872; 69942; 70096; 70384; 70736;
    70864; 71248; 71360; 71472; 71904; 72016; 72784; 73040; 73120; 92768;
    92864; 93008; 120782; 120792; 120802; 120812; 120822; 123200; 123632;
    125264; 130032 ]%N.

(** The value of a decimal digit. *)
Definition decimal_value (c : N) : option Z :=
  match find (fun zero => (zero <=? c)%N && (c <=? zero + 9)%N)
             decimal_zeros with
  | Some zero => Some (Z.of_N (c - zero))
  | None => None
  end.

Definition is_digit (c : N) : bool :=
  match decimal_value c with
  | Some _ => true
  | None => false
  end.

Definition all_digits (s : list N) : bool := forallb is_digit s.

(** Value of a text of decimal digits, most significant first. *)
Fixpoint digits_value_from (acc : Z) (s : list N) : Z :=
  match s with
  | [] => acc
  | c :: t =>
      digits_value_from
        (10 * acc + match decimal_value c with
                    | Some v => v
                    | None => 0
                    end)%Z t
  end.

Definition digits_value (s : list N) : Z := digits_value_from 0 s.

(** The rest of [s] after the prefix [p], when [s] starts with [p]. *)
Fixpoint strip_prefix (p s : list N) : option (list N) :=
  match p with
  | [] => Some s
  | a :: p' =>
      match s with
      | [] => None
      | b :: s' => if N.eqb a b then strip_prefix p' s' else None
      end
  end.

(* ================================================================== *)
(** * TextSignalExtractor *)
(* ================================================================== *)

Inductive direction := increase | decrease | neutral.

Definition direction_eqb (a b : direction) : bool :=
  match a, b with
  | increase, increase | decrease, decrease | neutral, neutral => true
  | _, _ => false
  end.

(** The full stop. *)
Definition dot_char : N := 46%N.

(** Python [float(text)] for a text made of digits, an optional dot and
    digits, which is what the group of the patterns captures. *)
Fixpoint split_dot (s : list N) : list N * list N :=
  match s with
  | [] => ([], [])
  | c :: t =>
      if N.eqb c dot_char then ([], t)
      else let '(i, f) := split_dot t in (c :: i, f)
  end.

Definition py_float (text : list N) : Q :=
  let '(i, f) := split_dot text in
  Qred (inject_Z (digits_value i)
        + inject_Z (digits_value f)
          / inject_Z (10 ^ Z.of_nat (List.length f))).

Section Matcher.

(** The literal that closes the pattern: [%] or [倍]. *)
Variable closing : list N.

(** Any number of digits, greedy: the longest run of digits is tried
    first, shorter runs on backtracking.  [k] is the rest of the pattern;
    it receives the digits taken and the rest of the text. *)
Fixpoint digits_star {A} (s : list N) (k : list N -> list N -> option A)
  : option A :=
  match s with
  | c :: t =>
      if is_digit c then
        match digits_star t (fun m r => k (c :: m) r) with
        | Some a => Some a
        | None => k [] s
        end
      else k [] s
  | [] => k [] s
  end.

(** One or more digits, greedy. *)
Definition digits_plus {A} (s : list N) (k : list N -> list N -> option A)
  : option A :=
  match s with
  | c :: t =>
      if is_digit c then digits_star t (fun m r => k (c :: m) r)
      else None
  | [] => None
  end.

(** An optional dot, greedy: the dot is taken first when it is there. *)
Definition opt_dot {A} (s : list N) (k : list N -> list N -> option A)
  : option A :=
  match s with
  | c :: t =>
      if N.eqb c dot_char then
        match k [dot_char] t with
        | Some a => Some a
        | None => k [] s
        end
      else k [] s
  | [] => k [] s
  end.

(** [re.match] at the start of [s] of the pattern: one or more digits, an
    optional dot, any digits (this much is the group), then [closing].
    The result is the text of the group. *)
Definition match_here (s : list N) : option (list N) :=
  digits_plus s (fun d1 r1 =>
    opt_dot r1 (fun dot r2 =>
      digits_star r2 (fun d2 r3 =>
        match strip_prefix closing r3 with
        | Some _ => Some (d1 ++ dot ++ d2)%list
        | None => None
        end))).

(** [re.search]: the match at the leftmost position that has one. *)
Fixpoint re_search (s : list N) : option (list N) :=
  match match_here s with
  | Some g => Some g
  | None =>
      match s with
      | [] => None
      | _ :: t => re_search t
      end
  end.

End Matcher.

(** The texts of the group: digits, an optional dot, digits. *)
Definition is_number (n : list N) : Prop :=
  exists d1 dot d2,
    n = (d1 ++ dot ++ d2)%list
    /\ d1 <> [] /\ all_digits d1 = true /\ all_digits d2 = true
    /\ (dot = [] \/ dot = [dot_char]).

(** The pattern occurs in the text [s] right after [pre], with group [n]. *)
Definition occurs_at (closing s pre n : list N) : Prop :=
  exists post, s = (pre ++ n ++ closing ++ post)%list /\ is_number n.

(** [n] is the group of the leftmost occurrence of the pattern in [s]. *)
Definition first_occurrence (closing s n : list N) : Prop :=
  exists pre,
    occurs_at closing s pre n
    /\ forall pre2 n2,
         occurs_at closing s pre2 n2
         -> (List.length pre <= List.length pre2)%nat.

(** The per cent sign and the character [倍] (U+500D). *)
Definition percent_sign : list N := [37%N].
Definition bai : list N := [20493%N].

Definition increase_keywords : list string := ["上昇"; "増加"; "高まる"; "倍"].
Definition decrease_keywords : list string := ["低下"; "減少"; "改善"].

Definition extract_value (risk_description : string) : option Q :=
  match re_search percent_sign (code_points risk_description) with
  | Some g => Some (py_float g)
  | None =>
      match re_search bai (code_points risk_description) with
      | Some g => Some (Qred (py_float g * 100 - 100))
      | None => None
      end
  end.

Definition extract_direction (risk_description : string) : direction :=
  if contains "上昇" risk_description || contains "増加" risk_description
     || contains "高まる" risk_description || contains "倍" risk_description
  then increase
  else if contains "低下" risk_description || contains "減少" risk_description
          || contains "改善" risk_description
  then decrease
  else neutral.

Definition _parse_risk_description (risk_description : string)
  : option Q * direction :=
  (extract_value risk_description, extract_direction risk_description).

(** Age-group label to an age range; unknown labels give (1, 100). *)
Definition _parse_age_group (age_group : string) : Z * Z :=
  if String.eqb age_group "小児" then (3, 12)%Z
  else if String.eqb age_group "小児・青年" then (3, 18)%Z
  else if String.eqb age_group "青年" then (13, 18)%Z
  else if String.eqb age_group "青年・成人" then (13, 59)%Z
  else if String.eqb age_group "成人" then (19, 59)%Z
  else if String.eqb age_group "成人・高齢者" then (19, 100)%Z
  else if String.eqb age_group "高齢者" then (60, 100)%Z
  else if String.eqb age_group "全年齢" then (1, 100)%Z
  else (1, 100)%Z.

(* ================================================================== *)
(** * EvidenceWeighting *)
(* ================================================================== *)

(** [weights.get(evidence_level, 0.5)]; a NULL level is [None]. *)
Definition _get_evidence_level_weight (evidence_level : option string) : Q :=
  match evidence_level with
  | Some l =>
      if String.eqb l "1a" then 5
      else if String.eqb l "1b" then 4
      else if String.eqb l "2a" then 3
      else if String.eqb l "2b" then 2
      else if String.eqb l "3" then 3 # 2
      else if String.eqb l "4" then 1
      else if String.eqb l "5" then 1 # 2
      else 1 # 2
  | None => 1 # 2
  end.

(* ================================================================== *)
(** * Text of floats *)
(* ================================================================== *)

(** Python's conversions of a [float] to text are not interpreted: the
    aggregation is stated for any pair of conversions. *)
Class FloatText := {
  format_1f : Q -> string;   (* f"{x:.1f}" *)
  float_str : Q -> string    (* str(x) *)
}.

(** A reference rendering with a fixed number of decimal places, rounding
    ties to even; it is what Python prints for numbers that are exact. *)
Fixpoint pad_zeros (width : nat) (s : string) : string :=
  match width with
  | O => s
  | S w => if (String.length s <=? w)%nat then pad_zeros w ("0" ++ s) else s
  end.

Definition render_fixed (places : nat) (x : Q) : string :=
  let scale := (10 ^ Z.of_nat places)%Z in
  let n := py_round (x * inject_Z scale) in
  let a := Z.abs n in
  (if (n <? 0)%Z then "-" else "")
  ++ str_of_Z (a / scale) ++ "."
  ++ pad_zeros places (str_of_Z (a mod scale)).

Fixpoint decimal_places (fuel : nat) (places : nat) (x : Q) : nat :=
  match fuel with
  | O => places
  | S fuel' =>
      if Qeq_bool (inject_Z (Qfloor (x * inject_Z (10 ^ Z.of_nat places))))
                  (x * inject_Z (10 ^ Z.of_nat places))
      then places
      else decimal_places fuel' (S places) x
  end.

Definition decimal_text : FloatText := {|
  format_1f := render_fixed 1;
  float_str := fun x => render_fixed (decimal_places 16 1 x) x
|}.

(* ================================================================== *)
(** * The record store *)
(* ================================================================== *)

(** Columns read by the aggregation and the scorer.  The prefixes are the
    table aliases of the SQL text. *)
Record research_paper := {
  rp_paper_id : Z;
  rp_evidence_level : option string
}.

Record dental_issue := {
  di_issue_id : Z;
  di_issue_name_ja : string;
  di_severity_base_score : Q
}.

Record research_finding := {
  rf_paper_id : Z;
  rf_issue_id : option Z;
  rf_finding_type : string;
  rf_description_ja : string;
  rf_effect_value : option Q;
  rf_effect_direction : direction;
  rf_confidence_interval : option string;
  rf_applies_to_age_min : Z;
  rf_applies_to_age_max : Z
}.

Record age_risk_profile := {
  arp_age_threshold : Z;
  arp_risk_type : string;
  arp_risk_value : Q;
  arp_description_ja : string;
  arp_calculated_from : string;
  arp_confidence_level : Q
}.

Record issue_treatment_effect := {
  ite_issue_id : Z;
  ite_effect_category : string;
  ite_effect_value : Q;
  ite_effect_direction : direction;
  ite_description_ja : string;
  ite_calculated_from : string;
  ite_confidence_level : Q
}.

Record age_timing_benefit := {
  atb_age_group_code : string;
  atb_age_min : Z;
  atb_age_max : Z;
  atb_age_group_ja : string;
  atb_benefit_text_ja : string;
  atb_recommendation_level : string;
  atb_timing_score : Z;
  atb_calculated_from : string;
  atb_confidence_level : Q
}.

Record future_scenario := {
  fs_timeframe : string;
  fs_timeframe_years : Z;
  fs_with_ortho_text_ja : string;
  fs_without_ortho_text_ja : string;
  fs_applies_to_age_min : Z;
  fs_applies_to_age_max : Z;
  fs_calculated_from : string;
  fs_confidence_level : Q
}.

Record economic_impact := {
  ei_age_group_code : string;
  ei_age_min : Z;
  ei_age_max : Z;
  ei_age_group_ja : string;
  ei_current_cost : Z;
  ei_future_savings : Z;
  ei_roi : Q;
  ei_calculation_basis : string;
  ei_confidence_level : Q
}.

Record db := mk_db {
  research_papers : list research_paper;
  dental_issues : list dental_issue;
  research_findings : list research_finding;
  age_risk_profiles : list age_risk_profile;
  issue_treatment_effects : list issue_treatment_effect;
  age_timing_benefits : list age_timing_benefit;
  future_scenarios : list future_scenario;
  economic_impacts : list economic_impact
}.

Definition set_age_risk_profiles (t : list age_risk_profile) (d : db) : db :=
  mk_db (research_papers d) (dental_issues d) (research_findings d)
        t (issue_treatment_effects d) (age_timing_benefits d)
        (future_scenarios d) (economic_impacts d).

Definition set_issue_treatment_effects (t : list issue_treatment_effect)
  (d : db) : db :=
  mk_db (research_papers d) (dental_issues d) (research_findings d)
        (age_risk_profiles d) t (age_timing_benefits d)
        (future_scenarios d) (economic_impacts d).

Definition set_age_timing_benefits (t : list age_timing_benefit) (d : db)
  : db :=
  mk_db (research_papers d) (dental_issues d) (research_findings d)
        (age_risk_profiles d) (issue_treatment_effects d) t
        (future_scenarios d) (economic_impacts d).

Definition set_future_scenarios (t : list future_scenario) (d : db) : db :=
  mk_db (research_papers d) (dental_issues d) (research_findings d)
        (age_risk_profiles d) (issue_treatment_effects d)
        (age_timing_benefits d) t (economic_impacts d).

Definition set_economic_impacts (t : list economic_impact) (d : db) : db :=
  mk_db (research_papers d) (dental_issues d) (research_findings d)
        (age_risk_profiles d) (issue_treatment_effects d)
        (age_timing_benefits d) (future_scenarios d) t.

(** The connection: the database as of the last commit, the database as the
    open transaction sees it, and the number of [execute] calls the store
    still answers before it raises ([None]: it never raises). *)
Record connection := mk_connection {
  committed : db;
  working : db;
  budget : option nat
}.

Inductive exn := StoreError.

Inductive outcome (A : Type) :=
| Returned (a : A)
| Raised (e : exn).

Arguments Returned {A} a.
Arguments Raised {A} e.

Definition M (A : Type) : Type := connection -> outcome A * connection.

Definition ret {A} (a : A) : M A := fun c => (Returned a, c).

Definition bind {A B} (m : M A) (k : A -> M B) : M B :=
  fun c =>
    match m c with
    | (Returned a, c') => k a c'
    | (Raised e, c') => (Raised e, c')
    end.

Definition raise {A} (e : exn) : M A := fun c => (Raised e, c).

(** [try: body  except Exception as e: handler e]. *)
Definition try_except {A} (body : M A) (handler : exn -> M A) : M A :=
  fun c =>
    match body c with
    | (Returned a, c') => (Returned a, c')
    | (Raised e, c') => handler e c'
    end.

Declare Scope monad_scope.
Delimit Scope monad_scope with monad.
Notation "x <- m ;; k" := (bind m (fun x => k))
  (at level 61, m at next level, right associativity) : monad_scope.
Notation "m ;;; k" := (bind m (fun _ => k))
  (at level 61, right associativity) : monad_scope.
Open Scope monad_scope.

(** One call of the store: it raises when the budget is used up. *)
Definition spend (c : connection) : option connection :=
  match budget c with
  | None => Some c
  | Some O => None
  | Some (S n) => Some (mk_connection (committed c) (working c) (Some n))
  end.

(** [cursor.execute] of a SELECT followed by the fetch. *)
Definition execute_select {A} (q : db -> A) : M A :=
  fun c =>
    match spend c with
    | Some c' => (Returned (q (working c')), c')
    | None => (Raised StoreError, c)
    end.

(** [cursor.execute] of a DELETE or an INSERT: it changes the open
    transaction only. *)
Definition execute_update (u : db -> db) : M unit :=
  fun c =>
    match spend c with
    | Some c' =>
        (Returned tt, mk_connection (committed c') (u (working c')) (budget c'))
    | None => (Raised StoreError, c)
    end.

Definition conn_commit : M unit :=
  fun c => (Returned tt, mk_connection (working c) (working c) (budget c)).

Definition conn_rollback : M unit :=
  fun c => (Returned tt, mk_connection (committed c) (committed c) (budget c)).

(** [for x in l: acc = body x acc]. *)
Fixpoint for_each {A S} (l : list A) (body : A -> S -> M S) (acc : S) : M S :=
  match l with
  | [] => ret acc
  | x :: t => acc' <- body x acc ;; for_each t body acc'
  end.

(* ================================================================== *)
(** * AggregationEngine *)
(* ================================================================== *)

Definition option_Z_eqb (a : option Z) (b : Z) : bool :=
  match a with
  | Some x => Z.eqb x b
  | None => false
  end.

(** A row of the SELECT of [generate_age_risk_profiles]; the columns in the
    order of the query, so that [finding[0]] is [rr_effect_value]. *)
Record risk_row := {
  rr_effect_value : option Q;
  rr_effect_direction : direction;
  rr_confidence_interval : option string;
  rr_applies_to_age_min : Z;
  rr_applies_to_age_max : Z;
  rr_evidence_level : option string;
  rr_issue_name_ja : string
}.

Definition select_risk_findings (threshold : Z) (d : db) : list risk_row :=
  flat_map (fun rf =>
    flat_map (fun rp =>
      flat_map (fun di =>
        if Z.eqb (rf_paper_id rf) (rp_paper_id rp)
           && option_Z_eqb (rf_issue_id rf) (di_issue_id di)
           && String.eqb (rf_finding_type rf) "risk"
           && direction_eqb (rf_effect_direction rf) increase
           && (threshold <=? rf_applies_to_age_max rf)%Z
        then [ {| rr_effect_value := rf_effect_value rf;
                  rr_effect_direction := rf_effect_direction rf;
                  rr_confidence_interval := rf_confidence_interval rf;
                  rr_applies_to_age_min := rf_applies_to_age_min rf;
                  rr_applies_to_age_max := rf_applies_to_age_max rf;
                  rr_evidence_level := rp_evidence_level rp;
                  rr_issue_name_ja := di_issue_name_ja di |} ]
        else [])
      (dental_issues d))
    (research_papers d))
  (research_findings d).

(** A row of the SELECT of [generate_issue_treatment_effects]. *)
Record effect_row := {
  er_effect_value : option Q;
  er_effect_direction : direction;
  er_description_ja : string;
  er_evidence_level : option string;
  er_paper_id : Z
}.

Definition select_issue_findings (issue_id : Z) (d : db) : list effect_row :=
  flat_map (fun rf =>
    flat_map (fun rp =>
      if Z.eqb (rf_paper_id rf) (rp_paper_id rp)
         && option_Z_eqb (rf_issue_id rf) issue_id
      then [ {| er_effect_value := rf_effect_value rf;
                er_effect_direction := rf_effect_direction rf;
                er_description_ja := rf_description_ja rf;
                er_evidence_level := rp_evidence_level rp;
                er_paper_id := rp_paper_id rp |} ]
      else [])
    (research_papers d))
  (research_findings d).

Definition select_issues (d : db) : list (Z * string) :=
  map (fun di => (di_issue_id di, di_issue_name_ja di)) (dental_issues d).

(** [SELECT COUNT( * ) ... WHERE rf.applies_to_age_min <= age_max
    AND rf.applies_to_age_max >= age_min] of the timing benefits. *)
Definition count_overlapping (age_min age_max : Z) (d : db) : Z :=
  Z.of_nat (List.length
    (flat_map (fun rf =>
       flat_map (fun rp =>
         if Z.eqb (rf_paper_id rf) (rp_paper_id rp)
            && (rf_applies_to_age_min rf <=? age_max)%Z
            && (age_min <=? rf_applies_to_age_max rf)%Z
         then [tt] else [])
       (research_papers d))
     (research_findings d))).

Definition age_thresholds : list Z := [12; 18; 25; 40; 60]%Z.

Definition category_keywords : list (string * list string) :=
  [ ("caries_risk", ["齲蝕"; "むし歯"; "虫歯"; "caries"]);
    ("periodontal_risk", ["歯周病"; "歯周炎"; "periodontal"]);
    ("tmj_risk", ["顎関節症"; "TMJ"; "temporomandibular"]);
    ("mastication", ["咀嚼"; "咬合"; "chewing"; "mastication"]);
    ("aesthetic", ["審美"; "見た目"; "aesthetic"; "appearance"]);
    ("pronunciation", ["発音"; "構音"; "speech"; "pronunciation"]);
    ("trauma_risk", ["外傷"; "trauma"]) ].

Fixpoint match_category (table : list (string * list string))
  (description : string) : string :=
  match table with
  | [] => "other"
  | (category, keywords) :: rest =>
      if existsb (fun keyword => contains keyword description) keywords
      then category
      else match_category rest description
  end.

(** [categories[c].append(finding)] on a dict that keeps insertion order. *)
Fixpoint add_to_category (c : string) (finding : effect_row)
  (categories : list (string * list effect_row))
  : list (string * list effect_row) :=
  match categories with
  | [] => [(c, [finding])]
  | (c', l) :: rest =>
      if String.eqb c' c then (c', (l ++ [finding])%list) :: rest
      else (c', l) :: add_to_category c finding rest
  end.

Definition categorize_step (categories : list (string * list effect_row))
  (finding : effect_row) : list (string * list effect_row) :=
  add_to_category
    (match_category category_keywords (er_description_ja finding))
    finding categories.

Definition _categorize_findings (findings : list effect_row)
  : list (string * list effect_row) :=
  fold_left categorize_step findings [].

Section Aggregation.

Context {T : FloatText}.

(** One turn of the inner loop of the risk aggregation, on
    (total_weight, weighted_risk, paper_ids).  The list is fed with
    [str(finding[0])], the first column of the row. *)
Definition risk_step (acc : Q * Q * list string) (finding : risk_row)
  : Q * Q * list string :=
  let '(total_weight, weighted_risk, paper_ids) := acc in
  let weight := _get_evidence_level_weight (rr_evidence_level finding) in
  match rr_effect_value finding with
  | Some effect_value =>
      if Qtruthy effect_value then
        (total_weight + weight,
         weighted_risk + effect_value * weight,
         (paper_ids ++ [float_str effect_value])%list)
      else acc
  | None => acc
  end.

Definition accumulate_risk (findings : list risk_row)
  : Q * Q * list string :=
  fold_left risk_step findings (0, 0, []).

Definition risk_description_for (threshold : Z) (avg_risk : Q) : string :=
  (str_of_Z threshold ++ "歳までに矯正を行わないと、将来的に"
     ++ format_1f avg_risk ++ "%の歯を喪失するリスクがあります。")
  ++ (if (18 <=? threshold)%Z
      then " また、歯周病リスクが" ++ format_1f (py_min (avg_risk * (12 # 10)) 95)
           ++ "%上昇します。"
      else "")
  ++ (if (25 <=? threshold)%Z
      then " 顎関節症リスクが" ++ format_1f (py_min (avg_risk * (6 # 100)) 3)
           ++ "倍になります。"
      else "")
  ++ (if (40 <=? threshold)%Z
      then " 咀嚼機能が" ++ format_1f (py_min (avg_risk * (8 # 10)) 50)
           ++ "%低下します。"
      else "")
  ++ (if (60 <=? threshold)%Z
      then " 発音障害リスクが" ++ format_1f (py_min (avg_risk * (4 # 100)) 3)
           ++ "倍になります。"
      else "").

Definition default_risk_description (threshold : Z) (default_risk : Q)
  : string :=
  (str_of_Z threshold ++ "歳までに矯正を行わないと、将来的に"
     ++ format_1f default_risk ++ "%の歯を喪失するリスクがあります。")
  ++ (if (18 <=? threshold)%Z then " また、歯周病リスクが上昇します。" else "").

(** The body of the loop over the thresholds, after the SELECT: the
    profiles it appends (none when the SELECT returned no row). *)
Definition profiles_for_threshold (threshold : Z) (findings : list risk_row)
  : list age_risk_profile :=
  match findings with
  | [] => []
  | _ :: _ =>
      let '(total_weight, weighted_risk, paper_ids) :=
        accumulate_risk findings in
      if Qltb 0 total_weight then
        let avg_risk := weighted_risk / total_weight in
        [ {| arp_age_threshold := threshold;
             arp_risk_type := "tooth_loss";
             arp_risk_value := avg_risk;
             arp_description_ja := risk_description_for threshold avg_risk;
             arp_calculated_from := join "," paper_ids;
             arp_confidence_level :=
               py_min (total_weight
                       / inject_Z (Z.of_nat (List.length findings)))
                      (95 # 100) |} ]
      else
        let default_risk := inject_Z threshold / 2 in
        [ {| arp_age_threshold := threshold;
             arp_risk_type := "tooth_loss";
             arp_risk_value := default_risk;
             arp_description_ja :=
               default_risk_description threshold default_risk;
             arp_calculated_from := "default";
             arp_confidence_level := 1 # 2 |} ]
  end.

Definition generate_age_risk_profiles : M (list age_risk_profile) :=
  try_except
    (execute_update (set_age_risk_profiles []) ;;;
     profiles <-
       for_each age_thresholds
         (fun threshold profiles =>
            findings <- execute_select (select_risk_findings threshold) ;;
            ret (profiles ++ profiles_for_threshold threshold findings)%list)
         [] ;;
     for_each profiles
       (fun profile _ =>
          execute_update
            (fun d => set_age_risk_profiles
                        (age_risk_profiles d ++ [profile])%list d))
       tt ;;;
     conn_commit ;;;
     ret profiles)
    (fun e => conn_rollback ;;; raise e).

(** One turn of the inner loop of the effect aggregation, on
    (total_weight, weighted_effect, paper_ids, direction_counts); the
    counts are those of increase, decrease and neutral. *)
Definition effect_step (acc : Q * Q * list string * (nat * nat * nat))
  (finding : effect_row) : Q * Q * list string * (nat * nat * nat) :=
  let '(total_weight, weighted_effect, paper_ids, counts) := acc in
  let '(n_increase, n_decrease, n_neutral) := counts in
  let weight := _get_evidence_level_weight (er_evidence_level finding) in
  match er_effect_value finding with
  | Some effect_value =>
      if Qtruthy effect_value then
        (total_weight + weight,
         match er_effect_direction finding with
         | decrease => weighted_effect + effect_value * weight
         | increase => weighted_effect - effect_value * weight
         | neutral => weighted_effect
         end,
         (paper_ids ++ [str_of_Z (er_paper_id finding)])%list,
         match er_effect_direction finding with
         | increase => (S n_increase, n_decrease, n_neutral)
         | decrease => (n_increase, S n_decrease, n_neutral)
         | neutral => (n_increase, n_decrease, S n_neutral)
         end)
      else acc
  | None => acc
  end.

Definition accumulate_effect (category_findings : list effect_row)
  : Q * Q * list string * (nat * nat * nat) :=
  fold_left effect_step category_findings (0, 0, [], (O, O, O)).

Definition _generate_effect_description (issue_name category : string)
  (effect_value : Q) (direction : direction) : string :=
  let effect_value_rounded := py_round effect_value in
  let r := str_of_Z effect_value_rounded in
  let times d := format_1f (inject_Z effect_value_rounded / d) in
  let fix_ := issue_name ++ "を矯正することで、" in
  let leave := issue_name ++ "を放置すると、" in
  let '(t_decrease, t_increase) :=
    if String.eqb category "caries_risk" then
      (fix_ ++ "齲蝕リスクが" ++ r ++ "%減少します。",
       leave ++ "齲蝕リスクが" ++ r ++ "%増加します。")
    else if String.eqb category "periodontal_risk" then
      (fix_ ++ "歯周病リスクが" ++ r ++ "%減少します。",
       leave ++ "歯周病リスクが" ++ r ++ "%増加します。")
    else if String.eqb category "tmj_risk" then
      (fix_ ++ "顎関節症リスクが" ++ r ++ "%減少します。",
       leave ++ "顎関節症リスクが" ++ times 20 ++ "倍になります。")
    else if String.eqb category "mastication" then
      (fix_ ++ "咀嚼効率が" ++ r ++ "%向上します。",
       leave ++ "咀嚼効率が" ++ r ++ "%低下します。")
    else if String.eqb category "aesthetic" then
      (fix_ ++ "審美性が大幅に向上します。",
       leave ++ "審美性に問題が生じます。")
    else if String.eqb category "pronunciation" then
      (fix_ ++ "発音障害が" ++ r ++ "%改善します。",
       leave ++ "発音障害リスクが" ++ times 25 ++ "倍になります。")
    else if String.eqb category "trauma_risk" then
      (fix_ ++ "外傷リスクが" ++ r ++ "%減少します。",
       leave ++ "外傷リスクが" ++ times 20 ++ "倍になります。")
    else
      (fix_ ++ "口腔健康リスクが" ++ r ++ "%減少します。",
       leave ++ "口腔健康リスクが" ++ r ++ "%増加します。") in
  match direction with
  | decrease => t_decrease
  | increase => t_increase
  | neutral => issue_name ++ "の矯正により効果が期待できます。"
  end.

Definition default_effects_table (issue_name : string)
  : list (string * Z * direction) :=
  if String.eqb issue_name "叢生" then
    [("caries_risk", 38%Z, decrease); ("periodontal_risk", 45%Z, decrease)]
  else if String.eqb issue_name "開咬" then
    [("caries_risk", 58%Z, decrease); ("pronunciation", 90%Z, decrease)]
  else if String.eqb issue_name "過蓋咬合" then
    [("trauma_risk", 65%Z, decrease); ("tmj_risk", 55%Z, decrease)]
  else if String.eqb issue_name "交叉咬合" then
    [("tmj_risk", 85%Z, decrease); ("mastication", 40%Z, decrease)]
  else if String.eqb issue_name "上顎前突" then
    [("trauma_risk", 75%Z, decrease); ("aesthetic", 80%Z, decrease)]
  else if String.eqb issue_name "下顎前突" then
    [("mastication", 70%Z, decrease); ("pronunciation", 30%Z, decrease)]
  else
    [("caries_risk", 30%Z, decrease); ("periodontal_risk", 25%Z, decrease)].

Definition _generate_default_effects (issue_id : Z) (issue_name : string)
  : list issue_treatment_effect :=
  map (fun '(category, value, direction) =>
      {| ite_issue_id := issue_id;
         ite_effect_category := category;
         ite_effect_value := inject_Z value;
         ite_effect_direction := direction;
         ite_description_ja :=
           _generate_effect_description issue_name category
             (inject_Z value) direction;
         ite_calculated_from := "default";
         ite_confidence_level := 1 # 2 |})
    (default_effects_table issue_name).

(** The body of the loop over the categories of one issue. *)
Definition effects_for_category (issue_id : Z) (issue_name : string)
  (category : string) (category_findings : list effect_row)
  : list issue_treatment_effect :=
  let '(total_weight, weighted_effect, paper_ids, counts) :=
    accumulate_effect category_findings in
  let '(n_increase, n_decrease, _) := counts in
  if Qltb 0 total_weight then
    let avg_effect := weighted_effect / total_weight in
    let final_direction :=
      if (n_increase <? n_decrease)%nat then decrease else increase in
    let final_effect := Qabs avg_effect in
    [ {| ite_issue_id := issue_id;
         ite_effect_category := category;
         ite_effect_value := final_effect;
         ite_effect_direction := final_direction;
         ite_description_ja :=
           _generate_effect_description issue_name category final_effect
             final_direction;
         ite_calculated_from := join "," paper_ids;
         ite_confidence_level :=
           py_min (total_weight
                   / inject_Z (Z.of_nat (List.length category_findings)))
                  (95 # 100) |} ]
  else [].

(** The body of the loop over the issues, after the SELECT. *)
Definition effects_for_issue (issue_id : Z) (issue_name : string)
  (findings : list effect_row) : list issue_treatment_effect :=
  match findings with
  | [] => _generate_default_effects issue_id issue_name
  | _ :: _ =>
      flat_map (fun '(category, category_findings) =>
          effects_for_category issue_id issue_name category
            category_findings)
        (_categorize_findings findings)
  end.

Definition generate_issue_treatment_effects
  : M (list issue_treatment_effect) :=
  try_except
    (execute_update (set_issue_treatment_effects []) ;;;
     issues <- execute_select select_issues ;;
     effects <-
       for_each issues
         (fun '(issue_id, issue_name) effects =>
            findings <- execute_select (select_issue_findings issue_id) ;;
            ret (effects
                 ++ effects_for_issue issue_id issue_name findings)%list)
         [] ;;
     for_each effects
       (fun effect _ =>
          execute_update
            (fun d => set_issue_treatment_effects
                        (issue_treatment_effects d ++ [effect])%list d))
       tt ;;;
     conn_commit ;;;
     ret effects)
    (fun e => conn_rollback ;;; raise e).

End Aggregation.

(** ** Timing benefits *)

Definition timing_age_groups : list (string * string * Z * Z) :=
  [ ("pediatric", "小児期 (7-12歳)", 7, 12);
    ("adolescent", "青年期 (13-18歳)", 13, 18);
    ("young_adult", "成人期前半 (19-35歳)", 19, 35);
    ("adult", "成人期後半 (36-60歳)", 36, 60);
    ("elderly", "高齢期 (61歳以上)", 61, 100) ]%Z.

(** (benefit_text, recommendation, timing_score) of an age group. *)
Definition timing_triple (group_code : string) : string * string * Z :=
  if String.eqb group_code "pediatric" then
    ("骨格の成長を利用した効率的な矯正が可能。将来的な歯列問題を95%予防可能。治療期間が30%短縮。",
     "最適", 100%Z)
  else if String.eqb group_code "adolescent" then
    ("顎の成長がまだ続いており、比較的効率的な矯正が可能。将来的な歯列問題を75%予防可能。",
     "推奨", 80%Z)
  else if String.eqb group_code "young_adult" then
    ("歯の移動は可能だが、治療期間が長くなる傾向。将来的な歯列問題を60%予防可能。",
     "適応", 60%Z)
  else if String.eqb group_code "adult" then
    ("歯周組織の状態によっては制限あり。治療期間が50%延長。将来的な歯列問題を40%予防可能。",
     "条件付き推奨", 40%Z)
  else
    ("歯周病や骨粗鬆症などの影響で治療オプションが制限される可能性。治療期間が2倍に延長。",
     "専門医評価必須", 20%Z).

Definition timing_confidence (evidence_count : Z) : Q :=
  if (0 <? evidence_count)%Z
  then py_min ((1 # 2) + inject_Z evidence_count / 20) (95 # 100)
  else 7 # 10.

Definition timing_benefit_for (group : string * string * Z * Z)
  (evidence_count : Z) : age_timing_benefit :=
  let '(group_code, group_name, age_min, age_max) := group in
  let '(benefit_text, recommendation, timing_score) :=
    timing_triple group_code in
  {| atb_age_group_code := group_code;
     atb_age_min := age_min;
     atb_age_max := age_max;
     atb_age_group_ja := group_name;
     atb_benefit_text_ja := benefit_text;
     atb_recommendation_level := recommendation;
     atb_timing_score := timing_score;
     atb_calculated_from := "combined_evidence";
     atb_confidence_level := timing_confidence evidence_count |}.

Definition generate_age_timing_benefits : M (list age_timing_benefit) :=
  try_except
    (execute_update (set_age_timing_benefits []) ;;;
     timing_benefits <-
       for_each timing_age_groups
         (fun group timing_benefits =>
            let '(_, _, age_min, age_max) := group in
            evidence_count <-
              execute_select (count_overlapping age_min age_max) ;;
            ret (timing_benefits
                 ++ [timing_benefit_for group evidence_count])%list)
         [] ;;
     for_each timing_benefits
       (fun benefit _ =>
          execute_update
            (fun d => set_age_timing_benefits
                        (age_timing_benefits d ++ [benefit])%list d))
       tt ;;;
     conn_commit ;;;
     ret timing_benefits)
    (fun e => conn_rollback ;;; raise e).

(** ** Future scenarios *)

Definition scenario_timeframes : list (string * string * Z) :=
  [ ("5year", "5年後", 5); ("10year", "10年後", 10); ("20year", "20年後", 20) ]%Z.

Definition scenario_age_groups : list (Z * Z) :=
  [ (7, 18); (19, 40); (41, 100) ]%Z.

Definition _generate_with_ortho_scenario (timeframe : string)
  (years age_min age_max : Z) : string :=
  let risk_reduction := (40 - Z.min 10 (years / 2))%Z in
  let common :=
    [ "歯並びが改善され、清掃性が向上";
       "齲蝕・歯周病リスクが" ++ str_of_Z risk_reduction ++ "%減少";
       "審美性向上により社会的自信が増加";
       if (age_min <=? 18)%Z
       then "咀嚼効率が" ++ str_of_Z (25 + Z.min 10 (years / 2))
            ++ "%向上し、消化不良の問題が改善"
       else "咀嚼効率が" ++ str_of_Z 25 ++ "%向上し、消化不良の問題が改善" ] in
  let from_10_years :=
        (if (10 <=? years)%Z then
           [ if (age_min <=? 18)%Z then "歯の喪失リスクが65%減少"
             else if (age_min <=? 40)%Z then "歯の喪失リスクが50%減少"
             else "歯の喪失リスクが35%減少";
             "顎関節症の発症を予防";
             "咀嚼効率の維持により栄養状態が良好";
             "歯並びの安定により新たな歯科問題の発生を抑制" ]
         else []) in
  let from_20_years :=
        (if (20 <=? years)%Z then
           [ if (age_min <=? 18)%Z
             then "健康な歯列の維持により高齢になっても80%以上の歯を保持"
             else if (age_min <=? 40)%Z
             then "健康な歯列の維持により高齢になっても70%以上の歯を保持"
             else "健康な歯列の維持により残存歯の喪失を最小限に抑制";
             "入れ歯やインプラントの必要性が大幅に減少";
             "良好な咀嚼機能により食事の質と栄養状態を維持";
             "会話の明瞭さを保ち、社会的交流の質を維持" ]
         else []) in
  let scenario_parts :=
    List.app common (List.app from_10_years from_20_years) in
  join ". " scenario_parts ++ ".".

Definition _generate_without_ortho_scenario (timeframe : string)
  (years age_min age_max : Z) : string :=
  let risk_increase :=
    if (years <=? 5)%Z then 35%Z else if (years <=? 10)%Z then 45%Z
    else 60%Z in
  let efficiency_loss :=
    if (years <=? 5)%Z then 15%Z else if (years <=? 10)%Z then 25%Z
    else 40%Z in
  let common :=
    [ "歯列不正が継続し、清掃困難な部位での齲蝕・歯周病リスクが上昇";
       "齲蝕・歯周病リスクが" ++ str_of_Z risk_increase ++ "%上昇";
       "咀嚼効率が約" ++ str_of_Z efficiency_loss ++ "%低下";
       if (age_min <=? 18)%Z then "若年期の問題が成長と共に悪化"
       else if (age_min <=? 40)%Z then "成人期の問題が蓄積"
       else "既存の問題が加齢と共に悪化";
       "消化不良や栄養吸収の問題が発生する可能性" ] in
  let from_10_years :=
        (if (10 <=? years)%Z then
           let tooth_loss :=
             if (age_min <=? 18)%Z then "1〜3本"
             else if (age_min <=? 40)%Z then "2〜5本" else "3〜7本" in
           [ "歯周病の進行により、" ++ tooth_loss
             ++ "の歯を喪失するリスクが高まる";
             "顎関節症を発症するリスクが2.5倍に";
             "咀嚼効率がさらに低下し、食事の選択肢が制限される可能性" ]
         else []) in
  let from_20_years :=
        (if (20 <=? years)%Z then
           let severe_loss :=
             if (age_min <=? 18)%Z then "5〜8本"
             else if (age_min <=? 40)%Z then "8〜12本" else "10〜15本" in
           [ "重度の歯周病により、" ++ severe_loss
             ++ "以上の歯を喪失する可能性が高い";
             "多数の歯の欠損により入れ歯やインプラント治療が必要になる可能性が70%以上";
             "咀嚼機能が50%以上低下し、栄養不足のリスクが増加";
             "発音障害により社会的コミュニケーションに支障をきたす可能性" ]
         else []) in
  let scenario_parts :=
    List.app common (List.app from_10_years from_20_years) in
  join ". " scenario_parts ++ ".".

Definition scenario_for (timeframe_name : string) (years age_min age_max : Z)
  : future_scenario :=
  {| fs_timeframe := timeframe_name;
     fs_timeframe_years := years;
     fs_with_ortho_text_ja :=
       _generate_with_ortho_scenario timeframe_name years age_min age_max;
     fs_without_ortho_text_ja :=
       _generate_without_ortho_scenario timeframe_name years age_min age_max;
     fs_applies_to_age_min := age_min;
     fs_applies_to_age_max := age_max;
     fs_calculated_from := "evidence_synthesis";
     fs_confidence_level := (8 # 10) - inject_Z years / 50 |}.

(** The two nested loops that fill [scenarios]. *)
Definition build_scenarios : list future_scenario :=
  flat_map (fun '(_, timeframe_name, years) =>
      map (fun '(age_min, age_max) =>
             scenario_for timeframe_name years age_min age_max)
          scenario_age_groups)
    scenario_timeframes.

Definition generate_future_scenarios : M (list future_scenario) :=
  try_except
    (execute_update (set_future_scenarios []) ;;;
     let scenarios := build_scenarios in
     for_each scenarios
       (fun scenario _ =>
          execute_update
            (fun d => set_future_scenarios
                        (future_scenarios d ++ [scenario])%list d))
       tt ;;;
     conn_commit ;;;
     ret scenarios)
    (fun e => conn_rollback ;;; raise e).

(** ** Economic impacts *)

Definition economic_current_cost (group_code : string) : Z :=
  if String.eqb group_code "pediatric" then 300000
  else if String.eqb group_code "adolescent" then 350000
  else if String.eqb group_code "young_adult" then 400000
  else if String.eqb group_code "adult" then 450000
  else 500000.

Definition economic_savings_factor (group_code : string) : Q :=
  if String.eqb group_code "pediatric" then 5
  else if String.eqb group_code "adolescent" then 35 # 10
  else if String.eqb group_code "young_adult" then 225 # 100
  else if String.eqb group_code "adult" then 13 # 10
  else 6 # 10.

Definition economic_impact_for (group : string * string * Z * Z)
  : economic_impact :=
  let '(group_code, group_name, age_min, age_max) := group in
  let current_cost := economic_current_cost group_code in
  let future_savings :=
    inject_Z current_cost * economic_savings_factor group_code in
  let roi :=
    ((future_savings - inject_Z current_cost) / inject_Z current_cost) * 100 in
  {| ei_age_group_code := group_code;
     ei_age_min := age_min;
     ei_age_max := age_max;
     ei_age_group_ja := group_name;
     ei_current_cost := current_cost;
     ei_future_savings := py_int future_savings;
     ei_roi := roi;
     ei_calculation_basis := "医療費削減推計";
     ei_confidence_level := 7 # 10 |}.

Definition generate_economic_impacts : M (list economic_impact) :=
  try_except
    (execute_update (set_economic_impacts []) ;;;
     let impacts := map economic_impact_for timing_age_groups in
     for_each impacts
       (fun impact _ =>
          execute_update
            (fun d => set_economic_impacts
                        (economic_impacts d ++ [impact])%list d))
       tt ;;;
     conn_commit ;;;
     ret impacts)
    (fun e => conn_rollback ;;; raise e).

(** ** Regenerate everything *)

Record evidence_summary := {
  risk_profiles_count : nat;
  treatment_effects_count : nat;
  timing_benefits_count : nat;
  scenarios_count : nat;
  economic_impacts_count : nat
}.

Definition generate_all_evidence_data {T : FloatText} : M evidence_summary :=
  try_except
    (risk_profiles <- generate_age_risk_profiles ;;
     treatment_effects <- generate_issue_treatment_effects ;;
     timing_benefits <- generate_age_timing_benefits ;;
     scenarios <- generate_future_scenarios ;;
     economic_impacts <- generate_economic_impacts ;;
     conn_commit ;;;
     ret {| risk_profiles_count := List.length risk_profiles;
            treatment_effects_count := List.length treatment_effects;
            timing_benefits_count := List.length timing_benefits;
            scenarios_count := List.length scenarios;
            economic_impacts_count := List.length economic_impacts |})
    (fun e => conn_rollback ;;; raise e).

(* ================================================================== *)
(** * NecessityScorer *)
(* ================================================================== *)

Record necessity_score := {
  total_score : Z;
  timing_score : Z;
  severity_score : Z;
  risk_score : Z;
  interpretation : string;
  urgency : string
}.

(** [SELECT timing_score FROM age_timing_benefits
     WHERE age_min <= age AND age_max >= age], then [fetchone]. *)
Definition select_timing_score (age : Z) (d : db) : option Z :=
  match filter (fun r => (atb_age_min r <=? age)%Z && (age <=? atb_age_max r)%Z)
               (age_timing_benefits d) with
  | [] => None
  | r :: _ => Some (atb_timing_score r)
  end.

Definition timing_ladder (age : Z) : Q :=
  if (age <=? 12)%Z then 35
  else if (age <=? 18)%Z then 30
  else if (age <=? 25)%Z then 25
  else if (age <=? 40)%Z then 20
  else if (age <=? 60)%Z then 15
  else 10.

Definition timing_of (age : Z) (result : option Z) : Q :=
  match result with
  | Some base_score => (inject_Z base_score / 100) * 35
  | None => timing_ladder age
  end.

Definition _calculate_timing_score (age : Z) : M Q :=
  result <- execute_select (select_timing_score age) ;;
  ret (timing_of age result).

(** [SELECT issue_id, severity_base_score FROM dental_issues
     WHERE issue_id IN (issue_ids)]. *)
Definition select_severities (issue_ids : list Z) (d : db) : list (Z * Q) :=
  map (fun di => (di_issue_id di, di_severity_base_score di))
      (filter (fun di => existsb (Z.eqb (di_issue_id di)) issue_ids)
              (dental_issues d)).

Definition severity_of (results : list (Z * Q)) : Q :=
  match map snd results with
  | [] => 0
  | first :: others =>
      let issue_scores := first :: others in
      let primary_issue_score := py_max_list first others in
      if (1 <? List.length issue_scores)%nat then
        let secondary_issues_score :=
          py_sum (removelast (py_sorted issue_scores)) * (1 # 2) in
        py_min 40 ((primary_issue_score + secondary_issues_score) / 100 * 40)
      else primary_issue_score / 100 * 40
  end.

Definition _calculate_severity_score (issue_ids : list Z) : M Q :=
  match issue_ids with
  | [] => ret 0
  | _ :: _ =>
      results <- execute_select (select_severities issue_ids) ;;
      ret (severity_of results)
  end.

(** [SELECT age_threshold, risk_value FROM age_risk_profiles
     WHERE age_threshold >= age ORDER BY age_threshold LIMIT 1]. *)
Definition select_next_threshold (age : Z) (d : db) : option (Z * Q) :=
  fold_left (fun best r =>
      if (age <=? arp_age_threshold r)%Z then
        match best with
        | Some (t, _) =>
            if (arp_age_threshold r <? t)%Z
            then Some (arp_age_threshold r, arp_risk_value r)
            else best
        | None => Some (arp_age_threshold r, arp_risk_value r)
        end
      else best)
    (age_risk_profiles d) None.

Definition risk_of (age : Z) (issue_ids : list Z)
  (threshold_result : option (Z * Q)) : Q :=
  match threshold_result with
  | None => 0
  | Some (next_threshold, risk_value) =>
      let years_until := (next_threshold - age)%Z in
      let urgency_factor := py_max 0 (1 - inject_Z years_until / 15) in
      let problem_factor :=
        py_min (15 # 10)
               (1 + inject_Z (Z.of_nat (List.length issue_ids) - 1) * (1 # 10))
      in
      urgency_factor * (risk_value / 60) * problem_factor * 35
  end.

Definition _calculate_risk_score (age : Z) (issue_ids : list Z) : M Q :=
  threshold_result <- execute_select (select_next_threshold age) ;;
  ret (risk_of age issue_ids threshold_result).

Definition _interpret_necessity_score (total_score : Q) : string * string :=
  if Qle_bool 85 total_score then
    ("緊急性の高い矯正必要性。早急な対応が強く推奨されます。", "緊急")
  else if Qle_bool 70 total_score then
    ("高い矯正必要性。できるだけ早い対応が望ましいです。", "高")
  else if Qle_bool 50 total_score then
    ("中程度の矯正必要性。計画的な対応を検討してください。", "中")
  else if Qle_bool 30 total_score then
    ("低〜中程度の矯正必要性。定期的な経過観察をお勧めします。", "低")
  else
    ("現時点での矯正必要性は低いですが、定期的な評価をお勧めします。", "最小").

Definition no_issue_score : necessity_score :=
  {| total_score := 0;
     timing_score := 0;
     severity_score := 0;
     risk_score := 0;
     interpretation := "問題が選択されていないため、スコアを計算できません。";
     urgency := "不明" |}.

Definition error_score : necessity_score :=
  {| total_score := 50;
     timing_score := 20;
     severity_score := 20;
     risk_score := 10;
     interpretation := "計算エラーが発生しました。";
     urgency := "不明" |}.

Definition prevention_bonus (age : Z) : Q :=
  if (age <=? 18)%Z then inject_Z (Z.max 0 (18 - age)) * (1 # 2) else 0.

Definition adult_complexity_bonus (age : Z) (issue_ids : list Z) : Q :=
  if (35 <=? age)%Z && (age <=? 55)%Z && (2 <=? List.length issue_ids)%nat
  then inject_Z ((Z.of_nat (List.length issue_ids) - 1) * 2)
  else 0.

(** The total before it is rounded for the result. *)
Definition clamp_total (total_score : Q) : Q :=
  py_max 10 (py_min 100 total_score).

Definition calculate_ortho_necessity_score (age : Z) (issue_ids : list Z)
  : M necessity_score :=
  try_except
    (match issue_ids with
     | [] => ret no_issue_score
     | _ :: _ =>
         timing <- _calculate_timing_score age ;;
         severity <- _calculate_severity_score issue_ids ;;
         risk <- _calculate_risk_score age issue_ids ;;
         let total := timing + severity + risk in
         let total := if (age <=? 18)%Z
                      then total + inject_Z (Z.max 0 (18 - age)) * (1 # 2)
                      else total in
         let total :=
           if (35 <=? age)%Z && (age <=? 55)%Z
              && (2 <=? List.length issue_ids)%nat
           then total + inject_Z ((Z.of_nat (List.length issue_ids) - 1) * 2)
           else total in
         let total := py_max 10 (py_min 100 total) in
         let '(interpretation_text, urgency_text) :=
           _interpret_necessity_score total in
         ret {| total_score := py_round total;
                timing_score := py_round timing;
                severity_score := py_round severity;
                risk_score := py_round risk;
                interpretation := interpretation_text;
                urgency := urgency_text |}
     end)
    (fun _ => ret error_score).

(* ================================================================== *)
(** * What a run computes *)
(* ================================================================== *)

(** The rows each generator computes when the store answers. *)
Definition age_risk_rows {T : FloatText} (d : db) : list age_risk_profile :=
  fold_left (fun profiles threshold =>
      (profiles
       ++ profiles_for_threshold threshold
            (select_risk_findings threshold d))%list)
    age_thresholds [].

Definition treatment_effect_rows {T : FloatText} (d : db)
  : list issue_treatment_effect :=
  fold_left (fun effects issue =>
      (effects
       ++ effects_for_issue (fst issue) (snd issue)
            (select_issue_findings (fst issue) d))%list)
    (select_issues d) [].

Definition timing_benefit_rows (d : db) : list age_timing_benefit :=
  fold_left (fun timing_benefits group =>
      (timing_benefits
       ++ [timing_benefit_for group
             (count_overlapping (snd (fst group)) (snd group) d)])%list)
    timing_age_groups [].

Definition economic_impact_rows : list economic_impact :=
  map economic_impact_for timing_age_groups.


Definition regeneration_steps {T : FloatText} : list (db -> db) :=
  [ fun d => set_age_risk_profiles (age_risk_rows d) d;
    fun d => set_issue_treatment_effects (treatment_effect_rows d) d;
    fun d => set_age_timing_benefits (timing_benefit_rows d) d;
    fun d => set_future_scenarios build_scenarios d;
    fun d => set_economic_impacts economic_impact_rows d ].

(** The database after the first [k] tables have been regenerated. *)
Definition regenerated {T : FloatText} (k : nat) (d : db) : db :=
  fold_left (fun d step => step d) (firstn k regeneration_steps) d.


(** [m] reads and writes the open transaction only: when it returns, its
    result is [f] of the database it started from and it leaves [u] of
    that database; it never touches the committed database; and it returns
    when the store never raises. *)
Definition computes {A} (m : M A) (f : db -> A) (u : db -> db) : Prop :=
  forall c r c', m c = (r, c') ->
    committed c' = committed c
    /\ (forall a, r = Returned a ->
                  a = f (working c) /\ working c' = u (working c))
    /\ (budget c = None -> budget c' = None /\ exists a, r = Returned a).

(** [m] ends with a commit: when it returns, the committed database is the
    one it leaves; when it raises, the committed database is untouched. *)
Definition commits {A} (m : M A) (f : db -> A) (u : db -> db) : Prop :=
  forall c r c', m c = (r, c') ->
    (forall a, r = Returned a ->
               a = f (working c) /\ working c' = u (working c)
               /\ committed c' = u (working c))
    /\ (forall e, r = Raised e -> committed c' = committed c)
    /\ (budget c = None -> budget c' = None /\ exists a, r = Returned a).

(** [m] is a transaction: it either returns with its effect committed, or
    raises with the store as it was at the last commit. *)
Definition atomic {A} (m : M A) (f : db -> A) (u : db -> db) : Prop :=
  forall c r c', m c = (r, c') ->
    (forall a, r = Returned a ->
               a = f (working c) /\ working c' = u (working c)
               /\ committed c' = u (working c))
    /\ (forall e, r = Raised e ->
                  working c' = committed c /\ committed c' = committed c)
    /\ (budget c = None -> budget c' = None /\ exists a, r = Returned a).

(* ================================================================== *)
(** * Reading the tables *)
(* ================================================================== *)

(** [get_economic_impact]: the dict it returns. *)
Record economic_benefit := {
  eb_current_cost : Z;
  eb_future_savings : Z;
  eb_net_benefit : Z;
  eb_roi : Q;
  eb_monthly_benefit : Z
}.

(** [SELECT current_cost, future_savings, roi FROM economic_impacts
     WHERE age_min <= age AND age_max >= age], then the first row. *)
Definition select_economic_impact (age : Z) (d : db) : option (Z * Z * Q) :=
  match filter (fun r => (ei_age_min r <=? age)%Z && (age <=? ei_age_max r)%Z)
               (economic_impacts d) with
  | [] => None
  | r :: _ => Some (ei_current_cost r, ei_future_savings r, ei_roi r)
  end.

Definition default_economic_benefit : economic_benefit :=
  {| eb_current_cost := 400000;
     eb_future_savings := 900000;
     eb_net_benefit := 500000;
     eb_roi := 125;
     eb_monthly_benefit := 2500 |}.

Definition economic_benefit_of (row : option (Z * Z * Q)) : economic_benefit :=
  match row with
  | Some (current_cost, future_savings, roi) =>
      {| eb_current_cost := current_cost;
         eb_future_savings := future_savings;
         eb_net_benefit := (future_savings - current_cost)%Z;
         eb_roi := roi;
         eb_monthly_benefit := py_int (inject_Z future_savings / 360) |}
  | None => default_economic_benefit
  end.

(** The read is not guarded: an error of the store is raised to the
    caller. *)
Definition get_economic_impact (age : Z) : M economic_benefit :=
  row <- execute_select (select_economic_impact age) ;;
  ret (economic_benefit_of row).

(** [map_study_type_to_evidence_level] of the literature client: the tier
    of a study type, tier 5 for a type that is not in the table. *)
Definition map_study_type_to_evidence_level (study_type : string) : string :=
  if String.eqb study_type "meta-analysis" then "1a"
  else if String.eqb study_type "randomized-controlled-trial" then "1b"
  else if String.eqb study_type "cohort-study" then "2a"
  else if String.eqb study_type "case-control" then "2b"
  else if String.eqb study_type "cross-sectional" then "3"
  else if String.eqb study_type "clinical-trial" then "2b"
  else if String.eqb study_type "experimental-study" then "3"
  else if String.eqb study_type "case-report" then "4"
  else if String.eqb study_type "unspecified-study" then "5"
  else "5".

(* ================================================================== *)
(** * Notions used by the statements *)
(* ================================================================== *)

(** The two sums kept by the loop of the risk aggregation. *)
Definition total_weight_of (acc : Q * Q * list string) : Q := fst (fst acc).
Definition weighted_risk_of (acc : Q * Q * list string) : Q := snd (fst acc).

(** The values that enter the average: present and not zero. *)
Definition contributing (finding : risk_row) : option Q :=
  match rr_effect_value finding with
  | Some v => if Qtruthy v then Some v else None
  | None => None
  end.

(** The finding that [_extract_and_insert_finding] inserts for a row of the
    imported file. *)
Definition extracted_finding (paper_id : Z) (issue_id : option Z)
  (risk_description age_group : string) (confidence_interval : option string)
  : research_finding :=
  let '(effect_value, effect_direction) :=
    _parse_risk_description risk_description in
  let '(age_min, age_max) := _parse_age_group age_group in
  {| rf_paper_id := paper_id;
     rf_issue_id := issue_id;
     rf_finding_type := "risk";
     rf_description_ja := risk_description;
     rf_effect_value := effect_value;
     rf_effect_direction := effect_direction;
     rf_confidence_interval := confidence_interval;
     rf_applies_to_age_min := age_min;
     rf_applies_to_age_max := age_max |}.

Definition empty_db : db := mk_db [] [] [] [] [] [] [] [].

Definition fresh_connection (d : db) (b : option nat) : connection :=
  mk_connection d d b.

(** C1 as the specification states it. *)
Definition every_threshold_has_bounded_profile {T : FloatText}
  (c : connection) : Prop :=
  forall rows c',
    generate_age_risk_profiles c = (Returned rows, c') ->
    forall t, In t age_thresholds ->
      exists row,
        In row (age_risk_profiles (working c'))
        /\ arp_age_threshold row = t
        /\ 0 <= arp_risk_value row <= 100
        /\ 0 <= arp_confidence_level row <= 95 # 100.

(** One paper of tier 5 on one issue, with the finding "リスク2.5倍". *)
Definition multiplier_db : db :=
  Eval vm_compute in
  mk_db [ {| rp_paper_id := 7; rp_evidence_level := Some "5" |} ]
        [ {| di_issue_id := 1; di_issue_name_ja := "叢生";
             di_severity_base_score := 80 |} ]
        [ extracted_finding 7 (Some 1%Z) "リスク2.5倍" "全年齢" None ]
        [] [] [] [] [].

(** One paper of tier 1b with the finding "5年後齲蝕リスク42%上昇". *)
Definition percent_db : db :=
  Eval vm_compute in
  mk_db [ {| rp_paper_id := 7; rp_evidence_level := Some "1b" |} ]
        [ {| di_issue_id := 1; di_issue_name_ja := "叢生";
             di_severity_base_score := 80 |} ]
        [ extracted_finding 7 (Some 1%Z) "5年後齲蝕リスク42%上昇" "全年齢" None ]
        [] [] [] [] [].

(** The three sub-scores, as functions of the database. *)
Definition timing_value (d : db) (age : Z) : Q :=
  timing_of age (select_timing_score age d).

Definition severity_value (d : db) (issue_ids : list Z) : Q :=
  match issue_ids with
  | [] => 0
  | _ :: _ => severity_of (select_severities issue_ids d)
  end.

Definition risk_value (d : db) (age : Z) (issue_ids : list Z) : Q :=
  risk_of age issue_ids (select_next_threshold age d).

(** The total of the specification: the sum of the sub-scores and of the
    two bonuses, clamped. *)
Definition specified_total (d : db) (age : Z) (issue_ids : list Z) : Q :=
  clamp_total (timing_value d age + severity_value d issue_ids
               + risk_value d age issue_ids
               + prevention_bonus age
               + adult_complexity_bonus age issue_ids).

(** C2 as the specification states it: the returned total is that total. *)
Definition total_is_specified_total (c : connection) (age : Z)
  (issue_ids : list Z) : Prop :=
  forall res c',
    calculate_ortho_necessity_score age issue_ids c = (Returned res, c') ->
    inject_Z (total_score res) == specified_total (working c) age issue_ids.

(** A finding enters the effect aggregation when its value is present and
    not zero. *)
Definition effect_contributes (finding : effect_row) : bool :=
  match er_effect_value finding with
  | Some v => Qtruthy v
  | None => false
  end.

(** C3 as the specification states it, for one provenance text: the marker
    or the joined identifiers of papers of the store. *)
Definition provenance_ok (d : db) (calculated_from : string) : Prop :=
  calculated_from = "default"
  \/ exists ids,
       (forall id, In id ids ->
          exists rp, In rp (research_papers d) /\ rp_paper_id rp = id)
       /\ calculated_from = join "," (map str_of_Z ids).

Definition every_row_has_provenance {T : FloatText} (c : connection) : Prop :=
  forall summary c',
    generate_all_evidence_data c = (Returned summary, c') ->
    (forall row, In row (age_risk_profiles (working c')) ->
       provenance_ok (working c) (arp_calculated_from row))
    /\ (forall row, In row (issue_treatment_effects (working c')) ->
          provenance_ok (working c) (ite_calculated_from row))
    /\ (forall row, In row (age_timing_benefits (working c')) ->
          provenance_ok (working c) (atb_calculated_from row))
    /\ (forall row, In row (future_scenarios (working c')) ->
          provenance_ok (working c) (fs_calculated_from row)).

(** C7 as the specification states it: no evidence gives a strictly higher
    confidence than one to four findings. *)
Definition zero_evidence_strictly_higher : Prop :=
  forall n, (1 <= n <= 4)%Z -> timing_confidence n < timing_confidence 0.

(** Four findings for all ages, each of its own paper. *)
Definition four_findings_db : db :=
  Eval vm_compute in
  mk_db [ {| rp_paper_id := 1; rp_evidence_level := Some "2a" |};
          {| rp_paper_id := 2; rp_evidence_level := Some "2a" |};
          {| rp_paper_id := 3; rp_evidence_level := Some "3" |};
          {| rp_paper_id := 4; rp_evidence_level := Some "4" |} ]
        [ {| di_issue_id := 1; di_issue_name_ja := "叢生";
             di_severity_base_score := 80 |} ]
        [ extracted_finding 1 (Some 1%Z) "齲蝕リスク38%上昇" "全年齢" None;
          extracted_finding 2 (Some 1%Z) "歯周病リスク45%上昇" "全年齢" None;
          extracted_finding 3 (Some 1%Z) "齲蝕リスク20%上昇" "全年齢" None;
          extracted_finding 4 (Some 1%Z) "咀嚼効率が30%低下" "全年齢" None ]
        [] [] [] [] [].

(** The confidences stored by a run, in the order of the age groups. *)
Definition stored_timing_confidences (c : connection) : list Q :=
  map atb_confidence_level
      (age_timing_benefits (working (snd (generate_age_timing_benefits c)))).

(** The same row of the SELECT, for a paper of another tier. *)
Definition with_evidence_level (level : option string) (finding : risk_row)
  : risk_row :=
  {| rr_effect_value := rr_effect_value finding;
     rr_effect_direction := rr_effect_direction finding;
     rr_confidence_interval := rr_confidence_interval finding;
     rr_applies_to_age_min := rr_applies_to_age_min finding;
     rr_applies_to_age_max := rr_applies_to_age_max finding;
     rr_evidence_level := level;
     rr_issue_name_ja := rr_issue_name_ja finding |}.

(** Weight and weighted value a row adds to the sums. *)
Definition row_weight (finding : risk_row) : Q :=
  match contributing finding with
  | Some _ => _get_evidence_level_weight (rr_evidence_level finding)
  | None => 0
  end.

Definition row_weighted (finding : risk_row) : Q :=
  match contributing finding with
  | Some v => v * _get_evidence_level_weight (rr_evidence_level finding)
  | None => 0
  end.

(** Two findings for all ages: 42 from a paper of tier 5, 20 from a paper
    of tier 2a. *)
Definition two_papers_rows : list risk_row :=
  Eval vm_compute in
  select_risk_findings 12
    (mk_db [ {| rp_paper_id := 1; rp_evidence_level := Some "5" |};
             {| rp_paper_id := 2; rp_evidence_level := Some "2a" |} ]
           [ {| di_issue_id := 1; di_issue_name_ja := "叢生";
                di_severity_base_score := 80 |} ]
           [ extracted_finding 1 (Some 1%Z) "5年後齲蝕リスク42%上昇" "全年齢" None;
             extracted_finding 2 (Some 1%Z) "歯周病リスク20%上昇" "全年齢" None ]
           [] [] [] [] []).

(** An effect value that the test [if effect_value:] rejects. *)
Definition falsy_value (o : option Q) : Prop :=
  o = None \/ exists v, o = Some v /\ v == 0.

(** The finding with its effect value absent. *)
Definition without_effect_value (rf : research_finding) : research_finding :=
  {| rf_paper_id := rf_paper_id rf;
     rf_issue_id := rf_issue_id rf;
     rf_finding_type := rf_finding_type rf;
     rf_description_ja := rf_description_ja rf;
     rf_effect_value := None;
     rf_effect_direction := rf_effect_direction rf;
     rf_confidence_interval := rf_confidence_interval rf;
     rf_applies_to_age_min := rf_applies_to_age_min rf;
     rf_applies_to_age_max := rf_applies_to_age_max rf |}.

(** [rf'] is [rf], or [rf] with its value of zero made absent. *)
Definition zero_made_absent (rf rf' : research_finding) : Prop :=
  rf' = rf
  \/ (exists v, rf_effect_value rf = Some v /\ v == 0)
     /\ rf' = without_effect_value rf.

(** Values as the aggregation sees them: a rejected value is absent. *)
Definition seen_value (o : option Q) : option Q :=
  match o with
  | Some v => if Qtruthy v then Some v else None
  | None => None
  end.

Definition seen_risk_row (r : risk_row) : risk_row :=
  {| rr_effect_value := seen_value (rr_effect_value r);
     rr_effect_direction := rr_effect_direction r;
     rr_confidence_interval := rr_confidence_interval r;
     rr_applies_to_age_min := rr_applies_to_age_min r;
     rr_applies_to_age_max := rr_applies_to_age_max r;
     rr_evidence_level := rr_evidence_level r;
     rr_issue_name_ja := rr_issue_name_ja r |}.

Definition seen_effect_row (r : effect_row) : effect_row :=
  {| er_effect_value := seen_value (er_effect_value r);
     er_effect_direction := er_effect_direction r;
     er_description_ja := er_description_ja r;
     er_evidence_level := er_evidence_level r;
     er_paper_id := er_paper_id r |}.

Definition seen_categories (categories : list (string * list effect_row))
  : list (string * list effect_row) :=
  map (fun entry => (fst entry, map seen_effect_row (snd entry))) categories.

(** A finding "1倍" beside a finding of 42, and the same store with the
    value of the first made absent. *)
Definition unit_multiplier_db : db :=
  Eval vm_compute in
  mk_db [ {| rp_paper_id := 7; rp_evidence_level := Some "1b" |};
          {| rp_paper_id := 8; rp_evidence_level := Some "3" |} ]
        [ {| di_issue_id := 1; di_issue_name_ja := "叢生";
             di_severity_base_score := 80 |} ]
        [ extracted_finding 8 (Some 1%Z) "齲蝕リスク1倍" "全年齢" None;
          extracted_finding 7 (Some 1%Z) "5年後齲蝕リスク42%上昇" "全年齢" None ]
        [] [] [] [] [].

Definition unit_multiplier_absent_db : db :=
  Eval vm_compute in
  mk_db (research_papers unit_multiplier_db) (dental_issues unit_multiplier_db)
        [ without_effect_value
            (extracted_finding 8 (Some 1%Z) "齲蝕リスク1倍" "全年齢" None);
          extracted_finding 7 (Some 1%Z) "5年後齲蝕リスク42%上昇" "全年齢" None ]
        [] [] [] [] [].

(** The direction that the keywords give. *)
Definition direction_by_keywords (s : string) : direction :=
  if existsb (fun keyword => contains keyword s) increase_keywords then increase
  else if existsb (fun keyword => contains keyword s) decrease_keywords
  then decrease
  else neutral.

(** The tables that the steps after the first [k] write are the same in
    [d] and [d'], and so are the tables that no step writes. *)
Definition untouched_after (k : nat) (d d' : db) : Prop :=
  research_papers d' = research_papers d
  /\ dental_issues d' = dental_issues d
  /\ research_findings d' = research_findings d
  /\ ((k <= 0)%nat -> age_risk_profiles d' = age_risk_profiles d)
  /\ ((k <= 1)%nat -> issue_treatment_effects d' = issue_treatment_effects d)
  /\ ((k <= 2)%nat -> age_timing_benefits d' = age_timing_benefits d)
  /\ ((k <= 3)%nat -> future_scenarios d' = future_scenarios d)
  /\ ((k <= 4)%nat -> economic_impacts d' = economic_impacts d).

(** C5 as the specification states it: a run that raises leaves the store
    as it found it. *)
Definition regenerate_all_is_atomic {T : FloatText} (c : connection) : Prop :=
  forall e c',
    generate_all_evidence_data c = (Raised e, c') ->
    committed c' = committed c /\ working c' = committed c.

(** C6 as the specification states it, for the finding [f] with the value
    [value] in the bucket [pre ++ f :: post]: with the tier 1a in place of
    the tier 5 the bucket accumulates strictly more weight and the stored
    risk value lies strictly closer to [value]. *)
Definition replacement_shifts_average {T : FloatText} (threshold : Z)
  (pre post : list risk_row) (f : risk_row) (value : Q) : Prop :=
  forall row row',
    profiles_for_threshold threshold (pre ++ f :: post) = [row] ->
    profiles_for_threshold threshold
      (pre ++ with_evidence_level (Some "1a") f :: post) = [row'] ->
    py_sum (map row_weight (pre ++ f :: post))
    < py_sum (map row_weight
                (pre ++ with_evidence_level (Some "1a") f :: post))
    /\ Qabs (arp_risk_value row' - value) < Qabs (arp_risk_value row - value).

(** One finding for all ages, "齲蝕リスク1倍" (value 0), from a paper of
    tier 5. *)
Definition unit_multiplier_rows : list risk_row :=
  Eval vm_compute in
  select_risk_findings 12
    (mk_db [ {| rp_paper_id := 1; rp_evidence_level := Some "5" |} ]
           [ {| di_issue_id := 1; di_issue_name_ja := "叢生";
                di_severity_base_score := 80 |} ]
           [ extracted_finding 1 (Some 1%Z) "齲蝕リスク1倍" "全年齢" None ]
           [] [] [] [] []).

(** One finding for all ages, 42 per cent, from a paper of tier 5. *)
Definition single_finding_rows : list risk_row :=
  Eval vm_compute in
  select_risk_findings 12
    (mk_db [ {| rp_paper_id := 1; rp_evidence_level := Some "5" |} ]
           [ {| di_issue_id := 1; di_issue_name_ja := "叢生";
                di_severity_base_score := 80 |} ]
           [ extracted_finding 1 (Some 1%Z) "5年後齲蝕リスク42%上昇" "全年齢" None ]
           [] [] [] [] []).

(** The finding belongs to the category: its description matches it. *)
Definition in_category (category : string) (finding : effect_row) : bool :=
  String.eqb (match_category category_keywords (er_description_ja finding))
             category.

(** The paper ids that the provenance of an effect row must list: those of
    the findings of the issue and of the category that have a present,
    non-zero value, in the order of the SELECT. *)
Definition contributing_paper_ids (d : db) (issue_id : Z) (category : string)
  : list Z :=
  map er_paper_id
    (filter effect_contributes
       (filter (in_category category) (select_issue_findings issue_id d))).

(** Three findings on one issue: papers 7 and 8 on caries, paper 9 on the
    jaw joint. *)
Definition three_findings_db : db :=
  Eval vm_compute in
  mk_db [ {| rp_paper_id := 7; rp_evidence_level := Some "1b" |};
          {| rp_paper_id := 8; rp_evidence_level := Some "3" |};
          {| rp_paper_id := 9; rp_evidence_level := Some "2a" |} ]
        [ {| di_issue_id := 1; di_issue_name_ja := "叢生";
             di_severity_base_score := 80 |} ]
        [ extracted_finding 7 (Some 1%Z) "5年後齲蝕リスク42%上昇" "全年齢" None;
          extracted_finding 9 (Some 1%Z) "顎関節症リスク30%上昇" "全年齢" None;
          extracted_finding 8 (Some 1%Z) "齲蝕リスク2.5倍" "全年齢" None ]
        [] [] [] [] [].

(** The five generators in the order of the run, their results dropped. *)
Definition generator_steps {T : FloatText} : list (M unit) :=
  [ generate_age_risk_profiles ;;; ret tt;
    generate_issue_treatment_effects ;;; ret tt;
    generate_age_timing_benefits ;;; ret tt;
    generate_future_scenarios ;;; ret tt;
    generate_economic_impacts ;;; ret tt ].

(** The steps one after the other, up to the first that raises. *)
Fixpoint run_steps (steps : list (M unit)) : M unit :=
  match steps with
  | [] => ret tt
  | step :: rest => step ;;; run_steps rest
  end.

(** The labels of [age_ranges] with their ranges. *)
Definition age_ranges : list (string * (Z * Z)) :=
  [ ("小児", (3, 12)); ("小児・青年", (3, 18)); ("青年", (13, 18));
    ("青年・成人", (13, 59)); ("成人", (19, 59)); ("成人・高齢者", (19, 100));
    ("高齢者", (60, 100)); ("全年齢", (1, 100)) ]%Z.

(** The tiers with their weights. *)
Definition tier_weights : list (string * Q) :=
  [ ("1a", 5); ("1b", 4); ("2a", 3); ("2b", 2); ("3", 3 # 2); ("4", 1);
    ("5", 1 # 2) ].

(** The categories of the effect aggregation. *)
Definition effect_categories : list string :=
  (map fst category_keywords ++ ["other"])%list.

(** The findings of all the categories, one category after the other. *)
Definition all_categorized (categories : list (string * list effect_row))
  : list effect_row :=
  List.concat (map snd categories).

(** How many contributing findings of a category have a direction. *)
Definition direction_votes (d : direction) (category_findings : list effect_row)
  : nat :=
  List.length
    (filter (fun f => effect_contributes f
                      && direction_eqb (er_effect_direction f) d)
            category_findings).

(** What the look-up of the next threshold has found among the rows it has
    seen. *)
Definition next_threshold_of (age : Z) (seen : list age_risk_profile)
  (best : option (Z * Q)) : Prop :=
  match best with
  | None => forall r, In r seen -> (arp_age_threshold r < age)%Z
  | Some (t, v) =>
      (age <= t)%Z
      /\ (exists r, In r seen /\ arp_age_threshold r = t
                    /\ arp_risk_value r = v)
      /\ forall r, In r seen -> (age <= arp_age_threshold r)%Z ->
                   (t <= arp_age_threshold r)%Z
  end.

(** The bounds and the timing score of the rows of the timing table. *)
Definition timing_bands (rows : list age_timing_benefit) : list (Z * Z * Z) :=
  map (fun r => (atb_age_min r, atb_age_max r, atb_timing_score r)) rows.

(** The bounds and the figures of the rows of the economic table. *)
Definition economic_bands (rows : list economic_impact)
  : list (Z * Z * (Z * Z * Q)) :=
  map (fun r => (ei_age_min r, ei_age_max r,
                 (ei_current_cost r, ei_future_savings r, ei_roi r))) rows.

(** The scenarios that apply to an age: the WHERE clause of
    [get_future_scenarios]. *)
Definition scenarios_for_age (age : Z) (rows : list future_scenario)
  : list future_scenario :=
  filter (fun r => (fs_applies_to_age_min r <=? age)%Z
                   && (age <=? fs_applies_to_age_max r)%Z) rows.


(* ================================================================== *)
(** * Properties *)
(* ================================================================== *)

(** ** The matcher *)

Lemma strip_prefix_spec : forall p s r,
  strip_prefix p s = Some r <-> s = (p ++ r)%list.
Proof.
  induction p as [|a p IH]; intros s r; simpl.
  - split; [intros [= ->]; reflexivity | intros ->; reflexivity].
  - destruct s as [|b s]; [split; discriminate|].
    destruct (N.eqb_spec a b) as [->|Hne].
    + rewrite IH. split; [intros ->; reflexivity | intros [= ->]; reflexivity].
    + split; [discriminate | intros [= ? ?]; congruence].
Qed.

Lemma append_assoc : forall a b c : string, (a ++ b) ++ c = a ++ (b ++ c).
Proof. induction a; intros; simpl; [reflexivity | now rewrite IHa]. Qed.

Lemma append_nil_r : forall a : string, a ++ "" = a.
Proof. induction a; simpl; [reflexivity | now rewrite IHa]. Qed.

Section MatcherFacts.
Variable closing : list N.

Lemma digits_star_sound : forall A s (k : list N -> list N -> option A) a,
  digits_star s k = Some a ->
  exists m r, s = (m ++ r)%list /\ all_digits m = true /\ k m r = Some a.
Proof.
  intros A; induction s as [|c t IH]; intros k a H; simpl in H.
  - exists [], []. auto.
  - destruct (is_digit c) eqn:Hc.
    + destruct (digits_star t (fun m r => k (c :: m) r)) eqn:Ht.
      * injection H as ->. apply IH in Ht as (m & r & -> & Hm & Hk).
        exists (c :: m), r. unfold all_digits in *. simpl.
        rewrite Hc, Hm. auto.
      * exists [], (c :: t). auto.
    + exists [], (c :: t). auto.
Qed.

Lemma digits_star_complete : forall A s (k : list N -> list N -> option A),
  digits_star s k = None ->
  forall m r, s = (m ++ r)%list -> all_digits m = true -> k m r = None.
Proof.
  intros A; induction s as [|c t IH]; intros k H m r Hs Hm; simpl in H.
  - destruct m; [simpl in Hs; subst; assumption | discriminate].
  - destruct m as [|c' m].
    + simpl in Hs. subst r.
      destruct (is_digit c);
        [destruct (digits_star t _); [discriminate | assumption] | assumption].
    + simpl in Hs. injection Hs as <- ->. unfold all_digits in Hm.
      simpl in Hm. apply andb_true_iff in Hm as [Hc Hm]. rewrite Hc in H.
      destruct (digits_star (m ++ r) (fun m0 r0 => k (c :: m0) r0)) eqn:Ht;
        [discriminate|].
      exact (IH _ Ht m r eq_refl Hm).
Qed.

Lemma digits_plus_sound : forall A s (k : list N -> list N -> option A) a,
  digits_plus s k = Some a ->
  exists m r, s = (m ++ r)%list /\ m <> [] /\ all_digits m = true
              /\ k m r = Some a.
Proof.
  intros A s k a H. destruct s as [|c t]; simpl in H; [discriminate|].
  destruct (is_digit c) eqn:Hc; [|discriminate].
  apply digits_star_sound in H as (m & r & -> & Hm & Hk).
  exists (c :: m), r. unfold all_digits in *. simpl. rewrite Hc, Hm.
  repeat split; auto. discriminate.
Qed.

Lemma digits_plus_complete : forall A s (k : list N -> list N -> option A),
  digits_plus s k = None ->
  forall m r, s = (m ++ r)%list -> m <> [] -> all_digits m = true ->
              k m r = None.
Proof.
  intros A s k H m r Hs Hne Hm. destruct m as [|c m]; [congruence|].
  simpl in Hs. subst s. unfold all_digits in Hm. simpl in H, Hm.
  apply andb_true_iff in Hm as [Hc Hm]. rewrite Hc in H.
  exact (digits_star_complete _ _ _ H m r eq_refl Hm).
Qed.

Lemma opt_dot_sound : forall A s (k : list N -> list N -> option A) a,
  opt_dot s k = Some a ->
  exists dot r, s = (dot ++ r)%list /\ (dot = [] \/ dot = [dot_char])
                /\ k dot r = Some a.
Proof.
  intros A s k a H. destruct s as [|c t]; simpl in H.
  - exists [], []. auto.
  - destruct (N.eqb_spec c dot_char) as [->|Hne].
    + destruct (k [dot_char] t) eqn:Hk.
      * injection H as ->. exists [dot_char], t. auto.
      * exists [], (dot_char :: t). auto.
    + exists [], (c :: t). auto.
Qed.

Lemma opt_dot_complete : forall A s (k : list N -> list N -> option A),
  opt_dot s k = None ->
  forall dot r, s = (dot ++ r)%list -> (dot = [] \/ dot = [dot_char]) ->
                k dot r = None.
Proof.
  intros A s k H dot r Hs [-> | ->]; simpl in Hs; subst s.
  - destruct r as [|c t]; simpl in H; [assumption|].
    destruct (N.eqb c dot_char);
      [destruct (k [dot_char] t); [discriminate|]|]; assumption.
  - simpl in H. try rewrite N.eqb_refl in H.
    destruct (k [dot_char] r); [discriminate | reflexivity].
Qed.

Lemma match_here_sound : forall s n,
  match_here closing s = Some n -> occurs_at closing s [] n.
Proof.
  intros s n H. unfold match_here in H.
  apply digits_plus_sound in H as (d1 & r1 & -> & Hne & Hd1 & H).
  apply opt_dot_sound in H as (dot & r2 & -> & Hdot & H).
  apply digits_star_sound in H as (d2 & r3 & -> & Hd2 & H).
  destruct (strip_prefix closing r3) as [post|] eqn:Hp; [|discriminate].
  injection H as <-. apply strip_prefix_spec in Hp as ->.
  exists post. split.
  - simpl. now rewrite <- !app_assoc.
  - exists d1, dot, d2. auto.
Qed.

Lemma match_here_complete : forall s n,
  occurs_at closing s [] n -> match_here closing s <> None.
Proof.
  intros s n (post & Hs & d1 & dot & d2 & -> & Hne & Hd1 & Hd2 & Hdot) H.
  simpl in Hs. rewrite <- !app_assoc in Hs.
  unfold match_here in H.
  pose proof (digits_plus_complete _ _ _ H d1 _ Hs Hne Hd1) as H1.
  pose proof (opt_dot_complete _ _ _ H1 dot _ eq_refl Hdot) as H2.
  pose proof (digits_star_complete _ _ _ H2 d2 _ eq_refl Hd2) as H3.
  simpl in H3.
  destruct (strip_prefix closing (closing ++ post)) eqn:Hp; [discriminate|].
  assert (Hx : strip_prefix closing (closing ++ post) = Some post)
    by (apply strip_prefix_spec; reflexivity).
  congruence.
Qed.

Lemma occurs_at_tail : forall c t pre n,
  occurs_at closing (c :: t) (c :: pre) n <-> occurs_at closing t pre n.
Proof.
  intros c t pre n. split; intros (post & Hs & Hn); exists post; split; auto.
  - simpl in Hs. now injection Hs.
  - simpl. now rewrite Hs.
Qed.

Lemma occurs_at_head : forall c t pre n,
  occurs_at closing (c :: t) pre n ->
  pre = [] \/ exists pre', pre = c :: pre' /\ occurs_at closing t pre' n.
Proof.
  intros c t [|c' pre'] n H; [now left | right].
  destruct H as (post & Hs & Hn). simpl in Hs. injection Hs as <- Hs.
  exists pre'. split; [reflexivity|]. exists post. auto.
Qed.

Lemma re_search_cons : forall c t,
  re_search closing (c :: t)
  = match match_here closing (c :: t) with
    | Some g => Some g
    | None => re_search closing t
    end.
Proof. reflexivity. Qed.

Lemma re_search_sound : forall s n,
  re_search closing s = Some n -> first_occurrence closing s n.
Proof.
  induction s as [|c t IH]; intros n H.
  - discriminate.
  - rewrite re_search_cons in H. destruct (match_here closing (c :: t)) eqn:Hm.
    + injection H as ->. exists []. split; [now apply match_here_sound|].
      intros; simpl; lia.
    + destruct (IH _ H) as (pre & Hocc & Hmin).
      exists (c :: pre). split; [now apply occurs_at_tail|].
      intros pre2 n2 H2.
      destruct (occurs_at_head _ _ _ _ H2) as [-> | (pre' & -> & H3)].
      * exfalso. exact (match_here_complete _ _ H2 Hm).
      * simpl. apply Hmin in H3. lia.
Qed.

Lemma re_search_complete : forall s,
  re_search closing s = None -> forall pre n, ~ occurs_at closing s pre n.
Proof.
  induction s as [|c t IH]; intros H pre n Hocc;
    [|rewrite re_search_cons in H].
  - destruct Hocc as (post & Hs & d1 & dot & d2 & -> & Hne & _).
    destruct pre; [|discriminate]. destruct d1; [congruence | discriminate].
  - destruct (match_here closing (c :: t)) eqn:Hm; [discriminate|].
    destruct (occurs_at_head _ _ _ _ Hocc) as [-> | (pre' & -> & H2)].
    + exact (match_here_complete _ _ Hocc Hm).
    + exact (IH H _ _ H2).
Qed.
End MatcherFacts.

(** ** The store monad *)

Lemma spend_cases : forall c,
  (spend c = None /\ exists n, budget c = Some n)
  \/ (exists c', spend c = Some c' /\ committed c' = committed c
                 /\ working c' = working c
                 /\ (budget c = None -> budget c' = None)).
Proof.
  intros [cm wk [[|n]|]]; unfold spend; simpl.
  - left. eauto.
  - right. eexists. split; [reflexivity|]. simpl. repeat split. discriminate.
  - right. eexists. split; [reflexivity|]. simpl. auto.
Qed.

Lemma computes_ret : forall A (a : A), computes (ret a) (fun _ => a) (fun d => d).
Proof.
  intros A a c r c' [= <- <-]. split; [reflexivity|]. split.
  - intros a' [= <-]. auto.
  - intros Hn. eauto.
Qed.

Lemma computes_select : forall A (q : db -> A),
  computes (execute_select q) q (fun d => d).
Proof.
  intros A q c r c' H. unfold execute_select in H.
  destruct (spend_cases c) as [[Hs [n Hn]] | (c1 & Hs & Hc & Hw & Hb)];
    rewrite Hs in H; injection H as <- <-.
  - split; [reflexivity|]. split; [discriminate | congruence].
  - split; [assumption|]. split.
    + intros a [= <-]. rewrite Hw. auto.
    + intros Hn. eauto.
Qed.

Lemma computes_update : forall (u : db -> db),
  computes (execute_update u) (fun _ => tt) u.
Proof.
  intros u c r c' H. unfold execute_update in H.
  destruct (spend_cases c) as [[Hs [n Hn]] | (c1 & Hs & Hc & Hw & Hb)];
    rewrite Hs in H; injection H as <- <-.
  - split; [reflexivity|]. split; [discriminate | congruence].
  - simpl. split; [assumption|]. split.
    + intros [] _. rewrite Hw. auto.
    + intros Hn. eauto.
Qed.

Lemma computes_bind : forall A B (m : M A) (k : A -> M B) f u g v,
  computes m f u ->
  (forall a, computes (k a) (g a) (v a)) ->
  computes (bind m k) (fun d => g (f d) (u d)) (fun d => v (f d) (u d)).
Proof.
  intros A B m k f u g v Hm Hk c r c' H. unfold bind in H.
  destruct (m c) as [[a|e] c1] eqn:Hmc.
  - destruct (Hm _ _ _ Hmc) as (Hc1 & Hr1 & Hb1).
    destruct (Hr1 a eq_refl) as [-> Hw1].
    destruct (Hk _ _ _ _ H) as (Hc2 & Hr2 & Hb2).
    split; [congruence|]. split.
    + intros b Hb. destruct (Hr2 b Hb) as [-> Hw2]. rewrite Hw2, Hw1. auto.
    + intros Hn. apply Hb2. now apply Hb1.
  - injection H as <- <-. destruct (Hm _ _ _ Hmc) as (Hc1 & Hr1 & Hb1).
    split; [assumption|]. split; [discriminate|].
    intros Hn. destruct (Hb1 Hn) as [? [a ?]]. discriminate.
Qed.

Lemma computes_ext : forall A (m : M A) f u f' u',
  computes m f u -> (forall d, f d = f' d) -> (forall d, u d = u' d) ->
  computes m f' u'.
Proof.
  intros A m f u f' u' Hm Hf Hu c r c' H.
  destruct (Hm _ _ _ H) as (Hc & Hr & Hb). split; [assumption|]. split.
  - intros a Ha. destruct (Hr a Ha) as [-> ->]. auto.
  - assumption.
Qed.

(** A loop whose body only reads. *)
Lemma computes_for_each_reads : forall A S (body : A -> S -> M S) g l acc,
  (forall x a, computes (body x a) (fun d => g x a d) (fun d => d)) ->
  computes (for_each l body acc)
           (fun d => fold_left (fun a x => g x a d) l acc) (fun d => d).
Proof.
  intros A S body g l. induction l as [|x t IH]; intros acc Hb; simpl.
  - apply computes_ret.
  - eapply computes_ext.
    + apply (computes_bind _ _ (body x acc) (for_each t body)
               (fun d => g x acc d) (fun d => d)
               (fun a d => fold_left (fun a x => g x a d) t a)
               (fun _ d => d)
               (Hb x acc)).
      intros a. exact (IH a Hb).
    + reflexivity.
    + reflexivity.
Qed.

(** A loop whose body only writes. *)
Lemma computes_for_each_writes : forall A (body : A -> unit -> M unit) w l,
  (forall x, computes (body x tt) (fun _ => tt) (w x)) ->
  computes (for_each l body tt)
           (fun _ => tt) (fun d => fold_left (fun d x => w x d) l d).
Proof.
  intros A body w l Hb. induction l as [|x t IH]; simpl.
  - apply computes_ret.
  - eapply computes_ext.
    + apply (computes_bind _ _ (body x tt) (for_each t body)
               (fun _ => tt) (w x) (fun _ _ => tt)
               (fun _ d => fold_left (fun d x => w x d) t d)
               (Hb x)).
      intros []. exact IH.
    + reflexivity.
    + reflexivity.
Qed.

Lemma commits_commit_ret : forall A (a : A),
  commits (conn_commit ;;; ret a) (fun _ => a) (fun d => d).
Proof.
  intros A a c r c' [= <- <-]. simpl. split; [|split].
  - intros a' [= <-]. auto.
  - discriminate.
  - intros Hn. eauto.
Qed.

Lemma computes_then_commits : forall A B (m : M A) (k : A -> M B) f u g v,
  computes m f u ->
  (forall a, commits (k a) (g a) (v a)) ->
  commits (bind m k) (fun d => g (f d) (u d)) (fun d => v (f d) (u d)).
Proof.
  intros A B m k f u g v Hm Hk c r c' H. unfold bind in H.
  destruct (m c) as [[a|e] c1] eqn:Hmc.
  - destruct (Hm _ _ _ Hmc) as (Hc1 & Hr1 & Hb1).
    destruct (Hr1 a eq_refl) as [-> Hw1].
    destruct (Hk _ _ _ _ H) as (Hr2 & He2 & Hb2).
    split; [|split].
    + intros b Hb. destruct (Hr2 b Hb) as (-> & Hw2 & Hcm).
      rewrite Hw2, Hcm, Hw1. auto.
    + intros e He. rewrite (He2 e He). assumption.
    + intros Hn. apply Hb2. now apply Hb1.
  - injection H as <- <-. destruct (Hm _ _ _ Hmc) as (Hc1 & Hr1 & Hb1).
    split; [discriminate|]. split; [auto|].
    intros Hn. destruct (Hb1 Hn) as [? [a ?]]. discriminate.
Qed.

Lemma commits_ext : forall A (m : M A) f u f' u',
  commits m f u -> (forall d, f d = f' d) -> (forall d, u d = u' d) ->
  commits m f' u'.
Proof.
  intros A m f u f' u' Hm Hf Hu c r c' H.
  destruct (Hm _ _ _ H) as (Hr & He & Hb). split; [|split; auto].
  intros a Ha. destruct (Hr a Ha) as (-> & Hw & Hc).
  rewrite <- Hu, <- Hf. auto.
Qed.

Lemma atomic_try_rollback : forall A (body : M A) f u,
  commits body f u ->
  atomic (try_except body (fun e => conn_rollback ;;; raise e)) f u.
Proof.
  intros A body f u Hb c r c' H. unfold try_except in H.
  destruct (body c) as [[a|e] c1] eqn:Hbc;
    destruct (Hb _ _ _ Hbc) as (Hr & He & Hn).
  - injection H as <- <-. split; [|split]; auto. discriminate.
  - injection H as <- <-. simpl. split; [discriminate|]. split.
    + intros e' _. rewrite (He e eq_refl). auto.
    + intros Hnone. destruct (Hn Hnone) as [? [a ?]]. discriminate.
Qed.

(** ** The generators as transactions *)

Lemma computes_select_ret : forall A B (q : db -> A) (h : A -> B),
  computes (r <- execute_select q ;; ret (h r)) (fun d => h (q d)) (fun d => d).
Proof.
  intros A B q h.
  apply (computes_bind _ _ (execute_select q) (fun r => ret (h r))
           q (fun d => d) (fun r _ => h r) (fun _ d => d)
           (computes_select _ q)).
  intros a. apply computes_ret.
Qed.

(** The shape shared by the five generators: clear the table, compute the
    rows by reading, insert them one by one, commit. *)
Lemma atomic_regenerate :
  forall Row (clear : db -> db) (compute : M (list Row))
         (insert : Row -> db -> db) (rows : db -> list Row),
    computes compute rows (fun d => d) ->
    atomic
      (try_except
         (execute_update clear ;;;
          computed <- compute ;;
          for_each computed (fun row _ => execute_update (insert row)) tt ;;;
          conn_commit ;;;
          ret computed)
         (fun e => conn_rollback ;;; raise e))
      (fun d => rows (clear d))
      (fun d => fold_left (fun d row => insert row d) (rows (clear d)) (clear d)).
Proof.
  intros Row clear compute insert rows Hc.
  apply atomic_try_rollback.
  apply (computes_then_commits _ _ (execute_update clear) _
           (fun _ => tt) clear
           (fun _ d => rows d)
           (fun _ d => fold_left (fun d row => insert row d) (rows d) d)
           (computes_update clear)).
  intros _.
  apply (computes_then_commits _ _ compute _
           rows (fun d => d)
           (fun computed _ => computed)
           (fun computed d => fold_left (fun d row => insert row d) computed d)
           Hc).
  intros computed.
  apply (computes_then_commits _ _
           (for_each computed (fun row _ => execute_update (insert row)) tt) _
           (fun _ => tt)
           (fun d => fold_left (fun d row => insert row d) computed d)
           (fun _ _ => computed) (fun _ d => d)).
  - apply computes_for_each_writes. intros x. apply computes_update.
  - intros _. apply commits_commit_ret.
Qed.

Lemma atomic_ext : forall A (m m' : M A) f u f' u',
  atomic m f u -> (forall c, m c = m' c) ->
  (forall d, f d = f' d) -> (forall d, u d = u' d) ->
  atomic m' f' u'.
Proof.
  intros A m m' f u f' u' Hm Hmm Hf Hu c r c' H. rewrite <- Hmm in H.
  destruct (Hm _ _ _ H) as (Hr & He & Hb). split; [|split; assumption].
  intros a Ha. destruct (Hr a Ha) as (-> & -> & ->). rewrite Hf, Hu. auto.
Qed.

Lemma insert_all_age_risk_profiles : forall rows d,
  fold_left (fun d row => set_age_risk_profiles (age_risk_profiles d ++ [row]) d)
            rows d
  = set_age_risk_profiles (age_risk_profiles d ++ rows) d.
Proof.
  induction rows as [|x t IH]; intros d; simpl.
  - rewrite app_nil_r. now destruct d.
  - rewrite IH. unfold set_age_risk_profiles. simpl.
    now rewrite <- app_assoc.
Qed.

Lemma insert_all_issue_treatment_effects : forall rows d,
  fold_left (fun d row =>
               set_issue_treatment_effects (issue_treatment_effects d ++ [row]) d)
            rows d
  = set_issue_treatment_effects (issue_treatment_effects d ++ rows) d.
Proof.
  induction rows as [|x t IH]; intros d; simpl.
  - rewrite app_nil_r. now destruct d.
  - rewrite IH. unfold set_issue_treatment_effects. simpl.
    now rewrite <- app_assoc.
Qed.

Lemma insert_all_age_timing_benefits : forall rows d,
  fold_left (fun d row =>
               set_age_timing_benefits (age_timing_benefits d ++ [row]) d)
            rows d
  = set_age_timing_benefits (age_timing_benefits d ++ rows) d.
Proof.
  induction rows as [|x t IH]; intros d; simpl.
  - rewrite app_nil_r. now destruct d.
  - rewrite IH. unfold set_age_timing_benefits. simpl.
    now rewrite <- app_assoc.
Qed.

Lemma insert_all_future_scenarios : forall rows d,
  fold_left (fun d row => set_future_scenarios (future_scenarios d ++ [row]) d)
            rows d
  = set_future_scenarios (future_scenarios d ++ rows) d.
Proof.
  induction rows as [|x t IH]; intros d; simpl.
  - rewrite app_nil_r. now destruct d.
  - rewrite IH. unfold set_future_scenarios. simpl.
    now rewrite <- app_assoc.
Qed.

Lemma insert_all_economic_impacts : forall rows d,
  fold_left (fun d row => set_economic_impacts (economic_impacts d ++ [row]) d)
            rows d
  = set_economic_impacts (economic_impacts d ++ rows) d.
Proof.
  induction rows as [|x t IH]; intros d; simpl.
  - rewrite app_nil_r. now destruct d.
  - rewrite IH. unfold set_economic_impacts. simpl.
    now rewrite <- app_assoc.
Qed.

Section Generators.
Context {T : FloatText}.

Lemma generate_age_risk_profiles_atomic :
  atomic generate_age_risk_profiles age_risk_rows
         (fun d => set_age_risk_profiles (age_risk_rows d) d).
Proof.
  eapply atomic_ext.
  - unfold generate_age_risk_profiles.
    apply (atomic_regenerate _ (set_age_risk_profiles [])
             (for_each age_thresholds
                (fun threshold profiles =>
                   findings <- execute_select (select_risk_findings threshold) ;;
                   ret (profiles
                        ++ profiles_for_threshold threshold findings)%list) [])
             (fun row d => set_age_risk_profiles (age_risk_profiles d ++ [row]) d)
             age_risk_rows).
    unfold age_risk_rows.
    apply (computes_for_each_reads _ _ _
             (fun threshold profiles d =>
                (profiles ++ profiles_for_threshold threshold
                               (select_risk_findings threshold d))%list)).
    intros x a. apply (computes_select_ret _ _ (select_risk_findings x)
                         (fun findings => (a ++ profiles_for_threshold x findings)%list)).
  - reflexivity.
  - reflexivity.
  - intros d. cbv beta. rewrite insert_all_age_risk_profiles. reflexivity.
Qed.

Lemma generate_issue_treatment_effects_atomic :
  atomic generate_issue_treatment_effects treatment_effect_rows
         (fun d => set_issue_treatment_effects (treatment_effect_rows d) d).
Proof.
  eapply atomic_ext.
  - apply (atomic_regenerate _ (set_issue_treatment_effects [])
             (issues <- execute_select select_issues ;;
              for_each issues
                (fun '(issue_id, issue_name) effects =>
                   findings <- execute_select (select_issue_findings issue_id) ;;
                   ret (effects
                        ++ effects_for_issue issue_id issue_name findings)%list)
                [])
             (fun row d =>
                set_issue_treatment_effects (issue_treatment_effects d ++ [row]) d)
             treatment_effect_rows).
    unfold treatment_effect_rows.
    apply (computes_bind _ _ (execute_select select_issues) _
             select_issues (fun d => d)
             (fun issues d =>
                fold_left (fun effects issue =>
                    (effects
                     ++ effects_for_issue (fst issue) (snd issue)
                          (select_issue_findings (fst issue) d))%list)
                  issues [])
             (fun _ d => d)
             (computes_select _ select_issues)).
    intros issues.
    apply (computes_for_each_reads _ _ _
             (fun issue effects d =>
                (effects ++ effects_for_issue (fst issue) (snd issue)
                              (select_issue_findings (fst issue) d))%list)).
    intros [issue_id issue_name] a.
    apply (computes_select_ret _ _ (select_issue_findings issue_id)
             (fun findings =>
                (a ++ effects_for_issue issue_id issue_name findings)%list)).
  - intros c. unfold generate_issue_treatment_effects, try_except, bind.
    destruct (execute_update (set_issue_treatment_effects []) c) as [[[]|e] c1];
      [|reflexivity].
    destruct (execute_select select_issues c1) as [[issues|e] c2];
      [|reflexivity].
    reflexivity.
  - reflexivity.
  - intros d. cbv beta. rewrite insert_all_issue_treatment_effects. reflexivity.
Qed.
End Generators.

Lemma generate_age_timing_benefits_atomic :
  atomic generate_age_timing_benefits timing_benefit_rows
         (fun d => set_age_timing_benefits (timing_benefit_rows d) d).
Proof.
  eapply atomic_ext.
  - apply (atomic_regenerate _ (set_age_timing_benefits [])
             (for_each timing_age_groups
                (fun group timing_benefits =>
                   let '(_, _, age_min, age_max) := group in
                   evidence_count <-
                     execute_select (count_overlapping age_min age_max) ;;
                   ret (timing_benefits
                        ++ [timing_benefit_for group evidence_count])%list)
                [])
             (fun row d => set_age_timing_benefits (age_timing_benefits d ++ [row]) d)
             timing_benefit_rows).
    unfold timing_benefit_rows.
    apply (computes_for_each_reads _ _ _
             (fun group tbs d =>
                (tbs ++ [timing_benefit_for group
                           (count_overlapping (snd (fst group)) (snd group) d)])%list)).
    intros [[[code name] age_min] age_max] a.
    apply (computes_select_ret _ _ (count_overlapping age_min age_max)
             (fun n => (a ++ [timing_benefit_for (code, name, age_min, age_max) n])%list)).
  - reflexivity.
  - reflexivity.
  - intros d. cbv beta. rewrite insert_all_age_timing_benefits. reflexivity.
Qed.

Lemma generate_future_scenarios_atomic :
  atomic generate_future_scenarios (fun _ => build_scenarios)
         (fun d => set_future_scenarios build_scenarios d).
Proof.
  eapply atomic_ext.
  - apply (atomic_regenerate _ (set_future_scenarios [])
             (ret build_scenarios)
             (fun row d => set_future_scenarios (future_scenarios d ++ [row]) d)
             (fun _ => build_scenarios)).
    apply computes_ret.
  - intros c. unfold generate_future_scenarios, try_except, bind.
    destruct (execute_update (set_future_scenarios []) c) as [[[]|e] c1];
      reflexivity.
  - reflexivity.
  - intros d. cbv beta. rewrite insert_all_future_scenarios. reflexivity.
Qed.

Lemma generate_economic_impacts_atomic :
  atomic generate_economic_impacts (fun _ => economic_impact_rows)
         (fun d => set_economic_impacts economic_impact_rows d).
Proof.
  eapply atomic_ext.
  - apply (atomic_regenerate _ (set_economic_impacts [])
             (ret economic_impact_rows)
             (fun row d => set_economic_impacts (economic_impacts d ++ [row]) d)
             (fun _ => economic_impact_rows)).
    apply computes_ret.
  - intros c. unfold generate_economic_impacts, try_except, bind.
    destruct (execute_update (set_economic_impacts []) c) as [[[]|e] c1];
      reflexivity.
  - reflexivity.
  - intros d. cbv beta. rewrite insert_all_economic_impacts. reflexivity.
Qed.

Section RegenerateAll.
Context {T : FloatText}.

Lemma generate_all_outcomes : forall c r c',
  generate_all_evidence_data c = (r, c') ->
  committed c = working c ->
  working c' = committed c'
  /\ (forall s, r = Returned s -> committed c' = regenerated 5 (committed c))
  /\ (forall e, r = Raised e ->
        exists k, (k < 5)%nat /\ committed c' = regenerated k (committed c))
  /\ (budget c = None -> exists s, r = Returned s).
Proof.
  intros c r c' H Hclean.
  unfold generate_all_evidence_data, try_except, bind in H.
  destruct (generate_age_risk_profiles c) as [[r1|e1] c1] eqn:H1;
    destruct (generate_age_risk_profiles_atomic _ _ _ H1) as (R1 & E1 & B1).
  2:{ injection H as <- <-. simpl. destruct (E1 e1 eq_refl) as [Hw Hc].
      split; [reflexivity|]. split; [discriminate|]. split.
      - intros e _. exists 0%nat. split; [lia|]. exact Hc.
      - intros Hn. destruct (B1 Hn) as [_ [a Ha]]. discriminate. }
  destruct (R1 r1 eq_refl) as (_ & Hw1 & Hc1).
  destruct (generate_issue_treatment_effects c1) as [[r2|e2] c2] eqn:H2;
    destruct (generate_issue_treatment_effects_atomic _ _ _ H2) as (R2 & E2 & B2).
  2:{ injection H as <- <-. simpl. destruct (E2 e2 eq_refl) as [Hw Hc].
      split; [reflexivity|]. split; [discriminate|]. split.
      - intros e _. exists 1%nat. split; [lia|].
        rewrite Hc, Hc1, Hclean. reflexivity.
      - intros Hn. destruct (B1 Hn) as [Hn1 _].
        destruct (B2 Hn1) as [_ [a Ha]]. discriminate. }
  destruct (R2 r2 eq_refl) as (_ & Hw2 & Hc2).
  destruct (generate_age_timing_benefits c2) as [[r3|e3] c3] eqn:H3;
    destruct (generate_age_timing_benefits_atomic _ _ _ H3) as (R3 & E3 & B3).
  2:{ injection H as <- <-. simpl. destruct (E3 e3 eq_refl) as [Hw Hc].
      split; [reflexivity|]. split; [discriminate|]. split.
      - intros e _. exists 2%nat. split; [lia|].
        rewrite Hc, Hc2, Hw1, Hclean. reflexivity.
      - intros Hn. destruct (B1 Hn) as [Hn1 _]. destruct (B2 Hn1) as [Hn2 _].
        destruct (B3 Hn2) as [_ [a Ha]]. discriminate. }
  destruct (R3 r3 eq_refl) as (_ & Hw3 & Hc3).
  destruct (generate_future_scenarios c3) as [[r4|e4] c4] eqn:H4;
    destruct (generate_future_scenarios_atomic _ _ _ H4) as (R4 & E4 & B4).
  2:{ injection H as <- <-. simpl. destruct (E4 e4 eq_refl) as [Hw Hc].
      split; [reflexivity|]. split; [discriminate|]. split.
      - intros e _. exists 3%nat. split; [lia|].
        rewrite Hc, Hc3, Hw2, Hw1, Hclean. reflexivity.
      - intros Hn. destruct (B1 Hn) as [Hn1 _]. destruct (B2 Hn1) as [Hn2 _].
        destruct (B3 Hn2) as [Hn3 _].
        destruct (B4 Hn3) as [_ [a Ha]]. discriminate. }
  destruct (R4 r4 eq_refl) as (_ & Hw4 & Hc4).
  destruct (generate_economic_impacts c4) as [[r5|e5] c5] eqn:H5;
    destruct (generate_economic_impacts_atomic _ _ _ H5) as (R5 & E5 & B5).
  2:{ injection H as <- <-. simpl. destruct (E5 e5 eq_refl) as [Hw Hc].
      split; [reflexivity|]. split; [discriminate|]. split.
      - intros e _. exists 4%nat. split; [lia|].
        rewrite Hc, Hc4, Hw3, Hw2, Hw1, Hclean. reflexivity.
      - intros Hn. destruct (B1 Hn) as [Hn1 _]. destruct (B2 Hn1) as [Hn2 _].
        destruct (B3 Hn2) as [Hn3 _]. destruct (B4 Hn3) as [Hn4 _].
        destruct (B5 Hn4) as [_ [a Ha]]. discriminate. }
  destruct (R5 r5 eq_refl) as (_ & Hw5 & Hc5).
  injection H as <- <-. simpl.
  split; [reflexivity|]. split; [|split; [discriminate | eauto]].
  intros s _. rewrite Hw5, Hw4, Hw3, Hw2, Hw1, Hclean. reflexivity.
Qed.
End RegenerateAll.

(** ** The claims *)

(** ** Numbers *)

Lemma Qltb_true : forall a b, Qltb a b = true <-> a < b.
Proof.
  intros a b. unfold Qltb. rewrite negb_true_iff.
  split; intros H.
  - apply Qnot_le_lt. intros Hle. apply Qle_bool_iff in Hle. congruence.
  - destruct (Qle_bool b a) eqn:E; [|reflexivity].
    apply Qle_bool_iff in E. exfalso. apply (Qlt_not_le _ _ H E).
Qed.

Lemma Qltb_false : forall a b, Qltb a b = false <-> b <= a.
Proof.
  intros a b. unfold Qltb. rewrite negb_false_iff. apply Qle_bool_iff.
Qed.

Lemma Qtruthy_true : forall x, Qtruthy x = true <-> ~ x == 0.
Proof.
  intros x. unfold Qtruthy. rewrite negb_true_iff. split; intros H.
  - intros E. apply Qeq_bool_iff in E. congruence.
  - destruct (Qeq_bool x 0) eqn:E; [|reflexivity].
    apply Qeq_bool_iff in E. contradiction.
Qed.

Lemma py_min_le_r : forall a b, py_min a b <= b.
Proof.
  intros a b. unfold py_min. destruct (Qltb b a) eqn:E.
  - apply Qle_refl.
  - now apply Qltb_false in E.
Qed.

Lemma py_min_le_l : forall a b, py_min a b <= a.
Proof.
  intros a b. unfold py_min. destruct (Qltb b a) eqn:E.
  - apply Qltb_true in E. now apply Qlt_le_weak.
  - apply Qle_refl.
Qed.

Lemma py_min_pos : forall a b, 0 < a -> 0 < b -> 0 < py_min a b.
Proof. intros a b Ha Hb. unfold py_min. now destruct (Qltb b a). Qed.

Lemma py_max_ge_l : forall a b, a <= py_max a b.
Proof.
  intros a b. unfold py_max. destruct (Qltb a b) eqn:E.
  - apply Qltb_true in E. now apply Qlt_le_weak.
  - apply Qle_refl.
Qed.

Lemma weight_pos : forall l, 0 < _get_evidence_level_weight l.
Proof.
  intros [l|]; unfold _get_evidence_level_weight;
    repeat match goal with |- context [String.eqb ?a ?b] =>
             destruct (String.eqb a b) end; reflexivity.
Qed.

Lemma weight_1a : _get_evidence_level_weight (Some "1a") = 5.
Proof. reflexivity. Qed.

Lemma weight_5 : _get_evidence_level_weight (Some "5") = 1 # 2.
Proof. reflexivity. Qed.

(** ** The risk accumulation *)

Section RiskAccumulation.
Context {T : FloatText}.

Lemma risk_step_skip : forall acc finding,
  contributing finding = None -> risk_step acc finding = acc.
Proof.
  intros [[tw wr] ids] finding H. unfold risk_step, contributing in *.
  destruct (rr_effect_value finding) as [v|]; [|reflexivity].
  destruct (Qtruthy v); [discriminate | reflexivity].
Qed.

Lemma risk_step_take : forall tw wr ids finding v,
  contributing finding = Some v ->
  risk_step (tw, wr, ids) finding
  = (tw + _get_evidence_level_weight (rr_evidence_level finding),
     wr + v * _get_evidence_level_weight (rr_evidence_level finding),
     (ids ++ [float_str v])%list).
Proof.
  intros tw wr ids finding v H. unfold risk_step, contributing in *.
  destruct (rr_effect_value finding) as [v'|]; [|discriminate].
  destruct (Qtruthy v'); [|discriminate]. now injection H as ->.
Qed.

(** Bounds kept by the loop: the weight is not negative, and the
    weighted sum stays between [lo] and [hi] times the weight. *)
Lemma accumulate_bounds : forall lo hi findings acc,
  (forall f v, In f findings -> contributing f = Some v -> lo <= v <= hi) ->
  0 <= total_weight_of acc ->
  lo * total_weight_of acc <= weighted_risk_of acc <= hi * total_weight_of acc ->
  let acc' := fold_left risk_step findings acc in
  0 <= total_weight_of acc'
  /\ lo * total_weight_of acc' <= weighted_risk_of acc'
     <= hi * total_weight_of acc'.
Proof.
  intros lo hi findings. induction findings as [|f t IH]; intros acc Hv H0 Hb.
  - simpl. auto.
  - simpl. apply IH.
    + intros f' v Hin. apply Hv. now right.
    + destruct (contributing f) as [v|] eqn:E.
      * destruct acc as [[tw wr] ids]. rewrite (risk_step_take _ _ _ _ _ E).
        unfold total_weight_of in *. simpl in *.
        pose proof (weight_pos (rr_evidence_level f)). lra.
      * now rewrite (risk_step_skip _ _ E).
    + destruct (contributing f) as [v|] eqn:E.
      * destruct acc as [[tw wr] ids]. rewrite (risk_step_take _ _ _ _ _ E).
        unfold total_weight_of, weighted_risk_of in *. simpl in *.
        pose proof (weight_pos (rr_evidence_level f)) as Hw.
        destruct (Hv f v (or_introl eq_refl) E) as [Hlo Hhi].
        assert (lo * _get_evidence_level_weight (rr_evidence_level f)
                <= v * _get_evidence_level_weight (rr_evidence_level f))
          by (apply Qmult_le_compat_r; [assumption | now apply Qlt_le_weak]).
        assert (v * _get_evidence_level_weight (rr_evidence_level f)
                <= hi * _get_evidence_level_weight (rr_evidence_level f))
          by (apply Qmult_le_compat_r; [assumption | now apply Qlt_le_weak]).
        lra.
      * now rewrite (risk_step_skip _ _ E).
Qed.

(** A profile is appended exactly when the SELECT returned a row. *)
Lemma profiles_for_threshold_row : forall threshold findings,
  findings <> [] ->
  exists row,
    profiles_for_threshold threshold findings = [row]
    /\ arp_age_threshold row = threshold
    /\ 0 < arp_confidence_level row <= 95 # 100
    /\ ((0 < total_weight_of (accumulate_risk findings)
         /\ arp_risk_value row
            = weighted_risk_of (accumulate_risk findings)
              / total_weight_of (accumulate_risk findings))
        \/ (total_weight_of (accumulate_risk findings) <= 0
            /\ arp_risk_value row = inject_Z threshold / 2
            /\ arp_calculated_from row = "default"
            /\ arp_confidence_level row = 1 # 2)).
Proof.
  intros threshold findings Hne.
  destruct findings as [|f t]; [congruence|].
  unfold profiles_for_threshold.
  destruct (accumulate_risk (f :: t)) as [[tw wr] ids] eqn:E.
  unfold total_weight_of, weighted_risk_of. simpl fst. simpl snd.
  destruct (Qltb 0 tw) eqn:Hp.
  - apply Qltb_true in Hp. eexists. split; [reflexivity|]. simpl.
    split; [reflexivity|]. split; [|left; auto].
    split; [|apply py_min_le_r].
    apply py_min_pos; [|reflexivity].
    apply Qlt_shift_div_l; [reflexivity | lra].
  - apply Qltb_false in Hp. eexists. split; [reflexivity|]. simpl.
    split; [reflexivity|]. split; [split; [reflexivity | discriminate]|].
    right. auto.
Qed.

Lemma profiles_for_threshold_keys : forall threshold findings row,
  In row (profiles_for_threshold threshold findings) ->
  arp_age_threshold row = threshold.
Proof.
  intros threshold findings row H.
  destruct findings as [|f t]; [contradiction|].
  destruct (profiles_for_threshold_row threshold (f :: t)) as (r & E & K & _);
    [discriminate|].
  rewrite E in H. destruct H as [<- | []]. exact K.
Qed.

Lemma age_risk_rows_flat_map : forall d,
  age_risk_rows d
  = flat_map (fun threshold =>
                profiles_for_threshold threshold
                  (select_risk_findings threshold d)) age_thresholds.
Proof.
  intros d. unfold age_risk_rows.
  assert (G : forall l acc,
    fold_left (fun profiles threshold =>
                 (profiles ++ profiles_for_threshold threshold
                                (select_risk_findings threshold d))%list)
              l acc
    = (acc ++ flat_map (fun threshold =>
                          profiles_for_threshold threshold
                            (select_risk_findings threshold d)) l)%list).
  { induction l as [|x t IH]; intros acc; simpl.
    - now rewrite app_nil_r.
    - rewrite IH. now rewrite app_assoc. }
  apply G.
Qed.

Lemma filter_keyed_flat_map : forall (F : Z -> list age_risk_profile) l t,
  (forall k row, In row (F k) -> arp_age_threshold row = k) ->
  NoDup l -> In t l ->
  filter (fun r => Z.eqb (arp_age_threshold r) t) (flat_map F l) = F t.
Proof.
  intros F l t HF.
  assert (Hsame : forall k, k = t ->
            filter (fun r => Z.eqb (arp_age_threshold r) t) (F k) = F k).
  { intros k ->. apply forallb_filter_id. apply forallb_forall.
    intros r Hr. apply Z.eqb_eq. now apply HF. }
  assert (Hdiff : forall k, k <> t ->
            filter (fun r => Z.eqb (arp_age_threshold r) t) (F k) = []).
  { intros k Hk. destruct (filter _ (F k)) as [|r rs] eqn:E; [reflexivity|].
    assert (Hin : In r (filter (fun r => Z.eqb (arp_age_threshold r) t) (F k)))
      by (rewrite E; now left).
    apply filter_In in Hin as [Hin Heq]. apply Z.eqb_eq in Heq.
    apply HF in Hin. congruence. }
  induction l as [|x xs IH]; intros Hnd Hin; [contradiction|].
  simpl. rewrite filter_app. inversion Hnd as [|? ? Hx Hxs]; subst.
  destruct Hin as [-> | Hin].
  - rewrite (Hsame t eq_refl).
    assert (E : filter (fun r => Z.eqb (arp_age_threshold r) t)
                       (flat_map F xs) = []).
    { clear IH Hnd Hxs. induction xs as [|y ys IHy]; [reflexivity|].
      simpl. rewrite filter_app, Hdiff, IHy; [reflexivity| |].
      - intros H. apply Hx. now right.
      - intros ->. apply Hx. now left. }
    rewrite E. apply app_nil_r.
  - rewrite Hdiff; [now apply IH|]. intros ->. contradiction.
Qed.

Lemma age_thresholds_NoDup : NoDup age_thresholds.
Proof.
  unfold age_thresholds.
  repeat (constructor; [simpl; intuition discriminate|]). constructor.
Qed.
End RiskAccumulation.

Lemma bounded_profile_counterexample :
  ~ every_threshold_has_bounded_profile (T := decimal_text)
      (fresh_connection multiplier_db None).
Proof.
  intros H.
  destruct (generate_age_risk_profiles (T := decimal_text)
              (fresh_connection multiplier_db None)) as [r c'] eqn:E.
  pose proof E as E'. vm_compute in E'. injection E' as Hr Hc.
  destruct r as [rows|e]; [|discriminate Hr].
  destruct (H rows c' E 12%Z) as (row & Hin & Hk & [_ Hhi] & _).
  - now left.
  - rewrite <- Hc in Hin. cbn [working age_risk_profiles] in Hin.
    destruct Hin as [<- | [<- | [<- | [<- | [<- | []]]]]];
      cbn [arp_age_threshold] in Hk; try discriminate.
    apply Hhi. reflexivity.
Qed.

Lemma execute_select_answers : forall A (q : db -> A) c,
  budget c = None -> execute_select q c = (Returned (q (working c)), c).
Proof.
  intros A q [cm wk b] Hb. simpl in Hb. subst b. reflexivity.
Qed.

Lemma py_min_comp : forall a b b', b == b' -> py_min a b == py_min a b'.
Proof.
  intros a b b' H. unfold py_min, Qltb. rewrite (Qleb_comp a a (Qeq_refl a) b b' H).
  destruct (Qle_bool a b'); [reflexivity | exact H].
Qed.

Lemma py_max_comp : forall a b b', b == b' -> py_max a b == py_max a b'.
Proof.
  intros a b b' H. unfold py_max, Qltb. rewrite (Qleb_comp b b' H a a (Qeq_refl a)).
  destruct (Qle_bool b' a); [reflexivity | exact H].
Qed.

Lemma clamp_total_comp : forall x y, x == y -> clamp_total x == clamp_total y.
Proof.
  intros x y H. unfold clamp_total. apply py_max_comp. now apply py_min_comp.
Qed.

Lemma py_round_comp : forall x y, x == y -> py_round x = py_round y.
Proof.
  intros x y H. unfold py_round. rewrite (Qfloor_comp x y H).
  assert (E : x - inject_Z (Qfloor y) == y - inject_Z (Qfloor y))
    by (rewrite H; reflexivity).
  rewrite (Qcompare_comp _ _ E (1 # 2) (1 # 2) (Qeq_refl _)). reflexivity.
Qed.

Lemma clamp_total_bounds : forall x, 10 <= clamp_total x <= 100.
Proof.
  intros x. unfold clamp_total. split; [apply py_max_ge_l|].
  unfold py_max. destruct (Qltb 10 (py_min 100 x)).
  - apply py_min_le_l.
  - discriminate.
Qed.

(** The scorer never raises: what it catches it replaces by the fixed
    result. *)
Lemma calculate_ortho_necessity_score_returns : forall age issue_ids c,
  exists res c',
    calculate_ortho_necessity_score age issue_ids c = (Returned res, c').
Proof.
  intros age issue_ids c. unfold calculate_ortho_necessity_score, try_except.
  match goal with |- context [match ?b c with _ => _ end] =>
    destruct (b c) as [[a|e] c1] end.
  - eauto.
  - unfold ret. eauto.
Qed.

Lemma total_is_specified_total_counterexample :
  ~ total_is_specified_total
      (fresh_connection (regenerated (T := decimal_text) 5 percent_db) None)
      10 [1%Z].
Proof.
  intros H.
  destruct (calculate_ortho_necessity_score 10 [1%Z]
              (fresh_connection (regenerated (T := decimal_text) 5 percent_db) None))
    as [r c'] eqn:E.
  vm_compute in E. injection E as <- <-.
  specialize (H _ _ eq_refl). vm_compute in H. discriminate.
Qed.

(** C8.  With an empty list of issues the scorer returns, without touching
    the store, the result with total 0, sub-scores 0 and the text that no
    issue was selected; and for any input the scorer returns and does not
    raise. *)
Theorem no_issue_score_returned : forall age c,
  exists res,
    calculate_ortho_necessity_score age [] c = (Returned res, c)
    /\ total_score res = 0%Z
    /\ timing_score res = 0%Z
    /\ severity_score res = 0%Z
    /\ risk_score res = 0%Z
    /\ interpretation res
       = "問題が選択されていないため、スコアを計算できません。"
    /\ forall issue_ids c0, exists res0 c1,
         calculate_ortho_necessity_score age issue_ids c0 = (Returned res0, c1).
Proof.
  intros age c. exists no_issue_score. repeat split.
  intros issue_ids c0. apply calculate_ortho_necessity_score_returns.
Qed.

Lemma effect_step_skip : forall acc finding,
  effect_contributes finding = false -> effect_step acc finding = acc.
Proof.
  intros [[[tw we] ids] [[ni nd] nn]] finding H.
  unfold effect_step, effect_contributes in *.
  destruct (er_effect_value finding) as [v|]; [|reflexivity].
  now rewrite H.
Qed.

Lemma effect_step_ids : forall acc finding,
  snd (fst (effect_step acc finding))
  = (snd (fst acc)
     ++ (if effect_contributes finding
         then [str_of_Z (er_paper_id finding)] else []))%list.
Proof.
  intros [[[tw we] ids] [[ni nd] nn]] finding.
  unfold effect_step, effect_contributes.
  destruct (er_effect_value finding) as [v|]; simpl;
    [destruct (Qtruthy v); simpl|]; now rewrite ?app_nil_r.
Qed.

Lemma fold_effect_step_ids : forall l acc,
  snd (fst (fold_left effect_step l acc))
  = (snd (fst acc)
     ++ map str_of_Z (map er_paper_id (filter effect_contributes l)))%list.
Proof.
  induction l as [|f t IH]; intros acc; simpl.
  - now rewrite app_nil_r.
  - rewrite IH, effect_step_ids.
    destruct (effect_contributes f); simpl.
    + now rewrite <- app_assoc.
    + now rewrite app_nil_r.
Qed.

Lemma fold_effect_step_idle : forall l acc,
  filter effect_contributes l = [] -> fold_left effect_step l acc = acc.
Proof.
  induction l as [|f t IH]; intros acc H; simpl in *; [reflexivity|].
  destruct (effect_contributes f) eqn:E; [discriminate|].
  rewrite (effect_step_skip _ _ E). now apply IH.
Qed.

Section EffectProvenance.
Context {T : FloatText}.

Lemma effects_for_category_provenance :
  forall issue_id issue_name category category_findings row,
    In row (effects_for_category issue_id issue_name category
              category_findings) ->
    ite_issue_id row = issue_id
    /\ filter effect_contributes category_findings <> []
    /\ ite_calculated_from row
       = join "," (map str_of_Z
                     (map er_paper_id
                          (filter effect_contributes category_findings))).
Proof.
  intros issue_id issue_name category cfs row H.
  unfold effects_for_category in H.
  pose proof (fold_effect_step_ids cfs (0, 0, [], (O, O, O))) as Hids.
  fold (accumulate_effect cfs) in Hids.
  destruct (filter effect_contributes cfs) as [|x xs] eqn:Ef.
  - unfold accumulate_effect in H.
    rewrite (fold_effect_step_idle _ _ Ef) in H. simpl in H. contradiction.
  - destruct (accumulate_effect cfs) as [[[tw we] ids] [[ni nd] nn]].
    simpl in Hids. subst ids.
    destruct (Qltb 0 tw); [|contradiction].
    destruct H as [<- | []]. simpl. repeat split. discriminate.
Qed.

Lemma default_effects_provenance : forall issue_id issue_name row,
  In row (_generate_default_effects issue_id issue_name) ->
  ite_calculated_from row = "default".
Proof.
  intros issue_id issue_name row H. unfold _generate_default_effects in H.
  apply in_map_iff in H as ([[category value] dir] & <- & _). reflexivity.
Qed.
End EffectProvenance.

Lemma add_to_category_members : forall c finding categories k l,
  In (k, l) (add_to_category c finding categories) ->
  forall f, In f l ->
    f = finding \/ exists l0, In (k, l0) categories /\ In f l0.
Proof.
  intros c finding categories. induction categories as [|[c' l'] rest IH];
    intros k l H f Hf; simpl in H.
  - destruct H as [[= <- <-] | []]. destruct Hf as [<- | []]. now left.
  - destruct (String.eqb c' c).
    + destruct H as [[= <- <-] | H].
      * apply in_app_or in Hf as [Hf | [<- | []]]; [right | now left].
        exists l'. split; [now left | assumption].
      * right. exists l. split; [now right | assumption].
    + destruct H as [[= <- <-] | H].
      * right. exists l'. split; [now left | assumption].
      * destruct (IH _ _ H f Hf) as [-> | (l0 & Hin & Hf0)]; [now left|].
        right. exists l0. split; [now right | assumption].
Qed.

Lemma categorize_members : forall findings categories k l,
  In (k, l) (fold_left categorize_step findings categories) ->
  forall f, In f l ->
    In f findings \/ exists l0, In (k, l0) categories /\ In f l0.
Proof.
  induction findings as [|x t IH]; intros categories k l H f Hf; simpl in H.
  - right. exists l. auto.
  - destruct (IH _ _ _ H f Hf) as [Hin | (l0 & Hin & Hf0)].
    + left. now right.
    + unfold categorize_step in Hin.
      destruct (add_to_category_members _ _ _ _ _ Hin f Hf0)
        as [-> | (l1 & Hin1 & Hf1)].
      * left. now left.
      * right. exists l1. auto.
Qed.

Lemma select_issue_findings_origin : forall issue_id d er,
  In er (select_issue_findings issue_id d) ->
  exists rf rp,
    In rf (research_findings d) /\ In rp (research_papers d)
    /\ rf_paper_id rf = rp_paper_id rp
    /\ rf_issue_id rf = Some issue_id
    /\ er_paper_id er = rp_paper_id rp
    /\ er_effect_value er = rf_effect_value rf.
Proof.
  intros issue_id d er H. unfold select_issue_findings in H.
  apply in_flat_map in H as (rf & Hrf & H).
  apply in_flat_map in H as (rp & Hrp & H).
  destruct (Z.eqb_spec (rf_paper_id rf) (rp_paper_id rp)) as [E|]; simpl in H;
    [|contradiction].
  destruct (rf_issue_id rf) as [i|] eqn:Ei; simpl in H; [|contradiction].
  destruct (Z.eqb_spec i issue_id) as [->|]; [|contradiction].
  destruct H as [<- | []]. exists rf, rp. simpl. repeat split; auto.
Qed.

Lemma fold_app_flat_map : forall A B (F : A -> list B) l acc,
  fold_left (fun acc x => (acc ++ F x)%list) l acc
  = (acc ++ flat_map F l)%list.
Proof.
  intros A B F. induction l as [|x t IH]; intros acc; simpl.
  - now rewrite app_nil_r.
  - rewrite IH. now rewrite app_assoc.
Qed.

Section C3.
Context {T : FloatText}.

Lemma treatment_effect_rows_provenance : forall d row,
  In row (treatment_effect_rows d) ->
  ite_calculated_from row = "default"
  \/ exists ids,
       ids <> []
       /\ ite_calculated_from row = join "," (map str_of_Z ids)
       /\ forall id, In id ids ->
            exists rp rf v,
              In rp (research_papers d) /\ rp_paper_id rp = id
              /\ In rf (research_findings d) /\ rf_paper_id rf = id
              /\ rf_issue_id rf = Some (ite_issue_id row)
              /\ rf_effect_value rf = Some v /\ ~ v == 0.
Proof.
  intros d row H. unfold treatment_effect_rows in H.
  rewrite (fold_app_flat_map _ _
             (fun issue => effects_for_issue (fst issue) (snd issue)
                             (select_issue_findings (fst issue) d))) in H.
  simpl in H. apply in_flat_map in H as ([issue_id issue_name] & _ & H).
  simpl in H. unfold effects_for_issue in H.
  destruct (select_issue_findings issue_id d) as [|f0 fs] eqn:Es.
  - left. eapply default_effects_provenance; eauto.
  - right. apply in_flat_map in H as ([category cfs] & Hcat & H).
    destruct (effects_for_category_provenance _ _ _ _ _ H) as (Hid & Hne & Hp).
    exists (map er_paper_id (filter effect_contributes cfs)).
    split; [|split; [exact Hp|]].
    + intros E. apply Hne. now apply map_eq_nil in E.
    + intros id Hin. apply in_map_iff in Hin as (er & <- & Hin).
      apply filter_In in Hin as [Hin Hc].
      unfold _categorize_findings in Hcat.
      destruct (categorize_members _ _ _ _ Hcat er Hin)
        as [Hsel | (l0 & [] & _)].
      rewrite <- Es in Hsel.
      destruct (select_issue_findings_origin _ _ _ Hsel)
        as (rf & rp & Hrf & Hrp & E1 & E2 & E3 & E4).
      unfold effect_contributes in Hc. rewrite E4 in Hc.
      destruct (rf_effect_value rf) as [v|] eqn:Ev; [|discriminate].
      exists rp, rf, v. rewrite Hid.
      repeat split; auto; try congruence. now apply Qtruthy_true.
Qed.
End C3.

Lemma every_row_has_provenance_counterexample :
  ~ every_row_has_provenance (T := decimal_text)
      (fresh_connection empty_db None).
Proof.
  intros H.
  destruct (generate_all_evidence_data (T := decimal_text)
              (fresh_connection empty_db None)) as [r c'] eqn:E.
  pose proof E as E'. vm_compute in E'. injection E' as Hr Hc.
  destruct r as [summary|e]; [|discriminate Hr].
  destruct (H summary c' E) as (_ & _ & Ht & _).
  rewrite <- Hc in Ht. cbn [working age_timing_benefits] in Ht.
  destruct (Ht _ (or_introl eq_refl)) as [Hd | (ids & Hids & Hj)].
  - discriminate Hd.
  - destruct ids as [|id rest].
    + discriminate Hj.
    + destruct (Hids id (or_introl eq_refl)) as (rp & [] & _).
Qed.

(** The list named [paper_ids] of the risk aggregation holds the text of
    the effect values: here the paper is number 7 and the text is that of
    42. *)
Example age_risk_provenance_lists_effect_values :
  map arp_calculated_from (age_risk_rows (T := decimal_text) percent_db)
  = ["42.0"; "42.0"; "42.0"; "42.0"; "42.0"]
  /\ map ite_calculated_from (treatment_effect_rows (T := decimal_text) percent_db)
     = ["7"].
Proof. vm_compute. split; reflexivity. Qed.

(** ** Timing benefits *)

Lemma timing_confidence_zero : timing_confidence 0 = 7 # 10.
Proof. reflexivity. Qed.

Lemma timing_confidence_positive : forall n,
  (0 < n)%Z ->
  timing_confidence n = py_min ((1 # 2) + inject_Z n / 20) (95 # 100).
Proof.
  intros n Hn. unfold timing_confidence.
  destruct (Z.ltb_spec 0 n); [reflexivity | lia].
Qed.

Lemma timing_confidence_bounds : forall n,
  1 # 2 <= timing_confidence n <= 95 # 100.
Proof.
  intros n. unfold timing_confidence. destruct (Z.ltb_spec 0 n) as [Hn|Hn].
  - split; [|apply py_min_le_r].
    unfold py_min. destruct (Qltb (95 # 100) _); [discriminate|].
    assert (0 <= inject_Z n / 20).
    { apply Qle_shift_div_l; [reflexivity|]. rewrite Qmult_0_l.
      unfold Qle. simpl. lia. }
    lra.
  - split; discriminate.
Qed.

Lemma timing_benefit_for_fields : forall group n,
  atb_confidence_level (timing_benefit_for group n) = timing_confidence n
  /\ atb_age_min (timing_benefit_for group n) = snd (fst group)
  /\ atb_age_max (timing_benefit_for group n) = snd group
  /\ atb_age_group_code (timing_benefit_for group n) = fst (fst (fst group)).
Proof.
  intros [[[code name] age_min] age_max] n. unfold timing_benefit_for.
  destruct (timing_triple code) as [[text level] score]. simpl. auto.
Qed.

Lemma flat_map_singleton : forall A B (f : A -> B) l,
  flat_map (fun x => [f x]) l = map f l.
Proof.
  intros A B f. induction l as [|x t IH]; simpl; [reflexivity | now rewrite IH].
Qed.

Lemma timing_benefit_rows_map : forall d,
  timing_benefit_rows d
  = map (fun group =>
           timing_benefit_for group
             (count_overlapping (snd (fst group)) (snd group) d))
        timing_age_groups.
Proof.
  intros d. unfold timing_benefit_rows.
  rewrite (fold_app_flat_map _ _
             (fun group =>
                [timing_benefit_for group
                   (count_overlapping (snd (fst group)) (snd group) d)])).
  rewrite flat_map_singleton. reflexivity.
Qed.

Lemma count_overlapping_nonneg : forall age_min age_max d,
  (0 <= count_overlapping age_min age_max d)%Z.
Proof. intros. unfold count_overlapping. lia. Qed.

(** C7 (amended).  For each of the five age groups the stored confidence is
    min(0.5 + n/20, 0.95) when the number n of findings whose age range
    overlaps the group is positive, and 0.7 when n = 0.  No evidence gives
    a strictly higher confidence than n = 1, 2 or 3, and the same
    confidence as n = 4. *)
Theorem timing_confidence_stored : forall c,
  budget c = None ->
  exists rows c',
    generate_age_timing_benefits c = (Returned rows, c')
    /\ age_timing_benefits (working c') = rows
    /\ map atb_age_group_code rows
       = ["pediatric"; "adolescent"; "young_adult"; "adult"; "elderly"]
    /\ (forall row, In row rows ->
          let n := count_overlapping (atb_age_min row) (atb_age_max row)
                                     (working c) in
          ((0 < n)%Z ->
           atb_confidence_level row
           = py_min ((1 # 2) + inject_Z n / 20) (95 # 100))
          /\ (n = 0%Z -> atb_confidence_level row = 7 # 10))
    /\ (forall n, (1 <= n <= 3)%Z ->
          timing_confidence n < timing_confidence 0)
    /\ timing_confidence 4 == timing_confidence 0.
Proof.
  intros c Hb.
  destruct (generate_age_timing_benefits c) as [r c'] eqn:Hrun.
  destruct (generate_age_timing_benefits_atomic _ _ _ Hrun) as (Hr & _ & Hn).
  destruct (Hn Hb) as [_ [rows ->]].
  destruct (Hr rows eq_refl) as (-> & Hw & _).
  exists (timing_benefit_rows (working c)), c'.
  split; [reflexivity|]. split; [now rewrite Hw|]. split; [reflexivity|].
  split; [|split].
  - intros row Hin. rewrite timing_benefit_rows_map in Hin.
    apply in_map_iff in Hin as (group & <- & _).
    destruct (timing_benefit_for_fields group
                (count_overlapping (snd (fst group)) (snd group) (working c)))
      as (Hc & Hmin & Hmax & _).
    rewrite Hc, Hmin, Hmax. cbv zeta. split.
    + apply timing_confidence_positive.
    + intros ->. reflexivity.
  - intros n Hn3.
    assert (Hcases : n = 1%Z \/ n = 2%Z \/ n = 3%Z) by lia.
    destruct Hcases as [-> | [-> | ->]]; reflexivity.
  - reflexivity.
Qed.

Lemma timing_confidence_stored_witness :
  budget (fresh_connection four_findings_db None) = None
  /\ exists rows c',
       generate_age_timing_benefits (fresh_connection four_findings_db None)
       = (Returned rows, c')
       /\ map atb_age_group_code rows
          = ["pediatric"; "adolescent"; "young_adult"; "adult"; "elderly"].
Proof.
  split; [reflexivity|].
  destruct (timing_confidence_stored (fresh_connection four_findings_db None)
              eq_refl) as (rows & c' & Hrun & _ & Hcodes & _).
  exists rows, c'. split; assumption.
Defined.

Lemma zero_evidence_strictly_higher_counterexample :
  count_overlapping 7 12 four_findings_db = 4%Z
  /\ stored_timing_confidences (fresh_connection four_findings_db None)
     = map (fun _ => timing_confidence 4) timing_age_groups
  /\ stored_timing_confidences (fresh_connection empty_db None)
     = map (fun _ => timing_confidence 0) timing_age_groups
  /\ ~ zero_evidence_strictly_higher.
Proof.
  split; [vm_compute; reflexivity|].
  split; [vm_compute; reflexivity|].
  split; [vm_compute; reflexivity|].
  intros H. specialize (H 4%Z ltac:(lia)). vm_compute in H. discriminate.
Qed.

(** ** Future scenarios *)

(** C9.  The nine scenarios (three timeframes for each of three age
    groups) each have confidence 0.8 - years/50, not clamped; for each age
    group the confidences at 5, 10 and 20 years are 0.7 > 0.6 > 0.4. *)
Theorem scenario_confidence_decays : forall c,
  budget c = None ->
  exists rows c',
    generate_future_scenarios c = (Returned rows, c')
    /\ future_scenarios (working c') = rows
    /\ List.length rows = 9%nat
    /\ (forall row, In row rows ->
          fs_confidence_level row
          = (8 # 10) - inject_Z (fs_timeframe_years row) / 50)
    /\ (forall age_min age_max,
          In (age_min, age_max) scenario_age_groups ->
          exists r5 r10 r20,
            filter (fun r => Z.eqb (fs_applies_to_age_min r) age_min) rows
            = [r5; r10; r20]
            /\ fs_timeframe_years r5 = 5%Z
            /\ fs_timeframe_years r10 = 10%Z
            /\ fs_timeframe_years r20 = 20%Z
            /\ fs_confidence_level r5 == 7 # 10
            /\ fs_confidence_level r10 == 6 # 10
            /\ fs_confidence_level r20 == 4 # 10
            /\ fs_confidence_level r20 < fs_confidence_level r10
            /\ fs_confidence_level r10 < fs_confidence_level r5).
Proof.
  intros c Hb.
  destruct (generate_future_scenarios c) as [r c'] eqn:Hrun.
  destruct (generate_future_scenarios_atomic _ _ _ Hrun) as (Hr & _ & Hn).
  destruct (Hn Hb) as [_ [rows ->]].
  destruct (Hr rows eq_refl) as (-> & Hw & _).
  exists build_scenarios, c'.
  split; [reflexivity|]. split; [now rewrite Hw|]. split; [reflexivity|].
  split.
  - intros row Hin. unfold build_scenarios in Hin.
    apply in_flat_map in Hin as ([[code name] years] & _ & Hin).
    apply in_map_iff in Hin as ([age_min age_max] & <- & _). reflexivity.
  - intros age_min age_max Hin. unfold scenario_age_groups in Hin.
    destruct Hin as [[= <- <-] | [[= <- <-] | [[= <- <-] | []]]];
      (do 3 eexists; split; [vm_compute; reflexivity|];
       repeat split; vm_compute; try reflexivity; discriminate).
Qed.

Lemma scenario_confidence_decays_witness :
  budget (fresh_connection empty_db None) = None
  /\ exists rows c',
       generate_future_scenarios (fresh_connection empty_db None)
       = (Returned rows, c')
       /\ List.length rows = 9%nat.
Proof.
  split; [reflexivity|].
  destruct (scenario_confidence_decays (fresh_connection empty_db None) eq_refl)
    as (rows & c' & Hrun & _ & Hlen & _).
  exists rows, c'. split; assumption.
Defined.

Section WeightedAverage.
Context {T : FloatText}.

Lemma fold_risk_step_sums : forall findings acc,
  total_weight_of (fold_left risk_step findings acc)
  == total_weight_of acc + py_sum (map row_weight findings)
  /\ weighted_risk_of (fold_left risk_step findings acc)
     == weighted_risk_of acc + py_sum (map row_weighted findings).
Proof.
  assert (Hsum : forall l a, fold_left Qplus l a == a + fold_left Qplus l 0).
  { induction l as [|x t IH]; intros a; simpl.
    - ring.
    - rewrite (IH (a + x)), (IH (0 + x)). ring. }
  induction findings as [|f t IH]; intros acc.
  - simpl. unfold py_sum. simpl. split; ring.
  - change (fold_left risk_step (f :: t) acc)
      with (fold_left risk_step t (risk_step acc f)).
    destruct (IH (risk_step acc f)) as [H1 H2].
    rewrite H1, H2. unfold py_sum. simpl map. simpl fold_left.
    rewrite (Hsum _ (0 + row_weight f)), (Hsum _ (0 + row_weighted f)).
    unfold row_weight, row_weighted.
    destruct (contributing f) as [v|] eqn:E.
    + destruct acc as [[tw wr] ids]. rewrite (risk_step_take _ _ _ _ _ E).
      unfold total_weight_of, weighted_risk_of. simpl. split; ring.
    + rewrite (risk_step_skip _ _ E). split; ring.
Qed.

Lemma py_sum_app : forall l1 l2,
  py_sum (l1 ++ l2) == py_sum l1 + py_sum l2.
Proof.
  assert (Hsum : forall l a, fold_left Qplus l a == a + fold_left Qplus l 0).
  { induction l as [|x t IH]; intros a; simpl.
    - ring.
    - rewrite (IH (a + x)), (IH (0 + x)). ring. }
  intros l1 l2. unfold py_sum. rewrite fold_left_app.
  rewrite (Hsum l2 (fold_left Qplus l1 0)). reflexivity.
Qed.

Lemma py_sum_weights_nonneg : forall findings,
  0 <= py_sum (map row_weight findings).
Proof.
  intros findings.
  destruct (fold_risk_step_sums findings (0, 0, [])) as [H _].
  assert (G : forall l acc, 0 <= total_weight_of acc ->
              0 <= total_weight_of (fold_left risk_step l acc)).
  { induction l as [|f t IH]; intros acc Ha; simpl; [assumption|].
    apply IH. destruct (contributing f) as [v|] eqn:E.
    - destruct acc as [[tw wr] ids]. rewrite (risk_step_take _ _ _ _ _ E).
      unfold total_weight_of in *. simpl in *.
      pose proof (weight_pos (rr_evidence_level f)). lra.
    - now rewrite (risk_step_skip _ _ E). }
  specialize (G findings (0, 0, []) (Qle_refl 0)).
  rewrite H in G. unfold total_weight_of in G. simpl in G. lra.
Qed.

Lemma py_sum_cons : forall x l, py_sum (x :: l) == x + py_sum l.
Proof.
  intros x l. change (x :: l) with ([x] ++ l)%list. rewrite py_sum_app.
  unfold py_sum at 1. simpl. ring.
Qed.

Lemma accumulate_split : forall pre f post,
  total_weight_of (accumulate_risk (pre ++ f :: post))
  == py_sum (map row_weight pre) + py_sum (map row_weight post)
     + row_weight f
  /\ weighted_risk_of (accumulate_risk (pre ++ f :: post))
     == py_sum (map row_weighted pre) + py_sum (map row_weighted post)
        + row_weighted f.
Proof.
  intros pre f post. unfold accumulate_risk.
  destruct (fold_risk_step_sums (pre ++ f :: post) (0, 0, [])) as [H1 H2].
  rewrite H1, H2. clear H1 H2.
  rewrite !map_app. simpl map. rewrite !py_sum_app, !py_sum_cons.
  unfold total_weight_of, weighted_risk_of. simpl. split; ring.
Qed.
End WeightedAverage.

(** The distance to [v] of the average of a value [v] of weight [w] with
    other values of total weight [a] and weighted sum [b] shrinks when [w]
    grows. *)
Lemma average_moves_toward : forall a b v w w',
  0 <= a -> 0 < w -> w < w' ->
  Qabs ((b + v * w') / (a + w') - v) <= Qabs ((b + v * w) / (a + w) - v)
  /\ (~ (b + v * w) / (a + w) == v ->
      Qabs ((b + v * w') / (a + w') - v) < Qabs ((b + v * w) / (a + w) - v)).
Proof.
  intros a b v w w' Ha Hw Hw'.
  assert (Haw : 0 < a + w) by lra.
  assert (Haw' : 0 < a + w') by lra.
  assert (E : (b + v * w) / (a + w) - v == (b - a * v) * / (a + w))
    by (field; lra).
  assert (E' : (b + v * w') / (a + w') - v == (b - a * v) * / (a + w'))
    by (field; lra).
  assert (Hi : 0 < / (a + w)) by now apply Qinv_lt_0_compat.
  assert (Hi' : 0 < / (a + w')) by now apply Qinv_lt_0_compat.
  assert (Hlt : / (a + w') < / (a + w)).
  { apply -> Qinv_lt_contravar; [lra | assumption | assumption]. }
  rewrite E, E', !Qabs_Qmult.
  rewrite (Qabs_pos (/ (a + w))), (Qabs_pos (/ (a + w'))) by lra.
  pose proof (Qabs_nonneg (b - a * v)) as Hn.
  rewrite (Qmult_comm _ (/ (a + w'))), (Qmult_comm _ (/ (a + w))).
  split.
  - apply Qmult_le_compat_r; [lra | assumption].
  - intros Hne.
    assert (Hpos : 0 < Qabs (b - a * v)).
    { destruct (Qlt_le_dec 0 (Qabs (b - a * v))) as [|Hle]; [assumption|].
      exfalso. apply Hne.
      assert (Hz : Qabs (b - a * v) == 0) by lra.
      assert (Hd : b - a * v == 0).
      { destruct (Qabs_Qle_condition (b - a * v) 0) as [Hc _].
        specialize (Hc ltac:(lra)). lra. }
      assert (Hv : (b + v * w) / (a + w) - v == 0) by (rewrite E, Hd; ring).
      lra. }
    apply Qmult_lt_compat_r; assumption.
Qed.

Lemma falsy_not_truthy : forall v, v == 0 -> Qtruthy v = false.
Proof.
  intros v H. destruct (Qtruthy v) eqn:E; [|reflexivity].
  apply Qtruthy_true in E. contradiction.
Qed.

Lemma seen_value_falsy : forall o, falsy_value o -> seen_value o = None.
Proof.
  intros o [-> | (v & -> & Hv)]; [reflexivity|].
  simpl. now rewrite (falsy_not_truthy _ Hv).
Qed.

Lemma seen_value_idem : forall o, seen_value (seen_value o) = seen_value o.
Proof.
  intros [v|]; [|reflexivity]. simpl.
  destruct (Qtruthy v) eqn:E; simpl; [now rewrite E | reflexivity].
Qed.

Lemma flat_map_map_out : forall A B C (g : B -> C) (F : A -> list B) l,
  map g (flat_map F l) = flat_map (fun x => map g (F x)) l.
Proof.
  intros A B C g F. induction l as [|x t IH]; simpl; [reflexivity|].
  now rewrite map_app, IH.
Qed.

Section ZeroIsAbsent.
Context {T : FloatText}.

Lemma risk_step_seen : forall acc r,
  risk_step acc (seen_risk_row r) = risk_step acc r.
Proof.
  intros [[tw wr] ids] r. unfold risk_step. simpl.
  destruct (rr_effect_value r) as [v|]; [|reflexivity]. simpl.
  destruct (Qtruthy v) eqn:E; simpl; [now rewrite E | reflexivity].
Qed.

Lemma accumulate_risk_seen : forall rows,
  accumulate_risk (map seen_risk_row rows) = accumulate_risk rows.
Proof.
  intros rows. unfold accumulate_risk. generalize (0, 0, @nil string).
  induction rows as [|r t IH]; intros acc; simpl; [reflexivity|].
  now rewrite risk_step_seen, IH.
Qed.

Lemma profiles_for_threshold_seen : forall threshold rows,
  profiles_for_threshold threshold (map seen_risk_row rows)
  = profiles_for_threshold threshold rows.
Proof.
  intros threshold rows. destruct rows as [|r t]; [reflexivity|].
  unfold profiles_for_threshold.
  change (seen_risk_row r :: map seen_risk_row t)
    with (map seen_risk_row (r :: t)).
  rewrite accumulate_risk_seen, length_map. reflexivity.
Qed.

Lemma effect_step_seen : forall acc r,
  effect_step acc (seen_effect_row r) = effect_step acc r.
Proof.
  intros [[[tw we] ids] [[ni nd] nn]] r. unfold effect_step. simpl.
  destruct (er_effect_value r) as [v|]; [|reflexivity]. simpl.
  destruct (Qtruthy v) eqn:E; simpl; [now rewrite E | reflexivity].
Qed.

Lemma accumulate_effect_seen : forall rows,
  accumulate_effect (map seen_effect_row rows) = accumulate_effect rows.
Proof.
  intros rows. unfold accumulate_effect.
  generalize (0, 0, @nil string, (O, O, O)).
  induction rows as [|r t IH]; intros acc; simpl; [reflexivity|].
  now rewrite effect_step_seen, IH.
Qed.

Lemma effects_for_category_seen : forall issue_id issue_name category rows,
  effects_for_category issue_id issue_name category (map seen_effect_row rows)
  = effects_for_category issue_id issue_name category rows.
Proof.
  intros. unfold effects_for_category.
  rewrite accumulate_effect_seen, length_map. reflexivity.
Qed.
End ZeroIsAbsent.

Lemma add_to_category_seen : forall c r categories,
  add_to_category c (seen_effect_row r) (seen_categories categories)
  = seen_categories (add_to_category c r categories).
Proof.
  intros c r. induction categories as [|[c' l] rest IH]; [reflexivity|].
  change (seen_categories ((c', l) :: rest))
    with ((c', map seen_effect_row l) :: seen_categories rest).
  cbn [add_to_category]. destruct (String.eqb c' c).
  - unfold seen_categories. simpl. now rewrite map_app.
  - rewrite IH. reflexivity.
Qed.

Lemma categorize_seen : forall rows categories,
  fold_left categorize_step (map seen_effect_row rows)
            (seen_categories categories)
  = seen_categories (fold_left categorize_step rows categories).
Proof.
  induction rows as [|r t IH]; intros categories; simpl; [reflexivity|].
  unfold categorize_step at 2. simpl er_description_ja.
  rewrite add_to_category_seen. apply IH.
Qed.

Section ZeroIsAbsentRows.
Context {T : FloatText}.

Lemma effects_for_issue_seen : forall issue_id issue_name rows,
  effects_for_issue issue_id issue_name (map seen_effect_row rows)
  = effects_for_issue issue_id issue_name rows.
Proof.
  intros issue_id issue_name rows. destruct rows as [|r t]; [reflexivity|].
  unfold effects_for_issue.
  change (seen_effect_row r :: map seen_effect_row t)
    with (map seen_effect_row (r :: t)).
  unfold _categorize_findings.
  change (@nil (string * list effect_row)) with (seen_categories []).
  rewrite categorize_seen. unfold seen_categories.
  rewrite flat_map_concat_map, map_map, <- flat_map_concat_map.
  apply flat_map_ext. intros [category l]. simpl.
  apply effects_for_category_seen.
Qed.
End ZeroIsAbsentRows.

Lemma zero_made_absent_fields : forall rf rf',
  zero_made_absent rf rf' ->
  rf_paper_id rf' = rf_paper_id rf
  /\ rf_issue_id rf' = rf_issue_id rf
  /\ rf_finding_type rf' = rf_finding_type rf
  /\ rf_description_ja rf' = rf_description_ja rf
  /\ rf_effect_direction rf' = rf_effect_direction rf
  /\ rf_confidence_interval rf' = rf_confidence_interval rf
  /\ rf_applies_to_age_min rf' = rf_applies_to_age_min rf
  /\ rf_applies_to_age_max rf' = rf_applies_to_age_max rf
  /\ seen_value (rf_effect_value rf') = seen_value (rf_effect_value rf).
Proof.
  intros rf rf' [-> | [(v & Hv & Hz) ->]].
  - repeat split.
  - simpl. repeat split. rewrite Hv. simpl.
    now rewrite (falsy_not_truthy _ Hz).
Qed.

Lemma select_risk_findings_seen : forall threshold d d',
  research_papers d' = research_papers d ->
  dental_issues d' = dental_issues d ->
  Forall2 zero_made_absent (research_findings d) (research_findings d') ->
  map seen_risk_row (select_risk_findings threshold d')
  = map seen_risk_row (select_risk_findings threshold d).
Proof.
  intros threshold d d' Hp Hi Hf. unfold select_risk_findings.
  rewrite Hp, Hi. rewrite !flat_map_map_out.
  induction Hf as [|rf rf' l l' Hr _ IH]; [reflexivity|].
  simpl. rewrite IH. f_equal.
  destruct (zero_made_absent_fields _ _ Hr)
    as (E1 & E2 & E3 & E4 & E5 & E6 & E7 & E8 & E9).
  rewrite !flat_map_map_out. apply flat_map_ext. intros rp.
  rewrite !flat_map_map_out. apply flat_map_ext. intros di.
  rewrite ?E1, ?E2, ?E3, ?E5, ?E6, ?E7, ?E8.
  match goal with |- context [if ?b then _ else _] => destruct b end;
    [|reflexivity].
  simpl. unfold seen_risk_row. simpl. now rewrite E9.
Qed.

Lemma select_issue_findings_seen : forall issue_id d d',
  research_papers d' = research_papers d ->
  Forall2 zero_made_absent (research_findings d) (research_findings d') ->
  map seen_effect_row (select_issue_findings issue_id d')
  = map seen_effect_row (select_issue_findings issue_id d).
Proof.
  intros issue_id d d' Hp Hf. unfold select_issue_findings.
  rewrite Hp. rewrite !flat_map_map_out.
  induction Hf as [|rf rf' l l' Hr _ IH]; [reflexivity|].
  simpl. rewrite IH. f_equal.
  destruct (zero_made_absent_fields _ _ Hr)
    as (E1 & E2 & E3 & E4 & E5 & E6 & E7 & E8 & E9).
  rewrite !flat_map_map_out. apply flat_map_ext. intros rp.
  rewrite ?E1, ?E2, ?E4, ?E5.
  match goal with |- context [if ?b then _ else _] => destruct b end;
    [|reflexivity].
  simpl. unfold seen_effect_row. simpl. now rewrite E9.
Qed.

Section C10.
Context {T : FloatText}.

Lemma age_risk_rows_zero_absent : forall d d',
  research_papers d' = research_papers d ->
  dental_issues d' = dental_issues d ->
  Forall2 zero_made_absent (research_findings d) (research_findings d') ->
  age_risk_rows d' = age_risk_rows d.
Proof.
  intros d d' Hp Hi Hf. rewrite !age_risk_rows_flat_map.
  apply flat_map_ext. intros t.
  rewrite <- (profiles_for_threshold_seen t (select_risk_findings t d')).
  rewrite <- (profiles_for_threshold_seen t (select_risk_findings t d)).
  now rewrite (select_risk_findings_seen t d d' Hp Hi Hf).
Qed.

Lemma treatment_effect_rows_zero_absent : forall d d',
  research_papers d' = research_papers d ->
  dental_issues d' = dental_issues d ->
  Forall2 zero_made_absent (research_findings d) (research_findings d') ->
  treatment_effect_rows d' = treatment_effect_rows d.
Proof.
  intros d d' Hp Hi Hf. unfold treatment_effect_rows, select_issues.
  rewrite Hi.
  rewrite !(fold_app_flat_map _ _
              (fun issue => effects_for_issue (fst issue) (snd issue)
                              (select_issue_findings (fst issue) _))).
  f_equal. apply flat_map_ext. intros [issue_id issue_name]. simpl.
  rewrite <- (effects_for_issue_seen _ _ (select_issue_findings issue_id d')).
  rewrite <- (effects_for_issue_seen _ _ (select_issue_findings issue_id d)).
  now rewrite (select_issue_findings_seen issue_id d d' Hp Hf).
Qed.

Lemma risk_step_falsy : forall acc f,
  falsy_value (rr_effect_value f) -> risk_step acc f = acc.
Proof.
  intros acc f H. apply risk_step_skip. unfold contributing.
  destruct H as [-> | (v & -> & Hv)]; [reflexivity|].
  now rewrite (falsy_not_truthy _ Hv).
Qed.

Lemma effect_step_falsy : forall acc f,
  falsy_value (er_effect_value f) -> effect_step acc f = acc.
Proof.
  intros acc f H. apply effect_step_skip. unfold effect_contributes.
  destruct H as [-> | (v & -> & Hv)]; [reflexivity|].
  now apply falsy_not_truthy.
Qed.

(** C10.  A finding whose effect value is zero is treated as a finding
    without a value: both aggregations return the same rows when zero
    values are made absent; such a finding adds nothing to the weighted
    sum, the total weight, the provenance list or the direction counts.
    The text "1倍" gives the value 0. *)
Theorem zero_value_is_absent : forall c c',
  budget c = None ->
  budget c' = None ->
  research_papers (working c') = research_papers (working c) ->
  dental_issues (working c') = dental_issues (working c) ->
  Forall2 zero_made_absent (research_findings (working c))
                           (research_findings (working c')) ->
  (exists rows c1 c1',
     generate_age_risk_profiles c = (Returned rows, c1)
     /\ generate_age_risk_profiles c' = (Returned rows, c1'))
  /\ (exists rows c1 c1',
        generate_issue_treatment_effects c = (Returned rows, c1)
        /\ generate_issue_treatment_effects c' = (Returned rows, c1'))
  /\ _parse_risk_description "1倍" = (Some 0, increase)
  /\ (forall pre f post,
        falsy_value (rr_effect_value f) ->
        accumulate_risk (pre ++ f :: post) = accumulate_risk (pre ++ post))
  /\ (forall pre f post,
        falsy_value (er_effect_value f) ->
        accumulate_effect (pre ++ f :: post)
        = accumulate_effect (pre ++ post)).
Proof.
  intros c c' Hb Hb' Hp Hi Hf. split; [|split; [|split; [|split]]].
  - destruct (generate_age_risk_profiles c) as [r c1] eqn:H1.
    destruct (generate_age_risk_profiles c') as [r' c1'] eqn:H2.
    destruct (generate_age_risk_profiles_atomic _ _ _ H1) as (R1 & _ & N1).
    destruct (generate_age_risk_profiles_atomic _ _ _ H2) as (R2 & _ & N2).
    destruct (N1 Hb) as [_ [rows ->]]. destruct (N2 Hb') as [_ [rows' ->]].
    destruct (R1 _ eq_refl) as (-> & _). destruct (R2 _ eq_refl) as (-> & _).
    rewrite (age_risk_rows_zero_absent _ _ Hp Hi Hf). eauto.
  - destruct (generate_issue_treatment_effects c) as [r c1] eqn:H1.
    destruct (generate_issue_treatment_effects c') as [r' c1'] eqn:H2.
    destruct (generate_issue_treatment_effects_atomic _ _ _ H1)
      as (R1 & _ & N1).
    destruct (generate_issue_treatment_effects_atomic _ _ _ H2)
      as (R2 & _ & N2).
    destruct (N1 Hb) as [_ [rows ->]]. destruct (N2 Hb') as [_ [rows' ->]].
    destruct (R1 _ eq_refl) as (-> & _). destruct (R2 _ eq_refl) as (-> & _).
    rewrite (treatment_effect_rows_zero_absent _ _ Hp Hi Hf). eauto.
  - vm_compute. reflexivity.
  - intros pre f post H. unfold accumulate_risk.
    rewrite !fold_left_app. simpl. now rewrite risk_step_falsy.
  - intros pre f post H. unfold accumulate_effect.
    rewrite !fold_left_app. simpl. now rewrite effect_step_falsy.
Qed.
End C10.

Lemma zero_value_is_absent_witness :
  exists rows c1 c1',
    generate_age_risk_profiles (T := decimal_text)
      (fresh_connection unit_multiplier_db None) = (Returned rows, c1)
    /\ generate_age_risk_profiles (T := decimal_text)
         (fresh_connection unit_multiplier_absent_db None)
       = (Returned rows, c1').
Proof.
  refine (proj1 (zero_value_is_absent (T := decimal_text)
                   (fresh_connection unit_multiplier_db None)
                   (fresh_connection unit_multiplier_absent_db None)
                   eq_refl eq_refl eq_refl eq_refl _)).
  constructor.
  - right. split; [|reflexivity]. exists 0. split; reflexivity.
  - constructor; [left; reflexivity | constructor].
Defined.

Lemma prefix_spec : forall p s,
  String.prefix p s = true <-> exists r, s = p ++ r.
Proof.
  induction p as [|a p IH]; intros s.
  - destruct s; simpl; (split; [intros _; eexists; reflexivity | reflexivity]).
  - destruct s as [|b s]; simpl.
    + split; [discriminate | intros [r Hr]; discriminate].
    + destruct (ascii_dec a b) as [->|Hne].
      * rewrite IH. split; intros [r Hr]; exists r.
        -- now rewrite Hr.
        -- now injection Hr.
      * split; [discriminate | intros [r Hr]; injection Hr; congruence].
Qed.

Lemma contains_spec : forall needle hay,
  contains needle hay = true <-> exists pre post, hay = pre ++ needle ++ post.
Proof.
  intros needle. induction hay as [|c t IH].
  - cbn [contains]. destruct (String.prefix needle "") eqn:E.
    + split; [intros _|reflexivity].
      apply prefix_spec in E as [r Hr]. exists "", r. exact Hr.
    + split; [discriminate|]. intros (pre & post & H).
      destruct pre; [|discriminate]. simpl in H.
      assert (String.prefix needle "" = true)
        by (apply prefix_spec; now exists post).
      congruence.
  - cbn [contains]. destruct (String.prefix needle (String c t)) eqn:E.
    + split; [intros _|reflexivity].
      apply prefix_spec in E as [r Hr]. exists "", r. exact Hr.
    + rewrite IH. split.
      * intros (pre & post & ->). now exists (String c pre), post.
      * intros (pre & post & H). destruct pre as [|c' pre].
        -- simpl in H.
           assert (String.prefix needle (String c t) = true)
             by (apply prefix_spec; now exists post).
           congruence.
        -- simpl in H. injection H as _ ->. now exists pre, post.
Qed.

Lemma extract_direction_keywords : forall s,
  extract_direction s = direction_by_keywords s.
Proof.
  intros s. unfold extract_direction, direction_by_keywords,
    increase_keywords, decrease_keywords. simpl existsb.
  rewrite !orb_false_r, !orb_assoc. reflexivity.
Qed.

(** C4.  For every text the extractor returns the number of the leftmost
    percentage pattern when there is one; otherwise the number of the
    leftmost multiplier pattern times 100 minus 100 when there is one;
    otherwise no value.  The patterns are read on the characters of the
    text, and a digit is any decimal digit of Unicode.  The direction
    depends on the keywords only.  The two texts of the specification give
    42 and 150 with direction increase, full-width digits are read like
    the ASCII ones, and a text with no pattern and no keyword gives no
    value and direction neutral. *)
Theorem parse_risk_description_by_precedence :
  (forall s,
     ((exists n, first_occurrence percent_sign (code_points s) n
                 /\ fst (_parse_risk_description s) = Some (py_float n))
      \/ ((forall pre n, ~ occurs_at percent_sign (code_points s) pre n)
          /\ exists n, first_occurrence bai (code_points s) n
                       /\ fst (_parse_risk_description s)
                          = Some (Qred (py_float n * 100 - 100)))
      \/ ((forall pre n, ~ occurs_at percent_sign (code_points s) pre n)
          /\ (forall pre n, ~ occurs_at bai (code_points s) pre n)
          /\ fst (_parse_risk_description s) = None))
     /\ snd (_parse_risk_description s) = direction_by_keywords s)
  /\ _parse_risk_description "5年後齲蝕リスク42%上昇" = (Some 42, increase)
  /\ _parse_risk_description "リスク2.5倍" = (Some 150, increase)
  /\ _parse_risk_description "リスク４２%上昇" = (Some 42, increase)
  /\ (forall s,
        (forall pre n, ~ occurs_at percent_sign (code_points s) pre n) ->
        (forall pre n, ~ occurs_at bai (code_points s) pre n) ->
        (forall keyword,
           In keyword (increase_keywords ++ decrease_keywords)%list ->
           contains keyword s = false) ->
        _parse_risk_description s = (None, neutral)).
Proof.
  assert (Hvalue : forall s,
    (exists n, first_occurrence percent_sign (code_points s) n
               /\ extract_value s = Some (py_float n))
    \/ ((forall pre n, ~ occurs_at percent_sign (code_points s) pre n)
        /\ exists n, first_occurrence bai (code_points s) n
                     /\ extract_value s = Some (Qred (py_float n * 100 - 100)))
    \/ ((forall pre n, ~ occurs_at percent_sign (code_points s) pre n)
        /\ (forall pre n, ~ occurs_at bai (code_points s) pre n)
        /\ extract_value s = None)).
  { intros s. unfold extract_value.
    destruct (re_search percent_sign (code_points s)) as [n|] eqn:Ep.
    - left. exists n. split; [now apply re_search_sound | reflexivity].
    - right. pose proof (re_search_complete _ _ Ep) as Hp.
      destruct (re_search bai (code_points s)) as [n|] eqn:Eb.
      + left. split; [exact Hp|]. exists n.
        split; [now apply re_search_sound | reflexivity].
      + right. split; [exact Hp|]. split; [|reflexivity].
        exact (re_search_complete _ _ Eb). }
  split; [|split; [|split; [|split]]].
  - intros s. split; [apply Hvalue | apply extract_direction_keywords].
  - vm_compute. reflexivity.
  - vm_compute. reflexivity.
  - vm_compute. reflexivity.
  - intros s Hp Hb Hk. unfold _parse_risk_description. f_equal.
    + destruct (Hvalue s) as [(n & (pre & Ho & _) & _)
                             | [(_ & n & (pre & Ho & _) & _) | (_ & _ & E)]].
      * exfalso. exact (Hp _ _ Ho).
      * exfalso. exact (Hb _ _ Ho).
      * exact E.
    + rewrite extract_direction_keywords. unfold direction_by_keywords.
      assert (Hi : existsb (fun keyword => contains keyword s) increase_keywords
                   = false).
      { apply not_true_is_false. intros E.
        apply existsb_exists in E as (k & Hin & Hc).
        rewrite (Hk k) in Hc; [discriminate | apply in_or_app; now left]. }
      assert (Hd : existsb (fun keyword => contains keyword s) decrease_keywords
                   = false).
      { apply not_true_is_false. intros E.
        apply existsb_exists in E as (k & Hin & Hc).
        rewrite (Hk k) in Hc; [discriminate | apply in_or_app; now right]. }
      now rewrite Hi, Hd.
Qed.

Lemma parse_risk_description_by_precedence_witness :
  _parse_risk_description "影響は不明" = (None, neutral).
Proof.
  apply (proj2 (proj2 (proj2 (proj2 parse_risk_description_by_precedence)))).
  - apply re_search_complete. vm_compute. reflexivity.
  - apply re_search_complete. vm_compute. reflexivity.
  - intros keyword Hin. simpl in Hin.
    decompose [or] Hin; subst; try contradiction; vm_compute; reflexivity.
Defined.

Section C5.
Context {T : FloatText}.

Lemma regenerated_untouched : forall k d,
  (k <= 5)%nat -> untouched_after k d (regenerated k d).
Proof.
  intros k d Hk. unfold untouched_after.
  do 6 (destruct k as [|k]; [repeat split; intros; (reflexivity || lia)|]).
  lia.
Qed.
End C5.

Lemma regenerate_all_is_atomic_counterexample :
  ~ regenerate_all_is_atomic (T := decimal_text)
      (fresh_connection percent_db (Some 14%nat)).
Proof.
  intros H.
  destruct (generate_all_evidence_data (T := decimal_text)
              (fresh_connection percent_db (Some 14%nat))) as [r c'] eqn:E.
  pose proof E as E'. vm_compute in E'. injection E' as Hr Hc.
  destruct r as [summary|e]; [discriminate Hr|].
  destruct (H e c' E) as [Hcm _].
  rewrite <- Hc in Hcm. discriminate Hcm.
Qed.

Lemma py_min_comp_l : forall a a' b, a == a' -> py_min a b == py_min a' b.
Proof.
  intros a a' b H. unfold py_min, Qltb.
  rewrite (Qleb_comp a a' H b b (Qeq_refl b)).
  destruct (Qle_bool a' b); [exact H | reflexivity].
Qed.

Lemma py_sum_weights_zero : forall findings,
  (forall f, In f findings -> contributing f = None) ->
  py_sum (map row_weight findings) == 0.
Proof.
  induction findings as [|f t IH]; intros H.
  - reflexivity.
  - simpl map. rewrite py_sum_cons, IH by (intros g Hg; apply H; now right).
    unfold row_weight. rewrite (H f (or_introl eq_refl)). reflexivity.
Qed.

Lemma row_weight_nonneg : forall f, 0 <= row_weight f.
Proof.
  intros f. unfold row_weight. destruct (contributing f); [|apply Qle_refl].
  apply Qlt_le_weak, weight_pos.
Qed.

Lemma py_sum_row_weights_nonneg : forall findings,
  0 <= py_sum (map row_weight findings).
Proof.
  induction findings as [|f t IH]; [apply Qle_refl|].
  simpl map. rewrite py_sum_cons. pose proof (row_weight_nonneg f). lra.
Qed.

Lemma py_sum_weights_pos : forall findings f v,
  In f findings -> contributing f = Some v ->
  0 < py_sum (map row_weight findings).
Proof.
  induction findings as [|g t IH]; intros f v Hin Hc; [contradiction|].
  simpl map. rewrite py_sum_cons.
  pose proof (py_sum_row_weights_nonneg t) as Ht.
  destruct Hin as [-> | Hin].
  - unfold row_weight at 1. rewrite Hc.
    pose proof (weight_pos (rr_evidence_level f)). lra.
  - pose proof (IH f v Hin Hc). pose proof (row_weight_nonneg g). lra.
Qed.

Section C1.
Context {T : FloatText}.

(** The row that the loop body stores for a threshold with findings, in
    terms of the two sums it has accumulated. *)
Lemma profiles_for_threshold_stored : forall threshold findings,
  findings <> [] ->
  exists row,
    profiles_for_threshold threshold findings = [row]
    /\ ((0 < total_weight_of (accumulate_risk findings)
         /\ arp_risk_value row
            = weighted_risk_of (accumulate_risk findings)
              / total_weight_of (accumulate_risk findings)
         /\ arp_confidence_level row
            = py_min (total_weight_of (accumulate_risk findings)
                      / inject_Z (Z.of_nat (List.length findings)))
                     (95 # 100))
        \/ (total_weight_of (accumulate_risk findings) <= 0
            /\ arp_risk_value row = inject_Z threshold / 2
            /\ arp_calculated_from row = "default"
            /\ arp_confidence_level row = 1 # 2)).
Proof.
  intros threshold findings Hne.
  destruct findings as [|f t]; [congruence|].
  unfold profiles_for_threshold.
  destruct (accumulate_risk (f :: t)) as [[tw wr] ids] eqn:E.
  unfold total_weight_of, weighted_risk_of. cbn [fst snd].
  destruct (Qltb 0 tw) eqn:Hp.
  - apply Qltb_true in Hp. eexists. split; [reflexivity|].
    left. cbn [arp_risk_value arp_confidence_level]. auto.
  - apply Qltb_false in Hp. eexists. split; [reflexivity|].
    right. cbn [arp_risk_value arp_confidence_level arp_calculated_from].
    auto.
Qed.

(** C1 (amended).  When the store answers, [generate_age_risk_profiles]
    returns and stores its rows, and for every threshold of the fixed set
    for which the SELECT returns at least one finding there is exactly one
    row keyed by it, with a confidence in (0, 0.95].  When some finding has
    a present, non-zero value, the risk value of the row is the sum of
    value times weight over those findings divided by the sum of their
    weights, and its confidence is min(sum of weights / number of
    findings, 0.95).  When none has, the risk value is half the threshold,
    the confidence 0.5 and the provenance "default".  The risk value is not
    clamped: it lies in [0, 100] whenever the contributing values do. *)
Theorem age_risk_profiles_generated : forall c,
  budget c = None ->
  exists rows c',
    generate_age_risk_profiles c = (Returned rows, c')
    /\ age_risk_profiles (working c') = rows
    /\ age_risk_profiles (committed c') = rows
    /\ forall t,
         In t age_thresholds ->
         select_risk_findings t (working c) <> [] ->
         exists row,
           filter (fun r => Z.eqb (arp_age_threshold r) t) rows = [row]
           /\ 0 < arp_confidence_level row <= 95 # 100
           /\ ((exists f v,
                  In f (select_risk_findings t (working c))
                  /\ contributing f = Some v) ->
               arp_risk_value row
               == py_sum (map row_weighted
                            (select_risk_findings t (working c)))
                  / py_sum (map row_weight
                              (select_risk_findings t (working c)))
               /\ arp_confidence_level row
                  == py_min
                       (py_sum (map row_weight
                                  (select_risk_findings t (working c)))
                        / inject_Z
                            (Z.of_nat
                               (List.length
                                  (select_risk_findings t (working c)))))
                       (95 # 100))
           /\ ((forall f,
                  In f (select_risk_findings t (working c)) ->
                  contributing f = None) ->
               arp_risk_value row = inject_Z t / 2
               /\ arp_confidence_level row = 1 # 2
               /\ arp_calculated_from row = "default")
           /\ ((forall f v,
                  In f (select_risk_findings t (working c)) ->
                  contributing f = Some v -> 0 <= v <= 100) ->
               0 <= arp_risk_value row <= 100).
Proof.
  intros c Hb.
  destruct (generate_age_risk_profiles c) as [r c'] eqn:Hrun.
  destruct (generate_age_risk_profiles_atomic _ _ _ Hrun) as (Hr & _ & Hn).
  destruct (Hn Hb) as [_ [rows ->]].
  destruct (Hr rows eq_refl) as (-> & Hw & Hc).
  exists (age_risk_rows (working c)), c'.
  split; [reflexivity|]. split; [now rewrite Hw|]. split; [now rewrite Hc|].
  intros t Ht Hne.
  set (findings := select_risk_findings t (working c)) in *.
  destruct (profiles_for_threshold_row t _ Hne) as (row & E & K & Hconf & _).
  destruct (profiles_for_threshold_stored t _ Hne) as (row0 & E0 & Hval).
  rewrite E in E0. injection E0 as <-.
  destruct (fold_risk_step_sums findings (0, 0, [])) as [Htw Hwr].
  fold (accumulate_risk findings) in Htw, Hwr.
  assert (Htw' : total_weight_of (accumulate_risk findings)
                 == py_sum (map row_weight findings))
    by (rewrite Htw; unfold total_weight_of; simpl; ring).
  assert (Hwr' : weighted_risk_of (accumulate_risk findings)
                 == py_sum (map row_weighted findings))
    by (rewrite Hwr; unfold weighted_risk_of; simpl; ring).
  exists row. split.
  { rewrite age_risk_rows_flat_map.
    rewrite (filter_keyed_flat_map
               (fun k => profiles_for_threshold k
                           (select_risk_findings k (working c)))).
    - exact E.
    - intros k r0. apply profiles_for_threshold_keys.
    - apply age_thresholds_NoDup.
    - exact Ht. }
  split; [exact Hconf|]. split; [|split].
  - intros (f & v & Hin & Hcon).
    pose proof (py_sum_weights_pos findings f v Hin Hcon) as Hpos.
    destruct Hval as [(_ & Hrv & Hcl) | (Hz & _)].
    + rewrite Hrv, Hcl. split.
      * rewrite Htw', Hwr'. reflexivity.
      * apply py_min_comp_l. rewrite Htw'. reflexivity.
    + exfalso. rewrite Htw' in Hz. lra.
  - intros Hnone.
    pose proof (py_sum_weights_zero findings Hnone) as Hzero.
    destruct Hval as [(Hpos & _) | (_ & Hrv & Hd & Hcl)].
    + exfalso. rewrite Htw' in Hpos. lra.
    + auto.
  - intros Hrange.
    destruct Hval as [(Hpos & Hrv & _) | (_ & Hrv & _)]; rewrite Hrv.
    + destruct (accumulate_bounds 0 100 findings (0, 0, []) Hrange)
        as (_ & Hlo & Hhi).
      * apply Qle_refl.
      * unfold total_weight_of, weighted_risk_of. simpl. lra.
      * fold (accumulate_risk findings) in Hlo, Hhi.
        split.
        -- apply Qle_shift_div_l; [exact Hpos | exact Hlo].
        -- apply Qle_shift_div_r; [exact Hpos | exact Hhi].
    + unfold age_thresholds in Ht. simpl in Ht.
      destruct Ht as [<- | [<- | [<- | [<- | [<- | []]]]]];
        split; vm_compute; discriminate.
Qed.
End C1.

Lemma age_risk_profiles_generated_witness :
  exists rows c' row,
    generate_age_risk_profiles (T := decimal_text)
      (fresh_connection percent_db None) = (Returned rows, c')
    /\ filter (fun r => Z.eqb (arp_age_threshold r) 12) rows = [row]
    /\ arp_risk_value row == 42
    /\ 0 < arp_confidence_level row <= 95 # 100.
Proof.
  destruct (age_risk_profiles_generated (T := decimal_text)
              (fresh_connection percent_db None) eq_refl)
    as (rows & c' & Hrun & _ & _ & Hrows).
  destruct (Hrows 12%Z (or_introl eq_refl)) as (row & Hf & Hc & Hv & _).
  { vm_compute. discriminate. }
  exists rows, c', row. split; [exact Hrun|]. split; [exact Hf|].
  split; [|exact Hc].
  destruct Hv as [Hv _].
  - eexists. exists 42. split; [left; reflexivity | reflexivity].
  - rewrite Hv. vm_compute. reflexivity.
Defined.

Lemma contributing_with_evidence_level : forall level f,
  contributing (with_evidence_level level f) = contributing f.
Proof. reflexivity. Qed.

Section C6.
Context {T : FloatText}.

Lemma profiles_for_threshold_depends : forall threshold l l',
  l <> [] -> l' <> [] ->
  accumulate_risk l = accumulate_risk l' ->
  List.length l = List.length l' ->
  profiles_for_threshold threshold l = profiles_for_threshold threshold l'.
Proof.
  intros threshold l l' Hl Hl' Ha Hn.
  destruct l as [|x t]; [congruence|]. destruct l' as [|x' t']; [congruence|].
  unfold profiles_for_threshold. rewrite Ha, Hn. reflexivity.
Qed.

Lemma accumulate_risk_skip : forall pre f f' post,
  contributing f = None -> contributing f' = None ->
  accumulate_risk (pre ++ f :: post) = accumulate_risk (pre ++ f' :: post).
Proof.
  intros pre f f' post Hf Hf'. unfold accumulate_risk.
  rewrite !fold_left_app. cbn [fold_left].
  now rewrite (risk_step_skip _ _ Hf), (risk_step_skip _ _ Hf').
Qed.

(** C6 (amended).  In the risk aggregation, for a finding of a tier 5
    paper with a present, non-zero value v: with the tier 1a in its place
    the weight of the finding is 5 instead of 0.5, the bucket accumulates
    4.5 more weight, and the risk value stored for the threshold, which is
    the weighted average in both cases, is at least as close to v, and
    strictly closer unless the stored value already equals v.  For a
    finding without a usable value the stored row is the same with either
    tier. *)
Theorem weighting_monotone : forall threshold pre post f,
  rr_evidence_level f = Some "5" ->
  let f' := with_evidence_level (Some "1a") f in
  _get_evidence_level_weight (rr_evidence_level f) = 1 # 2
  /\ _get_evidence_level_weight (rr_evidence_level f') = 5
  /\ (forall v,
        contributing f = Some v ->
        exists row row',
          profiles_for_threshold threshold (pre ++ f :: post) = [row]
          /\ profiles_for_threshold threshold (pre ++ f' :: post) = [row']
          /\ py_sum (map row_weight (pre ++ f' :: post))
             == py_sum (map row_weight (pre ++ f :: post)) + (9 # 2)
          /\ arp_risk_value row
             == py_sum (map row_weighted (pre ++ f :: post))
                / py_sum (map row_weight (pre ++ f :: post))
          /\ arp_risk_value row'
             == py_sum (map row_weighted (pre ++ f' :: post))
                / py_sum (map row_weight (pre ++ f' :: post))
          /\ Qabs (arp_risk_value row' - v) <= Qabs (arp_risk_value row - v)
          /\ (~ arp_risk_value row == v ->
              Qabs (arp_risk_value row' - v)
              < Qabs (arp_risk_value row - v)))
  /\ (contributing f = None ->
      profiles_for_threshold threshold (pre ++ f' :: post)
      = profiles_for_threshold threshold (pre ++ f :: post)).
Proof.
  intros threshold pre post f Hlevel f'.
  split; [now rewrite Hlevel|]. split; [reflexivity|]. split.
  - intros v Hv.
    assert (Hv' : contributing f' = Some v) by exact Hv.
    assert (Hw : row_weight f = 1 # 2)
      by (unfold row_weight; rewrite Hv, Hlevel; reflexivity).
    assert (Hw' : row_weight f' = 5)
      by (unfold row_weight; rewrite Hv'; reflexivity).
    assert (Hx : row_weighted f = v * (1 # 2))
      by (unfold row_weighted; rewrite Hv, Hlevel; reflexivity).
    assert (Hx' : row_weighted f' = v * 5)
      by (unfold row_weighted; rewrite Hv'; reflexivity).
    destruct (accumulate_split pre f post) as [Ht Hr].
    destruct (accumulate_split pre f' post) as [Ht' Hr'].
    rewrite Hw, Hx in *. rewrite Hw', Hx' in *.
    pose proof (py_sum_row_weights_nonneg pre) as Hpre.
    pose proof (py_sum_row_weights_nonneg post) as Hpost.
    set (a := py_sum (map row_weight pre) + py_sum (map row_weight post))
      in *.
    set (b := py_sum (map row_weighted pre) + py_sum (map row_weighted post))
      in *.
    assert (Ha : 0 <= a) by (unfold a; lra).
    assert (Hs : py_sum (map row_weight (pre ++ f :: post)) == a + (1 # 2)).
    { rewrite map_app. simpl map. rewrite py_sum_app, py_sum_cons, Hw.
      unfold a. ring. }
    assert (Hs' : py_sum (map row_weight (pre ++ f' :: post)) == a + 5).
    { rewrite map_app. simpl map. rewrite py_sum_app, py_sum_cons, Hw'.
      unfold a. ring. }
    assert (Hq : py_sum (map row_weighted (pre ++ f :: post))
                 == b + v * (1 # 2)).
    { rewrite map_app. simpl map. rewrite py_sum_app, py_sum_cons, Hx.
      unfold b. ring. }
    assert (Hq' : py_sum (map row_weighted (pre ++ f' :: post))
                  == b + v * 5).
    { rewrite map_app. simpl map. rewrite py_sum_app, py_sum_cons, Hx'.
      unfold b. ring. }
    destruct (profiles_for_threshold_stored threshold (pre ++ f :: post))
      as (row & E & [(_ & Hrv & _) | (Hz & _)]);
      [now destruct pre | | exfalso; rewrite Ht in Hz; lra].
    destruct (profiles_for_threshold_stored threshold (pre ++ f' :: post))
      as (row' & E' & [(_ & Hrv' & _) | (Hz & _)]);
      [now destruct pre | | exfalso; rewrite Ht' in Hz; lra].
    exists row, row'. split; [exact E|]. split; [exact E'|].
    assert (Hrow : arp_risk_value row == (b + v * (1 # 2)) / (a + (1 # 2)))
      by (rewrite Hrv, Ht, Hr; reflexivity).
    assert (Hrow' : arp_risk_value row' == (b + v * 5) / (a + 5))
      by (rewrite Hrv', Ht', Hr'; reflexivity).
    split; [rewrite Hs, Hs'; ring|].
    split; [rewrite Hrow, Hs, Hq; reflexivity|].
    split; [rewrite Hrow', Hs', Hq'; reflexivity|].
    destruct (average_moves_toward a b v (1 # 2) 5 Ha)
      as [Hle Hlt]; [reflexivity | reflexivity |].
    rewrite Hrow, Hrow'. split; assumption.
  - intros Hnone. apply profiles_for_threshold_depends.
    + now destruct pre.
    + now destruct pre.
    + now apply accumulate_risk_skip.
    + rewrite !length_app. reflexivity.
Qed.
End C6.

Lemma weighting_monotone_witness :
  exists f post row row',
    two_papers_rows = f :: post
    /\ profiles_for_threshold (T := decimal_text) 12 ([] ++ f :: post) = [row]
    /\ profiles_for_threshold (T := decimal_text) 12
         ([] ++ with_evidence_level (Some "1a") f :: post) = [row']
    /\ arp_risk_value row' == 135 # 4
    /\ Qabs (arp_risk_value row' - 42) < Qabs (arp_risk_value row - 42).
Proof.
  destruct two_papers_rows as [|f post] eqn:E; [discriminate|].
  pose proof E as E'. vm_compute in E'. injection E' as Hf Hpost.
  destruct (proj2 (proj2 (weighting_monotone (T := decimal_text) 12 [] post f
                            ltac:(rewrite <- Hf; reflexivity))))
    as [Hsome _].
  destruct (Hsome 42 ltac:(rewrite <- Hf; reflexivity))
    as (row & row' & Hrow & Hrow' & _ & Hv & Hv' & _ & Hlt).
  exists f, post, row, row'. split; [reflexivity|].
  split; [exact Hrow|]. split; [exact Hrow'|]. split.
  - rewrite Hv', <- Hf, <- Hpost. vm_compute. reflexivity.
  - apply Hlt. rewrite Hv, <- Hf, <- Hpost. vm_compute. discriminate.
Defined.

Lemma replacement_shifts_average_counterexample :
  (exists f, unit_multiplier_rows = [f]
             /\ rr_evidence_level f = Some "5"
             /\ rr_effect_value f = Some 0
             /\ ~ replacement_shifts_average (T := decimal_text) 12 [] [] f 0)
  /\ (exists f, single_finding_rows = [f]
                /\ rr_evidence_level f = Some "5"
                /\ rr_effect_value f = Some 42
                /\ ~ replacement_shifts_average (T := decimal_text)
                       12 [] [] f 42).
Proof.
  split.
  - eexists. split; [vm_compute; reflexivity|].
    split; [reflexivity|]. split; [reflexivity|].
    intros H.
    destruct (H _ _ ltac:(vm_compute; reflexivity) ltac:(vm_compute; reflexivity))
      as [Hw _].
    vm_compute in Hw. discriminate.
  - eexists. split; [vm_compute; reflexivity|].
    split; [reflexivity|]. split; [reflexivity|].
    intros H.
    destruct (H _ _ ltac:(vm_compute; reflexivity) ltac:(vm_compute; reflexivity))
      as [_ Hd].
    vm_compute in Hd. discriminate.
Qed.

Lemma add_to_category_keys : forall c f categories,
  map fst (add_to_category c f categories)
  = if existsb (String.eqb c) (map fst categories)
    then map fst categories
    else (map fst categories ++ [c])%list.
Proof.
  intros c f. induction categories as [|[c' l] rest IH]; [reflexivity|].
  cbn [add_to_category map fst existsb].
  rewrite (String.eqb_sym c c').
  destruct (String.eqb c' c); simpl; [reflexivity|].
  rewrite IH. now destruct (existsb (String.eqb c) (map fst rest)).
Qed.

Lemma add_to_category_NoDup : forall c f categories,
  NoDup (map fst categories) ->
  NoDup (map fst (add_to_category c f categories)).
Proof.
  intros c f categories H. rewrite add_to_category_keys.
  destruct (existsb (String.eqb c) (map fst categories)) eqn:E; [assumption|].
  apply NoDup_app; [assumption | repeat constructor; intros [] | ].
  intros x Hx [Hc | []]. subst x.
  assert (existsb (String.eqb c) (map fst categories) = true)
    by (apply existsb_exists; exists c; split; [assumption | apply String.eqb_refl]).
  congruence.
Qed.

Lemma add_to_category_In : forall c f categories k l,
  NoDup (map fst categories) ->
  In (k, l) (add_to_category c f categories) ->
  (k = c /\ ((exists l0, In (c, l0) categories /\ l = (l0 ++ [f])%list)
             \/ (~ In c (map fst categories) /\ l = [f])))
  \/ (k <> c /\ In (k, l) categories).
Proof.
  intros c f. induction categories as [|[c' l'] rest IH]; intros k l Hnd Hin.
  - destruct Hin as [[= <- <-] | []]. left. split; [reflexivity|].
    right. split; [intros [] | reflexivity].
  - cbn [add_to_category] in Hin. cbn [map fst] in Hnd.
    inversion Hnd as [|? ? Hnot Hnd']; subst.
    destruct (String.eqb_spec c' c) as [->|Hne].
    + destruct Hin as [[= <- <-] | Hin].
      * left. split; [reflexivity|]. left. exists l'. split; [now left | reflexivity].
      * right. split; [|now right].
        intros ->. apply Hnot. apply in_map_iff. exists (c, l). auto.
    + destruct Hin as [[= <- <-] | Hin].
      * right. split; [exact Hne | now left].
      * destruct (IH k l Hnd' Hin)
          as [[-> [(l0 & Hl0 & ->) | [Hno ->]]] | [Hk Hin']].
        -- left. split; [reflexivity|]. left. exists l0. split; [now right | reflexivity].
        -- left. split; [reflexivity|]. right. split; [|reflexivity].
           intros [E | Hc]; [now apply Hne | now apply Hno].
        -- right. split; [exact Hk | now right].
Qed.

Lemma filter_snoc : forall A (p : A -> bool) l x,
  filter p (l ++ [x]) = (filter p l ++ (if p x then [x] else []))%list.
Proof. intros A p l x. rewrite filter_app. reflexivity. Qed.

(** A category holds the findings whose description matches it, in the
    order of the input. *)
Lemma categorize_findings_filter : forall findings category l,
  In (category, l) (_categorize_findings findings) ->
  l = filter (in_category category) findings.
Proof.
  intros findings category l. unfold _categorize_findings.
  assert (G : forall fs pre categories,
    NoDup (map fst categories) ->
    (forall k l, In (k, l) categories -> l = filter (in_category k) pre) ->
    (forall x, In x pre ->
       In (match_category category_keywords (er_description_ja x))
          (map fst categories)) ->
    forall k l, In (k, l) (fold_left categorize_step fs categories) ->
                l = filter (in_category k) (pre ++ fs)).
  { induction fs as [|f t IH]; intros pre categories Hnd Hcl Hkeys k0 l0 Hin.
    - rewrite app_nil_r. now apply Hcl.
    - cbn [fold_left] in Hin.
      replace (pre ++ f :: t)%list with ((pre ++ [f]) ++ t)%list
        by (rewrite <- app_assoc; reflexivity).
      apply (IH (pre ++ [f])%list (categorize_step categories f));
        [| | |exact Hin]; unfold categorize_step.
      + now apply add_to_category_NoDup.
      + intros k1 l1 H1. rewrite filter_snoc. unfold in_category at 2.
        destruct (add_to_category_In _ _ _ _ _ Hnd H1)
          as [[-> [(l2 & Hl2 & ->) | [Hno ->]]] | [Hk H1']].
        * rewrite String.eqb_refl. now rewrite (Hcl _ _ Hl2).
        * rewrite String.eqb_refl.
          destruct (filter (in_category
                              (match_category category_keywords
                                 (er_description_ja f))) pre)
            as [|x xs] eqn:Ef; [reflexivity|].
          exfalso. apply Hno.
          assert (Hx : In x (filter (in_category
                              (match_category category_keywords
                                 (er_description_ja f))) pre))
            by (rewrite Ef; now left).
          apply filter_In in Hx as [Hx Hc]. unfold in_category in Hc.
          apply String.eqb_eq in Hc. rewrite <- Hc. now apply Hkeys.
        * destruct (String.eqb_spec
                      (match_category category_keywords (er_description_ja f))
                      k1) as [E|_]; [congruence|].
          rewrite app_nil_r. now apply Hcl.
      + intros x Hx. rewrite add_to_category_keys.
        apply in_app_or in Hx as [Hx | [<- | []]].
        * destruct (existsb _ (map fst categories));
            [|apply in_or_app; left]; now apply Hkeys.
        * destruct (existsb _ (map fst categories)) eqn:E.
          -- apply existsb_exists in E as (y & Hy & Heq).
             apply String.eqb_eq in Heq. now subst.
          -- apply in_or_app. right. now left. }
  apply (G findings [] []).
  - constructor.
  - intros k0 l0 [].
  - intros x [].
Qed.

Section C3.
Context {T : FloatText}.

Lemma effects_for_category_category :
  forall issue_id issue_name category category_findings row,
    In row (effects_for_category issue_id issue_name category
              category_findings) ->
    ite_effect_category row = category.
Proof.
  intros issue_id issue_name category cfs row H.
  unfold effects_for_category in H.
  destruct (accumulate_effect cfs) as [[[tw we] ids] [[ni nd] nn]].
  destruct (Qltb 0 tw); [|contradiction].
  destruct H as [<- | []]. reflexivity.
Qed.

Lemma default_effects_issue : forall issue_id issue_name row,
  In row (_generate_default_effects issue_id issue_name) ->
  ite_issue_id row = issue_id.
Proof.
  intros issue_id issue_name row H. unfold _generate_default_effects in H.
  apply in_map_iff in H as ([[category value] dir] & <- & _). reflexivity.
Qed.

Lemma treatment_effect_rows_ids : forall d row,
  In row (treatment_effect_rows d) ->
  (ite_calculated_from row = "default"
   /\ select_issue_findings (ite_issue_id row) d = [])
  \/ (contributing_paper_ids d (ite_issue_id row) (ite_effect_category row)
      <> []
      /\ ite_calculated_from row
         = join ","
             (map str_of_Z
                (contributing_paper_ids d (ite_issue_id row)
                   (ite_effect_category row)))).
Proof.
  intros d row H. unfold treatment_effect_rows in H.
  rewrite (fold_app_flat_map _ _
             (fun issue => effects_for_issue (fst issue) (snd issue)
                             (select_issue_findings (fst issue) d))) in H.
  simpl in H. apply in_flat_map in H as ([issue_id issue_name] & _ & H).
  cbn [fst snd] in H. unfold effects_for_issue in H.
  destruct (select_issue_findings issue_id d) as [|f0 fs] eqn:Es.
  - left. rewrite (default_effects_issue _ _ _ H).
    split; [eapply default_effects_provenance; eauto | exact Es].
  - right. apply in_flat_map in H as ([category cfs] & Hcat & H).
    destruct (effects_for_category_provenance _ _ _ _ _ H) as (Hid & Hne & Hp).
    pose proof (effects_for_category_category _ _ _ _ _ H) as Hk.
    pose proof (categorize_findings_filter _ _ _ Hcat) as Hl.
    unfold contributing_paper_ids. rewrite Hid, Hk, Es, <- Hl.
    split; [|exact Hp].
    intros E. apply Hne. now apply map_eq_nil in E.
Qed.

Lemma contributing_paper_ids_origin : forall d issue_id category id,
  In id (contributing_paper_ids d issue_id category) ->
  exists rp rf v,
    In rp (research_papers d) /\ rp_paper_id rp = id
    /\ In rf (research_findings d) /\ rf_paper_id rf = id
    /\ rf_issue_id rf = Some issue_id
    /\ rf_effect_value rf = Some v /\ ~ v == 0.
Proof.
  intros d issue_id category id Hin. unfold contributing_paper_ids in Hin.
  apply in_map_iff in Hin as (er & <- & Hin).
  apply filter_In in Hin as [Hin Hc]. apply filter_In in Hin as [Hsel _].
  destruct (select_issue_findings_origin _ _ _ Hsel)
    as (rf & rp & Hrf & Hrp & E1 & E2 & E3 & E4).
  unfold effect_contributes in Hc. rewrite E4 in Hc.
  destruct (rf_effect_value rf) as [v|] eqn:Ev; [|discriminate].
  exists rp, rf, v. repeat split; auto; try congruence.
  now apply Qtruthy_true.
Qed.

(** C3 (amended).  Every row written to issue_treatment_effects has
    calculated_from equal to "default", and then its issue has no finding,
    or to the comma-joined paper ids of exactly the findings of its issue
    and of its category that have a present, non-zero value, in the order
    of the SELECT; these ids are ids of papers of the store.  The rows of
    age_timing_benefits carry "combined_evidence", those of
    future_scenarios "evidence_synthesis", and a row of age_risk_profiles
    for a threshold none of whose findings has a usable value carries
    "default". *)
Theorem derived_rows_provenance : forall c,
  budget c = None ->
  (exists rows c',
     generate_issue_treatment_effects c = (Returned rows, c')
     /\ issue_treatment_effects (working c') = rows
     /\ forall row, In row rows ->
          (ite_calculated_from row = "default"
           /\ select_issue_findings (ite_issue_id row) (working c) = [])
          \/ (contributing_paper_ids (working c) (ite_issue_id row)
                (ite_effect_category row) <> []
              /\ ite_calculated_from row
                 = join ","
                     (map str_of_Z
                        (contributing_paper_ids (working c)
                           (ite_issue_id row) (ite_effect_category row)))
              /\ forall id,
                   In id (contributing_paper_ids (working c)
                            (ite_issue_id row) (ite_effect_category row)) ->
                   exists rp, In rp (research_papers (working c))
                              /\ rp_paper_id rp = id))
  /\ (exists rows c',
        generate_age_timing_benefits c = (Returned rows, c')
        /\ age_timing_benefits (working c') = rows
        /\ forall row, In row rows ->
             atb_calculated_from row = "combined_evidence")
  /\ (exists rows c',
        generate_future_scenarios c = (Returned rows, c')
        /\ future_scenarios (working c') = rows
        /\ forall row, In row rows ->
             fs_calculated_from row = "evidence_synthesis")
  /\ (exists rows c',
        generate_age_risk_profiles c = (Returned rows, c')
        /\ age_risk_profiles (working c') = rows
        /\ forall row, In row rows ->
             (forall f,
                In f (select_risk_findings (arp_age_threshold row)
                        (working c)) ->
                contributing f = None) ->
             arp_calculated_from row = "default").
Proof.
  intros c Hb. repeat split.
  - destruct (generate_issue_treatment_effects c) as [r c'] eqn:Hrun.
    destruct (generate_issue_treatment_effects_atomic _ _ _ Hrun)
      as (Hr & _ & Hn).
    destruct (Hn Hb) as [_ [rows ->]].
    destruct (Hr rows eq_refl) as (-> & Hw & _).
    exists (treatment_effect_rows (working c)), c'.
    split; [reflexivity|]. split; [now rewrite Hw|].
    intros row Hin.
    destruct (treatment_effect_rows_ids _ _ Hin) as [Hd | [Hne Hj]].
    + now left.
    + right. split; [exact Hne|]. split; [exact Hj|].
      intros id Hid.
      destruct (contributing_paper_ids_origin _ _ _ _ Hid)
        as (rp & _ & _ & Hrp & Hpid & _).
      exists rp. split; assumption.
  - destruct (generate_age_timing_benefits c) as [r c'] eqn:Hrun.
    destruct (generate_age_timing_benefits_atomic _ _ _ Hrun)
      as (Hr & _ & Hn).
    destruct (Hn Hb) as [_ [rows ->]].
    destruct (Hr rows eq_refl) as (-> & Hw & _).
    exists (timing_benefit_rows (working c)), c'.
    split; [reflexivity|]. split; [now rewrite Hw|].
    intros row Hin. unfold timing_benefit_rows in Hin. simpl in Hin.
    destruct Hin as [<- | [<- | [<- | [<- | [<- | []]]]]]; reflexivity.
  - destruct (generate_future_scenarios c) as [r c'] eqn:Hrun.
    destruct (generate_future_scenarios_atomic _ _ _ Hrun) as (Hr & _ & Hn).
    destruct (Hn Hb) as [_ [rows ->]].
    destruct (Hr rows eq_refl) as (-> & Hw & _).
    exists build_scenarios, c'.
    split; [reflexivity|]. split; [now rewrite Hw|].
    intros row Hin. unfold build_scenarios in Hin. simpl in Hin.
    repeat (destruct Hin as [<- | Hin]; [reflexivity|]). contradiction.
  - destruct (generate_age_risk_profiles c) as [r c'] eqn:Hrun.
    destruct (generate_age_risk_profiles_atomic _ _ _ Hrun) as (Hr & _ & Hn).
    destruct (Hn Hb) as [_ [rows ->]].
    destruct (Hr rows eq_refl) as (-> & Hw & _).
    exists (age_risk_rows (working c)), c'.
    split; [reflexivity|]. split; [now rewrite Hw|].
    intros row Hin Hnone. rewrite age_risk_rows_flat_map in Hin.
    apply in_flat_map in Hin as (t & _ & Hin).
    pose proof (profiles_for_threshold_keys _ _ _ Hin) as Hk.
    rewrite Hk in Hnone.
    destruct (select_risk_findings t (working c)) as [|f fs] eqn:Es;
      [contradiction|].
    destruct (profiles_for_threshold_row t (f :: fs))
      as (row' & E & _ & _ & [[Hpos _] | (_ & _ & Hd & _)]);
      [discriminate | |];
      rewrite E in Hin; destruct Hin as [<- | []].
    + exfalso.
      destruct (fold_risk_step_sums (f :: fs) (0, 0, [])) as [Htw _].
      fold (accumulate_risk (f :: fs)) in Htw.
      rewrite Htw, (py_sum_weights_zero _ Hnone) in Hpos.
      unfold total_weight_of in Hpos. simpl in Hpos. lra.
    + exact Hd.
Qed.
End C3.

Lemma derived_rows_provenance_witness :
  exists rows c',
    generate_issue_treatment_effects (T := decimal_text)
      (fresh_connection three_findings_db None) = (Returned rows, c')
    /\ map (fun row => (ite_effect_category row, ite_calculated_from row)) rows
       = [("caries_risk", "7,8"); ("tmj_risk", "9")]
    /\ forall row, In row rows ->
         ite_calculated_from row
         = join ","
             (map str_of_Z
                (contributing_paper_ids three_findings_db
                   (ite_issue_id row) (ite_effect_category row))).
Proof.
  destruct (proj1 (derived_rows_provenance (T := decimal_text)
                     (fresh_connection three_findings_db None) eq_refl))
    as (rows & c' & Hrun & _ & Hrows).
  exists rows, c'. split; [exact Hrun|].
  pose proof Hrun as Hrun'. vm_compute in Hrun'.
  injection Hrun' as Hr _. split; [rewrite <- Hr; reflexivity|].
  intros row Hin. destruct (Hrows row Hin) as [[_ Hnil] | (_ & Hj & _)].
  - exfalso. rewrite <- Hr in Hin.
    destruct Hin as [<- | [<- | []]]; vm_compute in Hnil; discriminate.
  - exact Hj.
Defined.

(** Rounding moves a number by a half at most. *)
Lemma py_round_near : forall x, Qabs (inject_Z (py_round x) - x) <= 1 # 2.
Proof.
  intros x. unfold py_round.
  pose proof (Qfloor_le x) as Hlo. pose proof (Qlt_floor x) as Hhi.
  assert (Hs : inject_Z (Qfloor x + 1) == inject_Z (Qfloor x) + 1)
    by (rewrite inject_Z_plus; reflexivity).
  rewrite Hs in Hhi.
  apply Qabs_Qle_condition.
  destruct (Qcompare_spec (x - inject_Z (Qfloor x)) (1 # 2)) as [E | E | E].
  - destruct (Z.even (Qfloor x)); [|rewrite Hs]; split; lra.
  - split; lra.
  - rewrite Hs. split; lra.
Qed.

Lemma py_round_range : forall x (a b : Z),
  inject_Z a <= x <= inject_Z b -> (a <= py_round x <= b)%Z.
Proof.
  intros x a b [Ha Hb]. unfold py_round.
  assert (Hfa : (a <= Qfloor x)%Z).
  { rewrite <- (Qfloor_Z a). now apply Qfloor_resp_le. }
  assert (Hfb : (Qfloor x <= b)%Z).
  { rewrite <- (Qfloor_Z b). now apply Qfloor_resp_le. }
  pose proof (Qfloor_le x) as Hf.
  assert (Hup : inject_Z (Qfloor x) < x -> (Qfloor x + 1 <= b)%Z).
  { intros Hlt. assert (Hq : inject_Z (Qfloor x) < inject_Z b) by lra.
    rewrite <- Zlt_Qlt in Hq. lia. }
  destruct (Qcompare_spec (x - inject_Z (Qfloor x)) (1 # 2)) as [E | E | E].
  - destruct (Z.even (Qfloor x)); [lia|].
    split; [lia|]. apply Hup. lra.
  - lia.
  - split; [lia|]. apply Hup. lra.
Qed.

(** C2 (amended).  For a non-empty list of issues and a store that answers,
    the returned total is an integer between 10 and 100 that lies within
    1/2 of the clamped total, where the clamped total is the sum of the
    unrounded timing, severity and risk sub-scores, plus 0.5 (18 - age)
    when age <= 18, plus 2 (count - 1) when 35 <= age <= 55 and
    count >= 2, clamped to [10, 100].  Each returned sub-score lies within
    1/2 of its unrounded value.  At age 10 the prevention bonus is 4. *)
Theorem necessity_total_rounded : forall c age issue_ids,
  issue_ids <> [] ->
  budget c = None ->
  exists res,
    calculate_ortho_necessity_score age issue_ids c = (Returned res, c)
    /\ Qabs (inject_Z (total_score res)
             - specified_total (working c) age issue_ids) <= 1 # 2
    /\ (10 <= total_score res <= 100)%Z
    /\ Qabs (inject_Z (timing_score res) - timing_value (working c) age)
       <= 1 # 2
    /\ Qabs (inject_Z (severity_score res)
             - severity_value (working c) issue_ids) <= 1 # 2
    /\ Qabs (inject_Z (risk_score res)
             - risk_value (working c) age issue_ids) <= 1 # 2
    /\ 10 <= specified_total (working c) age issue_ids <= 100
    /\ prevention_bonus 10 == 4.
Proof.
  intros c age issue_ids Hne Hb.
  destruct issue_ids as [|i rest]; [congruence|].
  unfold calculate_ortho_necessity_score, try_except, bind,
    _calculate_timing_score, _calculate_severity_score, _calculate_risk_score,
    bind.
  rewrite (execute_select_answers _ (select_timing_score age) c Hb).
  unfold ret. cbv beta iota.
  rewrite (execute_select_answers _ (select_severities (i :: rest)) c Hb).
  cbv beta iota.
  rewrite (execute_select_answers _ (select_next_threshold age) c Hb).
  cbv beta iota.
  match goal with |- context [_interpret_necessity_score ?x] =>
    destruct (_interpret_necessity_score x) as [txt urg] end.
  eexists. split; [reflexivity|].
  cbn [total_score timing_score severity_score risk_score].
  assert (Htotal : forall x,
            x == specified_total (working c) age (i :: rest) ->
            Qabs (inject_Z (py_round x)
                  - specified_total (working c) age (i :: rest)) <= 1 # 2
            /\ (10 <= py_round x <= 100)%Z).
  { intros x Hx. split.
    - rewrite <- Hx. apply py_round_near.
    - apply py_round_range. rewrite Hx. apply clamp_total_bounds. }
  match goal with |- Qabs (inject_Z (py_round ?x) - _) <= _ /\ _ =>
    destruct (Htotal x) as [H1 H2]
  end.
  { unfold specified_total. apply clamp_total_comp.
    unfold timing_value, severity_value, risk_value,
      prevention_bonus, adult_complexity_bonus.
    destruct (age <=? 18)%Z;
      destruct ((35 <=? age)%Z && (age <=? 55)%Z
                && (2 <=? List.length (i :: rest))%nat); ring. }
  split; [exact H1|]. split; [exact H2|].
  split; [apply py_round_near|]. split; [apply py_round_near|].
  split; [apply py_round_near|].
  split; [apply clamp_total_bounds | reflexivity].
Qed.

Lemma necessity_total_rounded_witness :
  exists res,
    calculate_ortho_necessity_score 10 [1%Z]
      (fresh_connection (regenerated (T := decimal_text) 5 percent_db) None)
    = (Returned res,
       fresh_connection (regenerated (T := decimal_text) 5 percent_db) None)
    /\ total_score res = 92%Z
    /\ Qabs (inject_Z (total_score res) - (2767 # 30)) <= 1 # 2.
Proof.
  destruct (necessity_total_rounded
              (fresh_connection (regenerated (T := decimal_text) 5 percent_db) None)
              10 [1%Z])
    as (res & Hrun & Htot & _).
  - discriminate.
  - reflexivity.
  - exists res. split; [exact Hrun|].
    pose proof Hrun as Hrun'. vm_compute in Hrun'.
    injection Hrun' as Hres. split; [rewrite <- Hres; reflexivity|].
    assert (Hspec : specified_total
                      (working (fresh_connection
                                  (regenerated (T := decimal_text) 5 percent_db)
                                  None)) 10 [1%Z] == 2767 # 30)
      by (vm_compute; reflexivity).
    rewrite <- Hspec. exact Htot.
Defined.

Section C5.
Context {T : FloatText}.

Lemma dropped_returns : forall A (m : M A) c c',
  (m ;;; ret tt) c = (Returned tt, c') ->
  exists a, m c = (Returned a, c').
Proof.
  intros A m c c' H. unfold bind, ret in H.
  destruct (m c) as [[a|e] c1]; [|discriminate].
  injection H as <-. now exists a.
Qed.

Lemma dropped_raises : forall A (m : M A) c e c',
  (m ;;; ret tt) c = (Raised e, c') -> m c = (Raised e, c').
Proof.
  intros A m c e c' H. unfold bind, ret in H.
  destruct (m c) as [[a|e1] c1]; [discriminate|].
  destruct e1, e. inversion H; subst; reflexivity.
Qed.

Lemma step_then : forall (step : M unit) rest c c',
  run_steps (step :: rest) c = (Returned tt, c') ->
  exists c1, step c = (Returned tt, c1)
             /\ run_steps rest c1 = (Returned tt, c').
Proof.
  intros step rest c c' H. cbn [run_steps] in H. unfold bind in H.
  destruct (step c) as [[[]|e] c1]; [|discriminate].
  exists c1. split; [reflexivity | exact H].
Qed.

(** C5.  What the run does when the store fails: when the first k
    generators return one after the other and the next one raises, the run
    raises the same error and ends with the store as committed by those k
    generators.  Their tables stay regenerated, the tables of the failing
    and of the later generators and the base tables are as before the run,
    and no transaction is left open: the rollback of the run undoes the
    failing generator only.  Every run that raises is of this kind. *)
Theorem regenerate_all_commits_per_table : forall c,
  committed c = working c ->
  (forall k e ck c'',
     (k < 5)%nat ->
     run_steps (firstn k generator_steps) c = (Returned tt, ck) ->
     nth k generator_steps (ret tt) ck = (Raised e, c'') ->
     exists c',
       generate_all_evidence_data c = (Raised e, c')
       /\ committed c' = regenerated k (committed c)
       /\ working c' = regenerated k (committed c)
       /\ untouched_after k (committed c) (committed c'))
  /\ (forall e c',
        generate_all_evidence_data c = (Raised e, c') ->
        exists k ck c'',
          (k < 5)%nat
          /\ run_steps (firstn k generator_steps) c = (Returned tt, ck)
          /\ nth k generator_steps (ret tt) ck = (Raised e, c'')).
Proof.
  intros c Hclean. split.
  - intros k e ck c'' Hk Hsteps Hfail.
    assert (Hend : forall cf,
              committed cf = regenerated k (committed c) ->
              exists c',
                (conn_rollback ;;; raise (A := evidence_summary) e) cf
                = (Raised e, c')
                /\ committed c' = regenerated k (committed c)
                /\ working c' = regenerated k (committed c)
                /\ untouched_after k (committed c) (committed c')).
    { intros cf Hcf.
      eexists. split; [reflexivity|]. cbn [committed working].
      split; [exact Hcf|]. split; [exact Hcf|].
      rewrite Hcf. apply regenerated_untouched. lia. }
    unfold generate_all_evidence_data, try_except, bind at 1.
    unfold generator_steps in Hsteps, Hfail.
    destruct k as [|k].
    { cbn [firstn run_steps nth] in Hsteps, Hfail.
      injection Hsteps as <-.
      apply dropped_raises in Hfail.
      unfold bind. rewrite Hfail.
      destruct (generate_age_risk_profiles_atomic _ _ _ Hfail)
        as (_ & E1 & _).
      destruct (E1 e eq_refl) as [_ Hc].
      apply (Hend c''). exact Hc. }
    cbn [firstn] in Hsteps.
    apply step_then in Hsteps as (c1 & H1 & Hsteps).
    apply dropped_returns in H1 as (r1 & H1).
    destruct (generate_age_risk_profiles_atomic _ _ _ H1) as (R1 & _ & _).
    destruct (R1 r1 eq_refl) as (_ & Hw1 & Hc1).
    unfold bind. rewrite H1.
    destruct k as [|k].
    { cbn [firstn run_steps nth] in Hsteps, Hfail.
      injection Hsteps as <-.
      apply dropped_raises in Hfail. rewrite Hfail.
      destruct (generate_issue_treatment_effects_atomic _ _ _ Hfail)
        as (_ & E2 & _).
      destruct (E2 e eq_refl) as [_ Hc].
      apply (Hend c''). rewrite Hc, Hc1, Hclean. reflexivity. }
    cbn [firstn] in Hsteps.
    apply step_then in Hsteps as (c2 & H2 & Hsteps).
    apply dropped_returns in H2 as (r2 & H2).
    destruct (generate_issue_treatment_effects_atomic _ _ _ H2)
      as (R2 & _ & _).
    destruct (R2 r2 eq_refl) as (_ & Hw2 & Hc2).
    rewrite H2.
    destruct k as [|k].
    { cbn [firstn run_steps nth] in Hsteps, Hfail.
      injection Hsteps as <-.
      apply dropped_raises in Hfail. rewrite Hfail.
      destruct (generate_age_timing_benefits_atomic _ _ _ Hfail)
        as (_ & E3 & _).
      destruct (E3 e eq_refl) as [_ Hc].
      apply (Hend c''). rewrite Hc, Hc2, Hw1, Hclean. reflexivity. }
    cbn [firstn] in Hsteps.
    apply step_then in Hsteps as (c3 & H3 & Hsteps).
    apply dropped_returns in H3 as (r3 & H3).
    destruct (generate_age_timing_benefits_atomic _ _ _ H3) as (R3 & _ & _).
    destruct (R3 r3 eq_refl) as (_ & Hw3 & Hc3).
    rewrite H3.
    destruct k as [|k].
    { cbn [firstn run_steps nth] in Hsteps, Hfail.
      injection Hsteps as <-.
      apply dropped_raises in Hfail. rewrite Hfail.
      destruct (generate_future_scenarios_atomic _ _ _ Hfail)
        as (_ & E4 & _).
      destruct (E4 e eq_refl) as [_ Hc].
      apply (Hend c''). rewrite Hc, Hc3, Hw2, Hw1, Hclean. reflexivity. }
    cbn [firstn] in Hsteps.
    apply step_then in Hsteps as (c4 & H4 & Hsteps).
    apply dropped_returns in H4 as (r4 & H4).
    destruct (generate_future_scenarios_atomic _ _ _ H4) as (R4 & _ & _).
    destruct (R4 r4 eq_refl) as (_ & Hw4 & Hc4).
    rewrite H4.
    destruct k as [|k]; [|lia].
    cbn [firstn run_steps nth] in Hsteps, Hfail.
    injection Hsteps as <-.
    apply dropped_raises in Hfail. rewrite Hfail.
    destruct (generate_economic_impacts_atomic _ _ _ Hfail) as (_ & E5 & _).
    destruct (E5 e eq_refl) as [_ Hc].
    apply (Hend c''). rewrite Hc, Hc4, Hw3, Hw2, Hw1, Hclean. reflexivity.
  - intros e c' Hrun.
    unfold generate_all_evidence_data, try_except, bind in Hrun.
    unfold generator_steps.
    destruct (generate_age_risk_profiles c) as [[r1|e1] c1] eqn:H1.
    2:{ exists 0%nat, c, c1. split; [lia|]. split; [reflexivity|].
        cbn [nth]. unfold bind. rewrite H1.
        unfold conn_rollback, raise in Hrun. congruence. }
    destruct (generate_issue_treatment_effects c1) as [[r2|e2] c2] eqn:H2.
    2:{ exists 1%nat, c1, c2. split; [lia|]. split.
        - cbn [firstn run_steps]. unfold bind at 1 2. rewrite H1. reflexivity.
        - cbn [nth]. unfold bind. rewrite H2.
          unfold conn_rollback, raise in Hrun. congruence. }
    destruct (generate_age_timing_benefits c2) as [[r3|e3] c3] eqn:H3.
    2:{ exists 2%nat, c2, c3. split; [lia|]. split.
        - cbn [firstn run_steps]. unfold bind, ret. rewrite H1, H2.
          reflexivity.
        - cbn [nth]. unfold bind. rewrite H3.
          unfold conn_rollback, raise in Hrun. congruence. }
    destruct (generate_future_scenarios c3) as [[r4|e4] c4] eqn:H4.
    2:{ exists 3%nat, c3, c4. split; [lia|]. split.
        - cbn [firstn run_steps]. unfold bind, ret. rewrite H1, H2, H3.
          reflexivity.
        - cbn [nth]. unfold bind. rewrite H4.
          unfold conn_rollback, raise in Hrun. congruence. }
    destruct (generate_economic_impacts c4) as [[r5|e5] c5] eqn:H5.
    2:{ exists 4%nat, c4, c5. split; [lia|]. split.
        - cbn [firstn run_steps]. unfold bind, ret. rewrite H1, H2, H3, H4.
          reflexivity.
        - cbn [nth]. unfold bind. rewrite H5.
          unfold conn_rollback, raise in Hrun. congruence. }
    unfold conn_commit, ret in Hrun. discriminate.
Qed.
End C5.

Lemma regenerate_all_commits_per_table_witness :
  exists c',
    generate_all_evidence_data (T := decimal_text)
      (fresh_connection percent_db (Some 14%nat)) = (Raised StoreError, c')
    /\ working c' = committed c'
    /\ committed c' = regenerated (T := decimal_text) 1 percent_db
    /\ List.length (age_risk_profiles (committed c')) = 5%nat
    /\ age_risk_profiles percent_db = [].
Proof.
  destruct (generate_age_risk_profiles (T := decimal_text)
              (fresh_connection percent_db (Some 14%nat))) as [r1 c1] eqn:E1.
  pose proof E1 as E1'. vm_compute in E1'. injection E1' as Hr1 Hc1.
  destruct (generate_issue_treatment_effects (T := decimal_text) c1)
    as [r2 c2] eqn:E2.
  pose proof E2 as E2'. rewrite <- Hc1 in E2'. vm_compute in E2'.
  injection E2' as Hr2 Hc2.
  destruct (proj1 (regenerate_all_commits_per_table (T := decimal_text)
                     (fresh_connection percent_db (Some 14%nat)) eq_refl)
              1%nat StoreError c1 c2)
    as (c' & Hrun & Hc & Hw & _).
  - lia.
  - cbn [firstn generator_steps run_steps]. unfold bind at 1 2.
    rewrite E1, <- Hr1. reflexivity.
  - cbn [nth generator_steps]. unfold bind. rewrite E2, <- Hr2. reflexivity.
  - exists c'. split; [exact Hrun|]. split; [congruence|].
    split; [exact Hc|]. split; [|reflexivity].
    rewrite Hc. vm_compute. reflexivity.
Defined.

(** ** Further properties *)

(** An age-group label gives its range of the table, and any other text
    the range 1 to 100; the range always lies within 1 and 100 with
    min <= max. *)
Theorem parse_age_group_range : forall age_group,
  (In (age_group, _parse_age_group age_group) age_ranges
   \/ (_parse_age_group age_group = (1, 100)%Z
       /\ ~ In age_group (map fst age_ranges)))
  /\ (1 <= fst (_parse_age_group age_group)
      <= snd (_parse_age_group age_group))%Z
  /\ (snd (_parse_age_group age_group) <= 100)%Z.
Proof.
  intros g. unfold _parse_age_group, age_ranges.
  repeat match goal with
         | |- context [String.eqb g ?l] =>
             destruct (String.eqb_spec g l) as [->|]
         end;
    (split; [|simpl; lia]);
    try (left; simpl; tauto).
  right. split; [reflexivity|]. simpl. intuition congruence.
Qed.

(** The weight of an evidence level lies between 1/2 and 5, also for a
    level that is missing or not in the table; every level that the
    literature client assigns to a study type has a weight in the table. *)
Theorem evidence_weight_bounds :
  (forall evidence_level,
     1 # 2 <= _get_evidence_level_weight evidence_level <= 5)
  /\ (forall l,
        In (l, _get_evidence_level_weight (Some l)) tier_weights
        \/ (_get_evidence_level_weight (Some l) = 1 # 2
            /\ ~ In l (map fst tier_weights)))
  /\ _get_evidence_level_weight None = 1 # 2
  /\ (forall study_type,
        In (map_study_type_to_evidence_level study_type,
            _get_evidence_level_weight
              (Some (map_study_type_to_evidence_level study_type)))
           tier_weights).
Proof.
  split; [|split; [|split]].
  - intros [l|]; unfold _get_evidence_level_weight;
      repeat match goal with |- context [String.eqb ?a ?b] =>
               destruct (String.eqb a b) end; split; discriminate.
  - intros l. unfold _get_evidence_level_weight, tier_weights.
    repeat match goal with
           | |- context [String.eqb l ?k] =>
               destruct (String.eqb_spec l k) as [->|]
           end;
      try (left; simpl; tauto).
    right. split; [reflexivity|]. simpl. intuition congruence.
  - reflexivity.
  - intros s. unfold map_study_type_to_evidence_level.
    repeat match goal with |- context [String.eqb s ?k] =>
             destruct (String.eqb s k) end; simpl; tauto.
Qed.

Lemma is_digit_value : forall c,
  is_digit c = true -> exists v, decimal_value c = Some v /\ (0 <= v <= 9)%Z.
Proof.
  intros c H. unfold is_digit in H. unfold decimal_value in *.
  destruct (find (fun zero => (zero <=? c)%N && (c <=? zero + 9)%N)
                 decimal_zeros) as [zero|] eqn:E; [|discriminate].
  apply find_some in E as [_ E]. apply andb_true_iff in E as [E1 E2].
  apply N.leb_le in E1, E2. eexists. split; [reflexivity | lia].
Qed.

Lemma digits_value_from_nonneg : forall s acc,
  all_digits s = true -> (0 <= acc)%Z -> (0 <= digits_value_from acc s)%Z.
Proof.
  unfold all_digits.
  induction s as [|c t IH]; intros acc Hd Ha;
    cbn [digits_value_from forallb] in *; [assumption|].
  apply andb_true_iff in Hd as [Hc Ht]. apply IH; [assumption|].
  destruct (is_digit_value c Hc) as (v & -> & Hv). lia.
Qed.

Lemma is_digit_not_dot : forall c, is_digit c = true -> N.eqb c dot_char = false.
Proof.
  intros c H. destruct (N.eqb_spec c dot_char) as [->|]; [|reflexivity].
  vm_compute in H. discriminate H.
Qed.

Lemma split_dot_digits : forall d rest,
  all_digits d = true ->
  split_dot (d ++ rest)
  = ((d ++ fst (split_dot rest))%list, snd (split_dot rest)).
Proof.
  unfold all_digits.
  induction d as [|c t IH]; intros rest H; cbn [app split_dot forallb] in *.
  - now destruct (split_dot rest).
  - apply andb_true_iff in H as [Hc Ht].
    rewrite (is_digit_not_dot c Hc), (IH rest Ht). reflexivity.
Qed.

Lemma all_digits_app : forall a b,
  all_digits a = true -> all_digits b = true -> all_digits (a ++ b) = true.
Proof.
  intros a b Ha Hb. unfold all_digits in *. rewrite forallb_app.
  now rewrite Ha, Hb.
Qed.

(** The parts of a number text are digits. *)
Lemma split_dot_number : forall n,
  is_number n ->
  all_digits (fst (split_dot n)) = true /\ all_digits (snd (split_dot n)) = true.
Proof.
  intros n (d1 & dot & d2 & -> & _ & H1 & H2 & [-> | ->]).
  - cbn [app]. rewrite (split_dot_digits d1 d2 H1).
    assert (E : split_dot d2 = (d2, [])).
    { rewrite <- (app_nil_r d2) at 1. rewrite (split_dot_digits d2 [] H2).
      cbn [split_dot fst snd]. now rewrite app_nil_r. }
    rewrite E. cbn [fst snd]. split; [now apply all_digits_app | reflexivity].
  - rewrite (split_dot_digits d1 ([dot_char] ++ d2) H1).
    cbn [app split_dot fst snd]. rewrite N.eqb_refl. cbn [fst snd].
    rewrite app_nil_r. auto.
Qed.

Lemma py_float_nonneg : forall n, is_number n -> 0 <= py_float n.
Proof.
  intros n Hn. destruct (split_dot_number n Hn) as [Hi Hf].
  unfold py_float. destruct (split_dot n) as [i f]. cbn [fst snd] in Hi, Hf.
  rewrite Qred_correct.
  assert (H1 : (0 <= digits_value i)%Z)
    by (apply digits_value_from_nonneg; [assumption | lia]).
  assert (H2 : (0 <= digits_value f)%Z)
    by (apply digits_value_from_nonneg; [assumption | lia]).
  assert (H3 : (0 < 10 ^ Z.of_nat (List.length f))%Z)
    by (apply Z.pow_pos_nonneg; lia).
  assert (0 <= inject_Z (digits_value i)) by (unfold Qle; simpl; lia).
  assert (0 <= inject_Z (digits_value f)
               / inject_Z (10 ^ Z.of_nat (List.length f))).
  { apply Qle_shift_div_l; [unfold Qlt; simpl; lia|].
    rewrite Qmult_0_l. unfold Qle. simpl. lia. }
  lra.
Qed.

(** ** The character [倍] in the bytes of a text *)

Lemma continuation_range : forall b n,
  continuation b = Some n ->
  (128 <= N_of_ascii b < 192)%N /\ n = (N_of_ascii b - 128)%N.
Proof.
  intros b n H. unfold continuation in H.
  destruct ((128 <=? N_of_ascii b)%N && (N_of_ascii b <? 192)%N) eqn:E;
    [|discriminate].
  injection H as <-. apply andb_true_iff in E as [E1 E2].
  apply N.leb_le in E1. apply N.ltb_lt in E2. auto.
Qed.

Lemma ascii_of_code : forall b n, N_of_ascii b = n -> b = ascii_of_N n.
Proof. intros b n <-. now rewrite ascii_N_embedding. Qed.

(** One step of the decoder: the character at the head of a text takes a
    non-empty chunk of its bytes, and the chunk of [倍] is its encoding. *)
Lemma code_points_head : forall b0 t0,
  exists cp chunk rest,
    String b0 t0 = chunk ++ rest
    /\ chunk <> ""
    /\ code_points (String b0 t0) = cp :: code_points rest
    /\ (cp = 20493%N -> chunk = "倍").
Proof.
  intros b0 t0.
  assert (Hbad : exists cp chunk rest,
            String b0 t0 = chunk ++ rest /\ chunk <> ""
            /\ 65533%N :: code_points t0 = cp :: code_points rest
            /\ (cp = 20493%N -> chunk = "倍")).
  { exists 65533%N, (String b0 ""), t0.
    split; [reflexivity|]. split; [discriminate|]. split; [reflexivity|].
    discriminate. }
  cbn [code_points].
  destruct (N_of_ascii b0 <? 128)%N eqn:E0.
  { apply N.ltb_lt in E0. exists (N_of_ascii b0), (String b0 ""), t0.
    split; [reflexivity|]. split; [discriminate|]. split; [reflexivity|].
    intros Hc. lia. }
  destruct t0 as [|b1 t1].
  { exists 65533%N, (String b0 ""), "".
    split; [reflexivity|]. split; [discriminate|]. split; [reflexivity|].
    discriminate. }
  destruct (continuation b1) as [n1|] eqn:C1; [|exact Hbad].
  destruct (continuation_range _ _ C1) as [R1 ->].
  destruct ((192 <=? N_of_ascii b0)%N && (N_of_ascii b0 <? 224)%N
            && (128 <=? (N_of_ascii b0 - 192) * 64 + (N_of_ascii b1 - 128))%N)
    eqn:E2.
  { apply andb_true_iff in E2 as [E2 _]. apply andb_true_iff in E2 as [Ea Eb].
    apply N.leb_le in Ea. apply N.ltb_lt in Eb.
    eexists. exists (String b0 (String b1 "")), t1.
    split; [reflexivity|]. split; [discriminate|]. split; [reflexivity|].
    intros Hc. lia. }
  destruct t1 as [|b2 t2]; [exact Hbad|].
  destruct (continuation b2) as [n2|] eqn:C2; [|exact Hbad].
  destruct (continuation_range _ _ C2) as [R2 ->].
  match goal with |- context [if ?cond then _ else _] =>
    destruct cond eqn:E3 end.
  { apply andb_true_iff in E3 as [E3 _]. apply andb_true_iff in E3 as [E3 _].
    apply andb_true_iff in E3 as [Ea Eb].
    apply N.leb_le in Ea. apply N.ltb_lt in Eb.
    eexists. exists (String b0 (String b1 (String b2 ""))), t2.
    split; [reflexivity|]. split; [discriminate|]. split; [reflexivity|].
    intros Hc.
    assert (H0 : N_of_ascii b0 = 229%N) by lia.
    assert (H1 : N_of_ascii b1 = 128%N) by lia.
    assert (H2 : N_of_ascii b2 = 141%N) by lia.
    rewrite (ascii_of_code _ _ H0), (ascii_of_code _ _ H1),
      (ascii_of_code _ _ H2).
    reflexivity. }
  destruct t2 as [|b3 t3]; [exact Hbad|].
  destruct (continuation b3) as [n3|] eqn:C3; [|exact Hbad].
  destruct (continuation_range _ _ C3) as [R3 ->].
  match goal with |- context [if ?cond then _ else _] =>
    destruct cond eqn:E4 end; [|exact Hbad].
  apply andb_true_iff in E4 as [E4 _]. apply andb_true_iff in E4 as [_ Ec].
  apply N.leb_le in Ec.
  eexists. exists (String b0 (String b1 (String b2 (String b3 "")))), t3.
  split; [reflexivity|]. split; [discriminate|]. split; [reflexivity|].
  intros Hc. lia.
Qed.

Lemma length_append : forall a b : string,
  String.length (a ++ b) = (String.length a + String.length b)%nat.
Proof. induction a; intros; simpl; [reflexivity | now rewrite IHa]. Qed.

Lemma code_points_bai : forall s,
  In 20493%N (code_points s) -> contains "倍" s = true.
Proof.
  intros s H. apply contains_spec.
  assert (G : forall n s, (String.length s <= n)%nat ->
            In 20493%N (code_points s) ->
            exists pre post, s = pre ++ "倍" ++ post).
  { clear s H. induction n as [|n IH]; intros s Hlen Hin.
    - destruct s; [destruct Hin | simpl in Hlen; lia].
    - destruct s as [|b0 t0]; [destruct Hin|].
      destruct (code_points_head b0 t0)
        as (cp & chunk & rest & Hs & Hne & Hcp & Hbai).
      rewrite Hcp in Hin. destruct Hin as [Hc | Hin].
      + exists "", rest. rewrite Hs, (Hbai Hc). reflexivity.
      + destruct (IH rest) as (pre & post & Hrest); [|exact Hin|].
        * assert (Hl : String.length (String b0 t0)
                       = (String.length chunk + String.length rest)%nat)
            by (rewrite Hs; apply length_append).
          destruct chunk; [congruence|]. simpl in Hl, Hlen. lia.
        * exists (chunk ++ pre), post.
          rewrite Hs, Hrest. now rewrite append_assoc. }
  exact (G (String.length s) s (le_n _) H).
Qed.

(** A value read from a risk text is never below -100; it is not negative
    when the text holds a per cent sign after a number; and a value read
    from a multiplier comes with the direction increase. *)
Theorem extract_value_bounds : forall s v,
  fst (_parse_risk_description s) = Some v ->
  - (100) <= v
  /\ ((exists pre n, occurs_at percent_sign (code_points s) pre n) -> 0 <= v)
  /\ ((forall pre n, ~ occurs_at percent_sign (code_points s) pre n) ->
      snd (_parse_risk_description s) = increase).
Proof.
  intros s v H. unfold _parse_risk_description in *. cbn [fst snd] in *.
  unfold extract_value in H.
  destruct (re_search percent_sign (code_points s)) as [n|] eqn:Ep.
  - injection H as <-.
    destruct (re_search_sound _ _ _ Ep) as (pre & (post & _ & Hn) & _).
    pose proof (py_float_nonneg n Hn) as Hv.
    split; [lra|]. split; [intros _; exact Hv|].
    intros Hno. exfalso.
    destruct (re_search_sound _ _ _ Ep) as (pre' & Ho & _).
    exact (Hno _ _ Ho).
  - destruct (re_search bai (code_points s)) as [n|] eqn:Eb; [|discriminate].
    assert (Hv2 : Qred (py_float n * 100 - 100) = v) by congruence.
    clear H. rewrite <- Hv2. clear Hv2.
    destruct (re_search_sound _ _ _ Eb) as (pre & (post & Hs & Hn) & _).
    pose proof (py_float_nonneg n Hn) as Hv.
    split; [rewrite Qred_correct; lra|]. split.
    + intros (pre' & n' & Ho). exfalso.
      exact (re_search_complete _ _ Ep _ _ Ho).
    + intros _. unfold extract_direction.
      assert (Hc : contains "倍" s = true).
      { apply code_points_bai. rewrite Hs. unfold bai.
        apply in_or_app. right. apply in_or_app. right. now left. }
      rewrite Hc, !orb_true_r. reflexivity.
Qed.

Lemma extract_value_bounds_witness :
  _parse_risk_description "矯正しない場合のリスクは0.5倍" = (Some (- (50)), increase)
  /\ - (100) <= - (50).
Proof.
  split; [vm_compute; reflexivity|].
  refine (proj1 (extract_value_bounds "矯正しない場合のリスクは0.5倍" (- (50)) _)).
  vm_compute. reflexivity.
Defined.

Lemma add_to_category_perm : forall c f categories,
  Permutation (all_categorized (add_to_category c f categories))
              (all_categorized categories ++ [f]).
Proof.
  intros c f. unfold all_categorized.
  induction categories as [|[c' l] rest IH]; [reflexivity|].
  cbn [add_to_category]. destruct (String.eqb c' c); simpl.
  - rewrite <- !app_assoc. apply Permutation_app_head.
    apply Permutation_app_comm.
  - rewrite <- app_assoc. now apply Permutation_app_head.
Qed.

Lemma add_to_category_classes : forall (P : string -> effect_row -> Prop) c f categories,
  P c f ->
  (forall k l, In (k, l) categories -> l <> [] /\ forall x, In x l -> P k x) ->
  forall k l, In (k, l) (add_to_category c f categories) ->
    l <> [] /\ forall x, In x l -> P k x.
Proof.
  intros P c f categories Hf. induction categories as [|[c' l'] rest IH];
    intros Hall k l Hin.
  - destruct Hin as [[= <- <-] | []]. split; [discriminate|].
    intros x [<- | []]. exact Hf.
  - cbn [add_to_category] in Hin.
    destruct (String.eqb_spec c' c) as [->|Hne].
    + destruct Hin as [[= <- <-] | Hin].
      * destruct (Hall c l' (or_introl eq_refl)) as [_ Hl].
        split; [now destruct l'|].
        intros x Hx. apply in_app_or in Hx as [Hx | [<- | []]]; auto.
      * apply Hall. now right.
    + destruct Hin as [[= <- <-] | Hin].
      * apply Hall. now left.
      * apply IH; [|assumption]. intros k0 l0 H0. apply Hall. now right.
Qed.

Lemma match_category_known : forall text,
  In (match_category category_keywords text) effect_categories.
Proof.
  intros text. unfold effect_categories, category_keywords.
  cbn [match_category].
  repeat match goal with
         | |- context [if ?b then _ else _] => destruct b
         end; simpl; tauto.
Qed.

Lemma categorize_findings_keys : forall findings category l,
  In (category, l) (_categorize_findings findings) ->
  In category effect_categories.
Proof.
  intros findings category l Hin. unfold _categorize_findings in Hin.
  assert (G : forall fs categories,
            (forall k, In k (map fst categories) -> In k effect_categories) ->
            forall k, In k (map fst (fold_left categorize_step fs categories)) ->
                      In k effect_categories).
  { induction fs as [|f t IH]; intros categories Hk k Hin'; [now apply Hk|].
    simpl in Hin'. apply (IH (categorize_step categories f)); [|exact Hin'].
    intros k0 Hk0. unfold categorize_step in Hk0.
    rewrite add_to_category_keys in Hk0.
    destruct (existsb _ (map fst categories)); [now apply Hk|].
    apply in_app_or in Hk0 as [Hk0 | [<- | []]]; [now apply Hk|].
    apply match_category_known. }
  apply (G findings [] (fun k (H : In k []) => match H with end) category).
  apply in_map_iff. exists (category, l). split; [reflexivity | exact Hin].
Qed.

(** The categories partition the findings: every finding is in exactly one
    category, which is one of the eight category names and the one its
    description matches; no category is listed twice or empty. *)
Theorem categorize_findings_partition : forall findings,
  NoDup (map fst (_categorize_findings findings))
  /\ Permutation (all_categorized (_categorize_findings findings)) findings
  /\ (forall category l,
        In (category, l) (_categorize_findings findings) ->
        In category effect_categories
        /\ l <> []
        /\ forall f, In f l ->
             match_category category_keywords (er_description_ja f) = category).
Proof.
  intros findings. unfold _categorize_findings.
  assert (G : forall fs categories,
    NoDup (map fst categories) ->
    (forall k l, In (k, l) categories ->
       l <> [] /\ forall x, In x l ->
         match_category category_keywords (er_description_ja x) = k) ->
    NoDup (map fst (fold_left categorize_step fs categories))
    /\ Permutation (all_categorized (fold_left categorize_step fs categories))
                   (all_categorized categories ++ fs)
    /\ (forall k l, In (k, l) (fold_left categorize_step fs categories) ->
          l <> [] /\ forall x, In x l ->
            match_category category_keywords (er_description_ja x) = k)).
  { induction fs as [|f t IH]; intros categories Hnd Hcl.
    - simpl. rewrite app_nil_r. auto.
    - simpl. destruct (IH (categorize_step categories f)) as (H1 & H2 & H3).
      + now apply add_to_category_NoDup.
      + unfold categorize_step.
        apply (add_to_category_classes
                 (fun k x => match_category category_keywords
                               (er_description_ja x) = k));
          [reflexivity | assumption].
      + split; [exact H1|]. split; [|exact H3].
        rewrite H2. unfold categorize_step.
        rewrite add_to_category_perm, <- app_assoc. reflexivity. }
  destruct (G findings []) as (H1 & H2 & H3).
  - constructor.
  - intros k l [].
  - split; [exact H1|]. split; [exact H2|].
    intros category l Hin. destruct (H3 _ _ Hin) as [Hne Hcl].
    split; [|split; assumption].
    destruct l as [|f l]; [congruence|].
    rewrite <- (Hcl f (or_introl eq_refl)).
    unfold effect_categories, category_keywords. cbn [match_category].
    repeat match goal with
           | |- context [if ?b then _ else _] => destruct b
           end; simpl; tauto.
Qed.

Lemma effect_step_votes : forall tw we ids ni nd nn f,
  snd (effect_step (tw, we, ids, (ni, nd, nn)) f)
  = ((ni + direction_votes increase [f])%nat,
     (nd + direction_votes decrease [f])%nat,
     (nn + direction_votes neutral [f])%nat).
Proof.
  intros tw we ids ni nd nn f. unfold effect_step, direction_votes.
  cbn [filter]. unfold effect_contributes.
  destruct (er_effect_value f) as [v|]; simpl;
    [destruct (Qtruthy v); simpl; [destruct (er_effect_direction f); simpl|]|];
    f_equal; try f_equal; lia.
Qed.

Lemma direction_votes_cons : forall d f l,
  direction_votes d (f :: l)
  = (direction_votes d [f] + direction_votes d l)%nat.
Proof.
  intros d f l. unfold direction_votes. cbn [filter].
  destruct (effect_contributes f && direction_eqb (er_effect_direction f) d);
    reflexivity.
Qed.

Lemma fold_effect_step_votes : forall l tw we ids ni nd nn,
  snd (fold_left effect_step l (tw, we, ids, (ni, nd, nn)))
  = ((ni + direction_votes increase l)%nat,
     (nd + direction_votes decrease l)%nat,
     (nn + direction_votes neutral l)%nat).
Proof.
  induction l as [|f t IH]; intros tw we ids ni nd nn.
  - simpl. unfold direction_votes. simpl. f_equal; [f_equal|]; lia.
  - cbn [fold_left].
    pose proof (effect_step_votes tw we ids ni nd nn f) as Hs.
    destruct (effect_step (tw, we, ids, (ni, nd, nn)) f)
      as [[[tw' we'] ids'] [[ni' nd'] nn']].
    simpl in Hs. injection Hs as -> -> ->.
    rewrite IH, !(direction_votes_cons _ f t). f_equal; [f_equal|]; lia.
Qed.

Lemma fold_effect_step_weight : forall l acc,
  0 <= fst (fst (fst acc)) ->
  0 <= fst (fst (fst (fold_left effect_step l acc))).
Proof.
  induction l as [|f t IH]; intros acc Ha; simpl; [assumption|].
  apply IH. destruct acc as [[[tw we] ids] [[ni nd] nn]].
  unfold effect_step. destruct (er_effect_value f) as [v|]; [|assumption].
  destruct (Qtruthy v); [|assumption]. simpl in *.
  pose proof (weight_pos (er_evidence_level f)). lra.
Qed.

Section EffectRows.
Context {T : FloatText}.

Lemma effects_for_category_row :
  forall issue_id issue_name category category_findings row,
    In row (effects_for_category issue_id issue_name category
              category_findings) ->
    (exists n_increase n_decrease n_neutral,
       snd (accumulate_effect category_findings)
       = (n_increase, n_decrease, n_neutral)
       /\ ite_effect_direction row
          = if (n_increase <? n_decrease)%nat then decrease else increase)
    /\ ite_effect_category row = category
    /\ 0 <= ite_effect_value row
    /\ 0 < ite_confidence_level row <= 95 # 100.
Proof.
  intros issue_id issue_name category cfs row H.
  assert (Hne : cfs <> []) by (intros ->; exact H).
  unfold effects_for_category in H.
  destruct (accumulate_effect cfs) as [[[tw we] ids] [[ni nd] nn]].
  destruct (Qltb 0 tw) eqn:Hp; [|contradiction].
  apply Qltb_true in Hp. destruct H as [<- | []].
  cbn [ite_effect_direction ite_effect_category ite_effect_value
       ite_confidence_level snd].
  split; [exists ni, nd, nn; split; reflexivity|].
  split; [reflexivity|].
  split; [apply Qabs_nonneg|].
  split; [|apply py_min_le_r].
  apply py_min_pos; [|reflexivity].
  destruct cfs as [|f t]; [congruence|].
  apply Qlt_shift_div_l; [|lra].
  unfold Qlt. cbn. lia.
Qed.

(** The stored direction is the majority of the contributing findings,
    increase on a tie. *)
Theorem effect_direction_majority :
  forall issue_id issue_name category category_findings row,
    In row (effects_for_category issue_id issue_name category
              category_findings) ->
    ite_effect_direction row
    = (if (direction_votes increase category_findings
           <? direction_votes decrease category_findings)%nat
       then decrease else increase)
    /\ ite_effect_category row = category
    /\ 0 <= ite_effect_value row
    /\ 0 < ite_confidence_level row <= 95 # 100.
Proof.
  intros issue_id issue_name category cfs row H.
  destruct (effects_for_category_row _ _ _ _ _ H)
    as ((ni & nd & nn & Hcounts & Hdir) & Hrest).
  split; [|exact Hrest].
  pose proof (fold_effect_step_votes cfs 0 0 [] O O O) as Hv.
  fold (accumulate_effect cfs) in Hv. rewrite Hcounts in Hv.
  simpl in Hv. injection Hv as -> -> ->. exact Hdir.
Qed.

Lemma default_effects_rows : forall issue_id issue_name row,
  In row (_generate_default_effects issue_id issue_name) ->
  ite_issue_id row = issue_id
  /\ ite_effect_direction row = decrease
  /\ In (ite_effect_category row) effect_categories
  /\ 25 <= ite_effect_value row <= 90
  /\ ite_confidence_level row = 1 # 2
  /\ ite_calculated_from row = "default".
Proof.
  intros issue_id issue_name row H. unfold _generate_default_effects in H.
  apply in_map_iff in H as ([[category value] dir] & <- & Hin).
  unfold default_effects_table in Hin.
  repeat match type of Hin with
         | context [String.eqb issue_name ?k] =>
             destruct (String.eqb issue_name k)
         end;
    simpl in Hin;
    destruct Hin as [[= <- <- <-] | [[= <- <- <-] | []]];
    simpl; (repeat split; try discriminate);
    unfold effect_categories; simpl; tauto.
Qed.

(** An issue without findings gets its two default effects; an issue
    whose findings all lack a usable value gets no effect at all. *)
Theorem effects_for_issue_edges : forall issue_id issue_name findings,
  (findings = [] ->
   effects_for_issue issue_id issue_name findings
   = _generate_default_effects issue_id issue_name
   /\ List.length (effects_for_issue issue_id issue_name findings) = 2%nat)
  /\ (findings <> [] ->
      (forall f, In f findings -> effect_contributes f = false) ->
      effects_for_issue issue_id issue_name findings = []).
Proof.
  intros issue_id issue_name findings. split.
  - intros ->. split; [reflexivity|].
    unfold effects_for_issue, _generate_default_effects. rewrite length_map.
    unfold default_effects_table.
    repeat match goal with
           | |- context [String.eqb issue_name ?k] =>
               destruct (String.eqb issue_name k)
           end; reflexivity.
  - intros Hne Hall. destruct findings as [|f0 fs]; [congruence|].
    unfold effects_for_issue.
    destruct (flat_map _ (_categorize_findings (f0 :: fs)))
      as [|row rows] eqn:E; [reflexivity|].
    exfalso.
    assert (Hin : In row (flat_map
              (fun '(category, category_findings) =>
                 effects_for_category issue_id issue_name category
                   category_findings)
              (_categorize_findings (f0 :: fs))))
      by (rewrite E; now left).
    apply in_flat_map in Hin as ([category cfs] & Hcat & Hrow).
    destruct (effects_for_category_provenance _ _ _ _ _ Hrow) as (_ & Hc & _).
    apply Hc. destruct (filter effect_contributes cfs) as [|x xs] eqn:Ef;
      [reflexivity|].
    assert (Hx : In x (filter effect_contributes cfs))
      by (rewrite Ef; now left).
    apply filter_In in Hx as [Hx Hxc].
    unfold _categorize_findings in Hcat.
    destruct (categorize_members _ _ _ _ Hcat x Hx) as [Hf | (l0 & [] & _)].
    rewrite (Hall x Hf) in Hxc. discriminate.
Qed.

(** What every row written by the effect aggregation satisfies. *)
Theorem treatment_effect_rows_invariants : forall c,
  budget c = None ->
  exists rows c',
    generate_issue_treatment_effects c = (Returned rows, c')
    /\ issue_treatment_effects (working c') = rows
    /\ forall row, In row rows ->
         0 <= ite_effect_value row
         /\ ite_effect_direction row <> neutral
         /\ 0 < ite_confidence_level row <= 95 # 100
         /\ In (ite_effect_category row) effect_categories
         /\ exists di, In di (dental_issues (working c))
                       /\ di_issue_id di = ite_issue_id row.
Proof.
  intros c Hb.
  destruct (generate_issue_treatment_effects c) as [r c'] eqn:Hrun.
  destruct (generate_issue_treatment_effects_atomic _ _ _ Hrun)
    as (Hr & _ & Hn).
  destruct (Hn Hb) as [_ [rows ->]].
  destruct (Hr rows eq_refl) as (-> & Hw & _).
  exists (treatment_effect_rows (working c)), c'.
  split; [reflexivity|]. split; [now rewrite Hw|].
  intros row Hin. unfold treatment_effect_rows in Hin.
  rewrite (fold_app_flat_map _ _
             (fun issue => effects_for_issue (fst issue) (snd issue)
                             (select_issue_findings (fst issue) (working c))))
    in Hin.
  simpl in Hin. apply in_flat_map in Hin as ([issue_id issue_name] & Hi & Hin).
  unfold select_issues in Hi. apply in_map_iff in Hi as (di & [= <- <-] & Hdi).
  cbn [fst snd] in Hin. unfold effects_for_issue in Hin.
  destruct (select_issue_findings (di_issue_id di) (working c))
    as [|f0 fs] eqn:Es.
  - destruct (default_effects_rows _ _ _ Hin) as (Hid & Hd & Hcat & Hv & Hc & _).
    split; [lra|]. split; [rewrite Hd; discriminate|].
    split; [rewrite Hc; split; [reflexivity | discriminate]|].
    split; [exact Hcat|]. exists di. split; [exact Hdi | now rewrite Hid].
  - apply in_flat_map in Hin as ([category cfs] & Hcat & Hrow).
    destruct (effects_for_category_row _ _ _ _ _ Hrow)
      as ((ni & nd & nn & _ & Hd) & Hk & Hv & Hc).
    destruct (effects_for_category_provenance _ _ _ _ _ Hrow) as (Hid & _ & _).
    split; [exact Hv|]. split.
    + rewrite Hd. destruct (_ <? _)%nat; discriminate.
    + split; [exact Hc|]. split.
      * rewrite Hk. exact (categorize_findings_keys _ _ _ Hcat).
      * exists di. split; [exact Hdi | now rewrite Hid].
Qed.
End EffectRows.

Lemma effect_direction_majority_witness :
  exists row,
    In row (effects_for_category (T := decimal_text) 1 "叢生" "caries_risk"
              [ {| er_effect_value := Some 42; er_effect_direction := decrease;
                   er_description_ja := "齲蝕リスク42%低下";
                   er_evidence_level := Some "1b"; er_paper_id := 7 |} ])
    /\ ite_effect_direction row = decrease.
Proof.
  destruct (effects_for_category (T := decimal_text) 1 "叢生" "caries_risk"
              [ {| er_effect_value := Some 42; er_effect_direction := decrease;
                   er_description_ja := "齲蝕リスク42%低下";
                   er_evidence_level := Some "1b"; er_paper_id := 7 |} ])
    as [|row rest] eqn:E.
  - vm_compute in E. discriminate.
  - exists row. split; [now left|].
    assert (Hin : In row
              (effects_for_category (T := decimal_text) 1 "叢生" "caries_risk"
                 [ {| er_effect_value := Some 42;
                      er_effect_direction := decrease;
                      er_description_ja := "齲蝕リスク42%低下";
                      er_evidence_level := Some "1b"; er_paper_id := 7 |} ]))
      by (rewrite E; now left).
    rewrite (proj1 (effect_direction_majority (T := decimal_text)
                      _ _ _ _ row Hin)).
    reflexivity.
Defined.

Lemma treatment_effect_rows_invariants_witness :
  exists rows c',
    generate_issue_treatment_effects (T := decimal_text)
      (fresh_connection percent_db None) = (Returned rows, c')
    /\ forall row, In row rows -> 0 <= ite_effect_value row.
Proof.
  destruct (treatment_effect_rows_invariants (T := decimal_text)
              (fresh_connection percent_db None) eq_refl)
    as (rows & c' & Hrun & _ & Hall).
  exists rows, c'. split; [exact Hrun|].
  intros row Hin. exact (proj1 (Hall row Hin)).
Defined.

(** ** Rounding *)

Lemma py_round_between : forall x (a b : Z),
  inject_Z a <= x <= inject_Z b -> (a <= py_round x <= b)%Z.
Proof.
  intros x a b [Ha Hb]. unfold py_round.
  pose proof (Qfloor_le x) as Hf. pose proof (Qlt_floor x) as Hf'.
  assert (Hfa : (a <= Qfloor x)%Z).
  { rewrite <- (Qfloor_Z a). now apply Qfloor_resp_le. }
  assert (Hfb : (Qfloor x <= b)%Z).
  { rewrite <- (Qfloor_Z b). now apply Qfloor_resp_le. }
  assert (Hup : inject_Z (Qfloor x) < x -> (Qfloor x + 1 <= b)%Z).
  { intros Hlt. assert (Hq : inject_Z (Qfloor x) < inject_Z b) by lra.
    rewrite <- Zlt_Qlt in Hq. lia. }
  destruct (Qcompare_spec (x - inject_Z (Qfloor x)) (1 # 2)) as [E | E | E].
  - destruct (Z.even (Qfloor x)); [lia|].
    split; [lia|]. apply Hup. lra.
  - lia.
  - split; [lia|]. apply Hup. lra.
Qed.

(** ** The store as the scorer uses it *)

Lemma execute_select_cases : forall A (q : db -> A) c,
  (exists c1, execute_select q c = (Returned (q (working c)), c1)
              /\ working c1 = working c /\ committed c1 = committed c)
  \/ execute_select q c = (Raised StoreError, c).
Proof.
  intros A q [cm wk [[|n]|]]; unfold execute_select, spend; simpl.
  - now right.
  - left. eexists. split; [reflexivity|]. split; reflexivity.
  - left. eexists. split; [reflexivity|]. split; reflexivity.
Qed.

Lemma interpret_bands : forall total,
  10 <= total <= 100 ->
  (snd (_interpret_necessity_score total) = "緊急"
   /\ (85 <= py_round total <= 100)%Z)
  \/ (snd (_interpret_necessity_score total) = "高"
      /\ (70 <= py_round total <= 85)%Z)
  \/ (snd (_interpret_necessity_score total) = "中"
      /\ (50 <= py_round total <= 70)%Z)
  \/ (snd (_interpret_necessity_score total) = "低"
      /\ (30 <= py_round total <= 50)%Z)
  \/ (snd (_interpret_necessity_score total) = "最小"
      /\ (10 <= py_round total <= 30)%Z).
Proof.
  intros total [Hlo Hhi]. unfold _interpret_necessity_score.
  destruct (Qle_bool 85 total) eqn:E1.
  { apply Qle_bool_iff in E1. left. split; [reflexivity|].
    apply py_round_between. split; [exact E1 | exact Hhi]. }
  assert (H1 : total < 85).
  { apply Qnot_le_lt. intros H. apply Qle_bool_iff in H. congruence. }
  destruct (Qle_bool 70 total) eqn:E2.
  { apply Qle_bool_iff in E2. right. left. split; [reflexivity|].
    apply py_round_between. split; [exact E2 | apply Qlt_le_weak; exact H1]. }
  assert (H2 : total < 70).
  { apply Qnot_le_lt. intros H. apply Qle_bool_iff in H. congruence. }
  destruct (Qle_bool 50 total) eqn:E3.
  { apply Qle_bool_iff in E3. right. right. left. split; [reflexivity|].
    apply py_round_between. split; [exact E3 | apply Qlt_le_weak; exact H2]. }
  assert (H3 : total < 50).
  { apply Qnot_le_lt. intros H. apply Qle_bool_iff in H. congruence. }
  destruct (Qle_bool 30 total) eqn:E4.
  { apply Qle_bool_iff in E4. right. right. right. left. split; [reflexivity|].
    apply py_round_between. split; [exact E4 | apply Qlt_le_weak; exact H3]. }
  assert (H4 : total < 30).
  { apply Qnot_le_lt. intros H. apply Qle_bool_iff in H. congruence. }
  right. right. right. right. split; [reflexivity|].
  apply py_round_between. split; [exact Hlo | apply Qlt_le_weak; exact H4].
Qed.

(** The scorer only reads; its total stays within 10 and 100 whatever the
    tables hold, and the urgency label names the band of the total. *)
Theorem necessity_score_bands : forall age issue_ids c res c',
  issue_ids <> [] ->
  calculate_ortho_necessity_score age issue_ids c = (Returned res, c') ->
  working c' = working c
  /\ committed c' = committed c
  /\ (10 <= total_score res <= 100)%Z
  /\ (res = error_score
      \/ (urgency res = "緊急" /\ (85 <= total_score res)%Z)
      \/ (urgency res = "高" /\ (70 <= total_score res <= 85)%Z)
      \/ (urgency res = "中" /\ (50 <= total_score res <= 70)%Z)
      \/ (urgency res = "低" /\ (30 <= total_score res <= 50)%Z)
      \/ (urgency res = "最小" /\ (total_score res <= 30)%Z)).
Proof.
  intros age issue_ids c res c' Hne H.
  destruct issue_ids as [|i rest]; [congruence|].
  unfold calculate_ortho_necessity_score, try_except, bind,
    _calculate_timing_score, _calculate_severity_score, _calculate_risk_score,
    bind in H.
  assert (Herr : forall c0, working c0 = working c -> committed c0 = committed c ->
            ret error_score c0 = (Returned res, c') ->
            working c' = working c
            /\ committed c' = committed c
            /\ (10 <= total_score res <= 100)%Z
            /\ (res = error_score
                \/ (urgency res = "緊急" /\ (85 <= total_score res)%Z)
                \/ (urgency res = "高" /\ (70 <= total_score res <= 85)%Z)
                \/ (urgency res = "中" /\ (50 <= total_score res <= 70)%Z)
                \/ (urgency res = "低" /\ (30 <= total_score res <= 50)%Z)
                \/ (urgency res = "最小" /\ (total_score res <= 30)%Z))).
  { intros c0 Hw Hc E. unfold ret in E. injection E as <- <-.
    split; [exact Hw|]. split; [exact Hc|]. split; [simpl; lia|]. now left. }
  destruct (execute_select_cases _ (select_timing_score age) c)
    as [(c1 & E1 & W1 & C1) | E1]; rewrite E1 in H; unfold ret in H;
    cbv beta iota in H; [|now apply (Herr c)].
  destruct (execute_select_cases _ (select_severities (i :: rest)) c1)
    as [(c2 & E2 & W2 & C2) | E2]; rewrite E2 in H;
    cbv beta iota in H; [|apply (Herr c1); assumption].
  destruct (execute_select_cases _ (select_next_threshold age) c2)
    as [(c3 & E3 & W3 & C3) | E3]; rewrite E3 in H;
    cbv beta iota in H; [|apply (Herr c2); [congruence | congruence | exact H]].
  clear Herr E1 E2 E3.
  match type of H with context [_interpret_necessity_score ?x] =>
    assert (Hbd : 10 <= x <= 100) by apply clamp_total_bounds;
    remember x as total eqn:Htotal
  end.
  clear Htotal.
  pose proof (interpret_bands total Hbd) as Hb.
  pose proof (py_round_between total 10 100 Hbd) as Hr.
  destruct (_interpret_necessity_score total) as [txt urg].
  injection H as <- <-. cbn [total_score urgency snd] in Hb |- *.
  split; [congruence|]. split; [congruence|]. split; [exact Hr|].
  right. destruct Hb as [[-> Hb] | [[-> Hb] | [[-> Hb] | [[-> Hb] | [-> Hb]]]]].
  - left. split; [reflexivity | lia].
  - right. left. split; [reflexivity | lia].
  - right. right. left. split; [reflexivity | lia].
  - right. right. right. left. split; [reflexivity | lia].
  - right. right. right. right. split; [reflexivity | lia].
Qed.

Lemma necessity_score_bands_witness :
  exists res c',
    calculate_ortho_necessity_score 10 [1%Z]
      (fresh_connection (regenerated (T := decimal_text) 5 percent_db) (Some 2%nat))
    = (Returned res, c')
    /\ (10 <= total_score res <= 100)%Z.
Proof.
  destruct (calculate_ortho_necessity_score 10 [1%Z]
      (fresh_connection (regenerated (T := decimal_text) 5 percent_db)
         (Some 2%nat))) as [r c'] eqn:E.
  pose proof E as E'. vm_compute in E'. injection E' as Hr Hc.
  destruct r as [res|e]; [|discriminate].
  exists res, c'. split; [reflexivity|].
  refine (proj1 (proj2 (proj2 (necessity_score_bands 10 [1%Z] _ res c' _ E)))).
  discriminate.
Defined.

(** ** The severity sub-score *)

Lemma insert_sorted_In : forall x y l,
  In x (insert_sorted y l) <-> x = y \/ In x l.
Proof.
  intros x y. induction l as [|z t IH]; simpl.
  - intuition.
  - destruct (Qltb y z); simpl; [intuition|]. rewrite IH. intuition.
Qed.

Lemma py_sorted_In : forall x l, In x (py_sorted l) <-> In x l.
Proof.
  intros x l. unfold py_sorted.
  assert (G : forall l acc,
            In x (fold_left (fun acc x => insert_sorted x acc) l acc)
            <-> In x l \/ In x acc).
  { induction l0 as [|y t IH]; intros acc; simpl.
    - intuition.
    - rewrite IH, insert_sorted_In. intuition. }
  rewrite G. simpl. intuition.
Qed.

Lemma removelast_In : forall (x : Q) l, In x (removelast l) -> In x l.
Proof.
  intros x. induction l as [|y t IH]; simpl; [auto|].
  destruct t as [|z t']; [intros []|].
  intros [-> | H]; [now left | right; now apply IH].
Qed.

Lemma py_sum_nonneg : forall l,
  (forall x, In x l -> 0 <= x) -> 0 <= py_sum l.
Proof.
  induction l as [|x t IH]; intros H.
  - unfold py_sum. simpl. apply Qle_refl.
  - rewrite py_sum_cons.
    pose proof (IH (fun y Hy => H y (or_intror Hy))).
    pose proof (H x (or_introl eq_refl)). lra.
Qed.

Lemma py_max_list_range : forall l x lo hi,
  lo <= x <= hi -> (forall y, In y l -> lo <= y <= hi) ->
  lo <= py_max_list x l <= hi.
Proof.
  unfold py_max_list. induction l as [|y t IH]; intros x lo hi Hx H; simpl.
  - exact Hx.
  - apply IH; [|intros z Hz; apply H; now right].
    destruct (Qltb x y); [apply H; now left | exact Hx].
Qed.

Lemma severity_of_range : forall results,
  (forall p, In p results -> 0 <= snd p <= 100) ->
  0 <= severity_of results <= 40.
Proof.
  intros results H. unfold severity_of.
  assert (Hs : forall x, In x (map snd results) -> 0 <= x <= 100).
  { intros x Hx. apply in_map_iff in Hx as (p & <- & Hp). now apply H. }
  destruct (map snd results) as [|first others]; [split; discriminate|].
  pose proof (py_max_list_range others first 0 100
                (Hs first (or_introl eq_refl))
                (fun y Hy => Hs y (or_intror Hy))) as [Hlo Hhi].
  destruct (1 <? List.length (first :: others))%nat.
  - split; [|apply py_min_le_l].
    assert (Hsum : 0 <= py_sum (removelast (py_sorted (first :: others)))).
    { apply py_sum_nonneg. intros x Hx.
      apply (Hs x). apply py_sorted_In. now apply removelast_In. }
    unfold py_min.
    destruct (Qltb _ 40); [|discriminate].
    assert (0 <= (py_max_list first others
                  + py_sum (removelast (py_sorted (first :: others))) * (1 # 2))
                 / 100).
    { apply Qle_shift_div_l; [reflexivity | lra]. }
    lra.
  - split.
    + assert (0 <= py_max_list first others / 100)
        by (apply Qle_shift_div_l; [reflexivity | lra]).
      lra.
    + assert (py_max_list first others / 100 <= 1)
        by (apply Qle_shift_div_r; [reflexivity | lra]).
      lra.
Qed.

Lemma select_severities_members : forall issue_ids d p,
  In p (select_severities issue_ids d) ->
  exists di, In di (dental_issues d) /\ In (di_issue_id di) issue_ids
             /\ p = (di_issue_id di, di_severity_base_score di).
Proof.
  intros issue_ids d p H. unfold select_severities in H.
  apply in_map_iff in H as (di & <- & Hdi).
  apply filter_In in Hdi as [Hdi Hin].
  apply existsb_exists in Hin as (x & Hx & Heq). apply Z.eqb_eq in Heq.
  exists di. split; [exact Hdi|]. split; [now rewrite Heq | reflexivity].
Qed.

Lemma select_severities_same_ids : forall ids ids' d,
  (forall x, In x ids <-> In x ids') ->
  select_severities ids d = select_severities ids' d.
Proof.
  intros ids ids' d H. unfold select_severities. f_equal.
  apply filter_ext. intros di.
  destruct (existsb (Z.eqb (di_issue_id di)) ids) eqn:E;
    destruct (existsb (Z.eqb (di_issue_id di)) ids') eqn:E'; try reflexivity.
  - apply existsb_exists in E as (x & Hx & Heq).
    assert (existsb (Z.eqb (di_issue_id di)) ids' = true)
      by (apply existsb_exists; exists x; split; [now apply H | exact Heq]).
    congruence.
  - apply existsb_exists in E' as (x & Hx & Heq).
    assert (existsb (Z.eqb (di_issue_id di)) ids = true)
      by (apply existsb_exists; exists x; split; [now apply H | exact Heq]).
    congruence.
Qed.

(** The severity sub-score lies between 0 and 40 when the base severities
    lie between 0 and 100; it depends on the set of the ids only, and ids
    that name no issue count for nothing. *)
Theorem severity_score_bounds : forall d issue_ids,
  (forall di, In di (dental_issues d) ->
              0 <= di_severity_base_score di <= 100) ->
  0 <= severity_value d issue_ids <= 40
  /\ (forall ids', (forall x, In x issue_ids <-> In x ids') ->
                   severity_value d ids' = severity_value d issue_ids)
  /\ ((forall di, In di (dental_issues d) ->
                  ~ In (di_issue_id di) issue_ids) ->
      severity_value d issue_ids = 0).
Proof.
  intros d issue_ids H. split; [|split].
  - unfold severity_value. destruct issue_ids as [|i rest]; [split; discriminate|].
    apply severity_of_range. intros p Hp.
    destruct (select_severities_members _ _ _ Hp) as (di & Hdi & _ & ->).
    simpl. now apply H.
  - intros ids' Hsame. unfold severity_value.
    destruct issue_ids as [|i rest]; destruct ids' as [|i' rest'].
    + reflexivity.
    + exfalso. apply (proj2 (Hsame i')). now left.
    + exfalso. apply (proj1 (Hsame i)). now left.
    + now rewrite (select_severities_same_ids (i :: rest) (i' :: rest') d Hsame).
  - intros Hno. unfold severity_value.
    destruct issue_ids as [|i rest]; [reflexivity|].
    destruct (select_severities (i :: rest) d) as [|p ps] eqn:E; [reflexivity|].
    exfalso.
    destruct (select_severities_members (i :: rest) d p) as (di & Hdi & Hin & _).
    + rewrite E. now left.
    + exact (Hno di Hdi Hin).
Qed.

Lemma severity_score_bounds_witness :
  0 <= severity_value percent_db [1%Z; 9%Z] <= 40.
Proof.
  refine (proj1 (severity_score_bounds percent_db [1%Z; 9%Z] _)).
  intros di Hdi. vm_compute in Hdi. destruct Hdi as [<- | []].
  split; vm_compute; discriminate.
Defined.

(** ** The risk sub-score *)

Lemma select_next_threshold_spec : forall age d,
  next_threshold_of age (age_risk_profiles d) (select_next_threshold age d).
Proof.
  intros age d. unfold select_next_threshold.
  assert (G : forall l seen best,
            next_threshold_of age seen best ->
            next_threshold_of age (seen ++ l)
              (fold_left (fun best r =>
                 if (age <=? arp_age_threshold r)%Z then
                   match best with
                   | Some (t, _) =>
                       if (arp_age_threshold r <? t)%Z
                       then Some (arp_age_threshold r, arp_risk_value r)
                       else best
                   | None => Some (arp_age_threshold r, arp_risk_value r)
                   end
                 else best) l best)).
  { induction l as [|r t IH]; intros seen best Hb.
    - simpl. now rewrite app_nil_r.
    - cbn [fold_left].
      replace (seen ++ r :: t)%list with ((seen ++ [r]) ++ t)%list
        by (rewrite <- app_assoc; reflexivity).
      apply IH. clear IH.
      destruct (Z.leb_spec age (arp_age_threshold r)) as [Hge | Hlt].
      + destruct best as [[t0 v0]|].
        * destruct Hb as (Ht0 & (r0 & Hr0 & Hk0 & Hv0) & Hmin).
          destruct (Z.ltb_spec (arp_age_threshold r) t0) as [Hless | Hnot].
          -- split; [exact Hge|]. split.
             ++ exists r. split; [apply in_or_app; right; now left | auto].
             ++ intros r' Hr' Hage.
                apply in_app_or in Hr' as [Hr' | [<- | []]]; [|lia].
                specialize (Hmin r' Hr' Hage). lia.
          -- split; [exact Ht0|]. split.
             ++ exists r0. split; [apply in_or_app; now left | auto].
             ++ intros r' Hr' Hage.
                apply in_app_or in Hr' as [Hr' | [<- | []]]; [|lia].
                exact (Hmin r' Hr' Hage).
        * split; [exact Hge|]. split.
          -- exists r. split; [apply in_or_app; right; now left | auto].
          -- intros r' Hr' Hage.
             apply in_app_or in Hr' as [Hr' | [<- | []]]; [|lia].
             specialize (Hb r' Hr'). lia.
      + destruct best as [[t0 v0]|].
        * destruct Hb as (Ht0 & (r0 & Hr0 & Hk0 & Hv0) & Hmin).
          split; [exact Ht0|]. split.
          -- exists r0. split; [apply in_or_app; now left | auto].
          -- intros r' Hr' Hage.
             apply in_app_or in Hr' as [Hr' | [<- | []]]; [|lia].
             exact (Hmin r' Hr' Hage).
        * intros r' Hr'.
          apply in_app_or in Hr' as [Hr' | [<- | []]]; [|lia].
          exact (Hb r' Hr'). }
  apply (G (age_risk_profiles d) [] None). intros r [].
Qed.

Lemma py_max_zero_range : forall x, x <= 1 -> 0 <= py_max 0 x <= 1.
Proof.
  intros x Hx. unfold py_max. destruct (Qltb 0 x) eqn:E.
  - apply Qltb_true in E. lra.
  - lra.
Qed.

Lemma problem_factor_range : forall n : nat,
  9 # 10 <= py_min (15 # 10) (1 + inject_Z (Z.of_nat n - 1) * (1 # 10))
  <= 15 # 10.
Proof.
  intros n. split; [|apply py_min_le_l].
  unfold py_min. destruct (Qltb _ (15 # 10)); [|discriminate].
  assert (H : inject_Z (-1) <= inject_Z (Z.of_nat n - 1))
    by (rewrite <- Zle_Qle; lia).
  change (inject_Z (-1)) with (-(1)) in H. lra.
Qed.

(** The risk sub-score: it reads the row of the least threshold that is not
    below the age, is 0 when there is none or when that threshold is 15
    years away or more, and otherwise lies between 0 and 7/8 of the stored
    risk value. *)
Theorem risk_score_edges : forall d age issue_ids,
  ((forall r, In r (age_risk_profiles d) -> (arp_age_threshold r < age)%Z) ->
   risk_value d age issue_ids = 0)
  /\ (forall t v,
        select_next_threshold age d = Some (t, v) ->
        (age <= t)%Z
        /\ (exists r, In r (age_risk_profiles d)
                      /\ arp_age_threshold r = t /\ arp_risk_value r = v)
        /\ (forall r, In r (age_risk_profiles d) ->
                      (age <= arp_age_threshold r)%Z ->
                      (t <= arp_age_threshold r)%Z)
        /\ ((age + 15 <= t)%Z -> risk_value d age issue_ids == 0)
        /\ (0 <= v -> 0 <= risk_value d age issue_ids <= v * (7 # 8))).
Proof.
  intros d age issue_ids.
  pose proof (select_next_threshold_spec age d) as Hs.
  unfold risk_value. split.
  - intros Hall. destruct (select_next_threshold age d) as [[t v]|];
      [|reflexivity].
    destruct Hs as (Ht & (r & Hr & Hk & _) & _). specialize (Hall r Hr). lia.
  - intros t v E. rewrite E in Hs |- *.
    destruct Hs as (Ht & Hex & Hmin).
    split; [exact Ht|]. split; [exact Hex|]. split; [exact Hmin|].
    unfold risk_of.
    pose proof (problem_factor_range (List.length issue_ids)) as [Hp1 Hp2].
    set (pf := py_min (15 # 10)
                 (1 + inject_Z (Z.of_nat (List.length issue_ids) - 1) * (1 # 10)))
      in *.
    assert (Hy : 0 <= inject_Z (t - age) / 15).
    { apply Qle_shift_div_l; [reflexivity|].
      assert (inject_Z 0 <= inject_Z (t - age)) by (rewrite <- Zle_Qle; lia).
      change (inject_Z 0) with 0 in H. lra. }
    pose proof (py_max_zero_range (1 - inject_Z (t - age) / 15)
                  ltac:(lra)) as [Hu1 Hu2].
    split.
    + intros Hfar.
      assert (Hz : py_max 0 (1 - inject_Z (t - age) / 15) = 0).
      { unfold py_max. destruct (Qltb 0 _) eqn:Eb; [|reflexivity].
        apply Qltb_true in Eb. exfalso.
        assert (1 <= inject_Z (t - age) / 15).
        { apply Qle_shift_div_l; [reflexivity|].
          assert (inject_Z 15 <= inject_Z (t - age))
            by (rewrite <- Zle_Qle; lia).
          change (inject_Z 15) with 15 in H. lra. }
        lra. }
      rewrite Hz. field.
    + intros Hv.
      set (u := py_max 0 (1 - inject_Z (t - age) / 15)) in *.
      assert (Hq : v / 60 * 35 == v * (7 # 12)) by field.
      assert (Hform : u * (v / 60) * pf * 35 == u * pf * (v * (7 # 12))).
      { rewrite <- Hq. ring. }
      rewrite Hform.
      assert (Hup : 0 <= u * pf <= 15 # 10) by nra.
      split; nra.
Qed.

Lemma risk_score_edges_witness :
  risk_value (regenerated (T := decimal_text) 5 percent_db) 61 [1%Z] = 0.
Proof.
  refine (proj1 (risk_score_edges _ 61 [1%Z]) _).
  intros r Hr. vm_compute in Hr.
  repeat (destruct Hr as [<- | Hr]; [reflexivity|]). destruct Hr.
Defined.

(** Settles the comparisons of an integer with constants that the
    hypotheses decide. *)
Ltac decide_leb :=
  repeat match goal with
         | |- context [(?a <=? ?b)%Z] =>
             first [ rewrite (proj2 (Z.leb_le a b)) by lia
                   | rewrite (proj2 (Z.leb_gt a b)) by lia ]
         end.

Section Regenerated.
Context {T : FloatText}.

Lemma regenerated_tables : forall d,
  research_papers (regenerated 5 d) = research_papers d
  /\ dental_issues (regenerated 5 d) = dental_issues d
  /\ research_findings (regenerated 5 d) = research_findings d
  /\ age_risk_profiles (regenerated 5 d) = age_risk_rows d
  /\ issue_treatment_effects (regenerated 5 d) = treatment_effect_rows d
  /\ age_timing_benefits (regenerated 5 d) = timing_benefit_rows d
  /\ future_scenarios (regenerated 5 d) = build_scenarios
  /\ economic_impacts (regenerated 5 d) = economic_impact_rows.
Proof.
  intros d. repeat split.
Qed.

Lemma regenerated_idempotent : forall d,
  regenerated 5 (regenerated 5 d) = regenerated 5 d.
Proof. intros d. reflexivity. Qed.

(** Two runs in a row: the second leaves every table as the first left
    it, and neither changes the papers, the issues or the findings. *)
Theorem regenerate_all_twice : forall c s1 c1 s2 c2,
  committed c = working c ->
  generate_all_evidence_data c = (Returned s1, c1) ->
  generate_all_evidence_data c1 = (Returned s2, c2) ->
  committed c2 = committed c1
  /\ working c2 = working c1
  /\ research_papers (committed c2) = research_papers (committed c)
  /\ dental_issues (committed c2) = dental_issues (committed c)
  /\ research_findings (committed c2) = research_findings (committed c).
Proof.
  intros c s1 c1 s2 c2 Hclean H1 H2.
  destruct (generate_all_outcomes _ _ _ H1 Hclean) as (Hw1 & Hr1 & _).
  destruct (generate_all_outcomes _ _ _ H2 (eq_sym Hw1)) as (Hw2 & Hr2 & _).
  specialize (Hr1 s1 eq_refl). specialize (Hr2 s2 eq_refl).
  assert (E : committed c2 = committed c1).
  { rewrite Hr2, Hr1. apply regenerated_idempotent. }
  split; [exact E|]. split; [congruence|].
  rewrite E, Hr1. repeat split.
Qed.

Lemma select_timing_score_bands : forall age d,
  select_timing_score age d
  = match filter (fun b => (fst (fst b) <=? age)%Z && (age <=? snd (fst b))%Z)
                 (timing_bands (age_timing_benefits d)) with
    | [] => None
    | b :: _ => Some (snd b)
    end.
Proof.
  intros age d. unfold select_timing_score, timing_bands.
  induction (age_timing_benefits d) as [|r t IH]; [reflexivity|].
  cbn [map filter fst snd].
  destruct ((atb_age_min r <=? age)%Z && (age <=? atb_age_max r)%Z);
    [reflexivity | exact IH].
Qed.

Lemma timing_bands_regenerated : forall d,
  timing_bands (timing_benefit_rows d)
  = [ (7, 12, 100); (13, 18, 80); (19, 35, 60); (36, 60, 40);
      (61, 100, 20) ]%Z.
Proof.
  intros d. rewrite timing_benefit_rows_map. unfold timing_bands.
  rewrite map_map. reflexivity.
Qed.

(** After a regeneration the timing sub-score is 35, 28, 21, 14 and 7 for
    the five age groups from 7 to 100; the ladder of the code is used
    below 7 and above 100 only. *)
Theorem timing_score_after_regeneration : forall d age,
  (select_timing_score age (regenerated 5 d) = None
   <-> (age < 7 \/ 100 < age)%Z)
  /\ timing_value (regenerated 5 d) age
     == if (age <=? 12)%Z then 35
        else if (age <=? 18)%Z then 28
        else if (age <=? 35)%Z then 21
        else if (age <=? 60)%Z then 14
        else if (age <=? 100)%Z then 7
        else 10.
Proof.
  intros d age. unfold timing_value.
  rewrite select_timing_score_bands.
  change (age_timing_benefits (regenerated 5 d)) with (timing_benefit_rows d).
  rewrite timing_bands_regenerated. cbn [filter fst snd].
  unfold timing_of, timing_ladder.
  assert (Hage : (age < 7 \/ 7 <= age <= 12 \/ 13 <= age <= 18
                  \/ 19 <= age <= 25 \/ 26 <= age <= 35
                  \/ 36 <= age <= 40 \/ 41 <= age <= 60
                  \/ 61 <= age <= 100 \/ 100 < age)%Z) by lia.
  destruct Hage as [H | [H | [H | [H | [H | [H | [H | [H | H]]]]]]]];
    decide_leb; cbn [andb];
    (split; [split; [try discriminate; intros _; lia
                    | try reflexivity; lia]
            | reflexivity]).
Qed.
End Regenerated.

Lemma regenerate_all_twice_witness :
  exists s1 c1 s2 c2,
    generate_all_evidence_data (T := decimal_text)
      (fresh_connection percent_db None) = (Returned s1, c1)
    /\ generate_all_evidence_data (T := decimal_text) c1 = (Returned s2, c2)
    /\ committed c2 = committed c1.
Proof.
  destruct (generate_all_evidence_data (T := decimal_text)
              (fresh_connection percent_db None)) as [r1 c1] eqn:E1.
  pose proof E1 as E1'. vm_compute in E1'. injection E1' as Hr1 Hc1.
  destruct r1 as [s1|e1]; [|discriminate].
  destruct (generate_all_evidence_data (T := decimal_text) c1)
    as [r2 c2] eqn:E2.
  pose proof E2 as E2'. rewrite <- Hc1 in E2'. vm_compute in E2'.
  injection E2' as Hr2 Hc2.
  destruct r2 as [s2|e2]; [|discriminate].
  exists s1, c1, s2, c2. split; [reflexivity|]. split; [exact E2|].
  exact (proj1 (regenerate_all_twice (T := decimal_text)
                  (fresh_connection percent_db None) s1 c1 s2 c2
                  eq_refl E1 E2)).
Defined.

(** ** The shape of the age-risk table *)

Lemma select_risk_findings_In : forall threshold d row,
  In row (select_risk_findings threshold d) <->
  exists rf rp di,
    In rf (research_findings d) /\ In rp (research_papers d)
    /\ In di (dental_issues d)
    /\ rf_paper_id rf = rp_paper_id rp
    /\ rf_issue_id rf = Some (di_issue_id di)
    /\ rf_finding_type rf = "risk"
    /\ rf_effect_direction rf = increase
    /\ (threshold <= rf_applies_to_age_max rf)%Z
    /\ row = {| rr_effect_value := rf_effect_value rf;
                rr_effect_direction := rf_effect_direction rf;
                rr_confidence_interval := rf_confidence_interval rf;
                rr_applies_to_age_min := rf_applies_to_age_min rf;
                rr_applies_to_age_max := rf_applies_to_age_max rf;
                rr_evidence_level := rp_evidence_level rp;
                rr_issue_name_ja := di_issue_name_ja di |}.
Proof.
  intros threshold d row. unfold select_risk_findings. split.
  - intros H. apply in_flat_map in H as (rf & Hrf & H).
    apply in_flat_map in H as (rp & Hrp & H).
    apply in_flat_map in H as (di & Hdi & H).
    destruct (_ && _) eqn:E in H; [|contradiction].
    destruct H as [<- | []].
    apply andb_prop in E as [E E5]. apply andb_prop in E as [E E4].
    apply andb_prop in E as [E E3]. apply andb_prop in E as [E1 E2].
    exists rf, rp, di. repeat split; try assumption.
    + now apply Z.eqb_eq.
    + unfold option_Z_eqb in E2. destruct (rf_issue_id rf) as [x|];
        [|discriminate]. apply Z.eqb_eq in E2. now subst.
    + now apply String.eqb_eq.
    + destruct (rf_effect_direction rf); (reflexivity || discriminate).
    + now apply Z.leb_le.
  - intros (rf & rp & di & Hrf & Hrp & Hdi & E1 & E2 & E3 & E4 & E5 & ->).
    apply in_flat_map. exists rf. split; [exact Hrf|].
    apply in_flat_map. exists rp. split; [exact Hrp|].
    apply in_flat_map. exists di. split; [exact Hdi|].
    rewrite E1, E2, E3, E4. unfold option_Z_eqb.
    rewrite !Z.eqb_refl. rewrite (proj2 (Z.leb_le _ _) E5).
    cbn. left. rewrite <- E4. reflexivity.
Qed.

Lemma select_risk_findings_antitone : forall t t' d,
  (t' <= t)%Z ->
  select_risk_findings t d <> [] -> select_risk_findings t' d <> [].
Proof.
  intros t t' d Hle Hne.
  destruct (select_risk_findings t d) as [|row rows] eqn:E; [congruence|].
  assert (Hin : In row (select_risk_findings t d)) by (rewrite E; now left).
  apply select_risk_findings_In in Hin
    as (rf & rp & di & Hrf & Hrp & Hdi & E1 & E2 & E3 & E4 & E5 & Hrow).
  assert (Hin' : In row (select_risk_findings t' d)).
  { apply select_risk_findings_In. exists rf, rp, di.
    repeat split; try assumption. lia. }
  intros Hnil. rewrite Hnil in Hin'. exact Hin'.
Qed.

Lemma select_risk_findings_empty : forall t t' d,
  (t <= t')%Z ->
  select_risk_findings t d = [] -> select_risk_findings t' d = [].
Proof.
  intros t t' d Hle Hnil.
  destruct (select_risk_findings t' d) as [|row rows] eqn:E; [reflexivity|].
  exfalso. apply (select_risk_findings_antitone t' t d Hle); [|exact Hnil].
  rewrite E. discriminate.
Qed.

Section AgeRiskShape.
Context {T : FloatText}.

Lemma profiles_for_threshold_key_list : forall threshold findings,
  map arp_age_threshold (profiles_for_threshold threshold findings)
  = match findings with [] => [] | _ :: _ => [threshold] end.
Proof.
  intros threshold findings. destruct findings as [|f t]; [reflexivity|].
  destruct (profiles_for_threshold_row threshold (f :: t))
    as (row & -> & K & _); [discriminate|].
  simpl. now rewrite K.
Qed.

(** The thresholds that get a profile are an initial part of 12, 18, 25,
    40, 60, in this order and once each: a threshold has a row exactly
    when a finding qualifies for it, and a finding that qualifies for a
    threshold qualifies for every lower one. *)
Theorem age_risk_thresholds_prefix : forall d,
  exists k,
    map arp_age_threshold (age_risk_rows d) = firstn k age_thresholds
    /\ forall t, In t age_thresholds ->
         (In t (firstn k age_thresholds)
          <-> select_risk_findings t d <> []).
Proof.
  intros d. rewrite age_risk_rows_flat_map. unfold age_thresholds.
  cbn [flat_map]. rewrite !map_app, !profiles_for_threshold_key_list.
  destruct (select_risk_findings 12 d) as [|a1 l1] eqn:S12.
  { pose proof (select_risk_findings_empty 12 18 d ltac:(lia) S12) as S18.
    pose proof (select_risk_findings_empty 12 25 d ltac:(lia) S12) as S25.
    pose proof (select_risk_findings_empty 12 40 d ltac:(lia) S12) as S40.
    pose proof (select_risk_findings_empty 12 60 d ltac:(lia) S12) as S60.
    rewrite S18, S25, S40, S60. exists 0%nat. split; [reflexivity|].
    intros t [<- | [<- | [<- | [<- | [<- | []]]]]];
      rewrite ?S12, ?S18, ?S25, ?S40, ?S60; simpl;
      intuition (try discriminate; try lia; try congruence). }
  destruct (select_risk_findings 18 d) as [|a2 l2] eqn:S18.
  { pose proof (select_risk_findings_empty 18 25 d ltac:(lia) S18) as S25.
    pose proof (select_risk_findings_empty 18 40 d ltac:(lia) S18) as S40.
    pose proof (select_risk_findings_empty 18 60 d ltac:(lia) S18) as S60.
    rewrite S25, S40, S60. exists 1%nat. split; [reflexivity|].
    intros t [<- | [<- | [<- | [<- | [<- | []]]]]];
      rewrite ?S12, ?S18, ?S25, ?S40, ?S60; simpl;
      intuition (try discriminate; try lia; try congruence). }
  destruct (select_risk_findings 25 d) as [|a3 l3] eqn:S25.
  { pose proof (select_risk_findings_empty 25 40 d ltac:(lia) S25) as S40.
    pose proof (select_risk_findings_empty 25 60 d ltac:(lia) S25) as S60.
    rewrite S40, S60. exists 2%nat. split; [reflexivity|].
    intros t [<- | [<- | [<- | [<- | [<- | []]]]]];
      rewrite ?S12, ?S18, ?S25, ?S40, ?S60; simpl;
      intuition (try discriminate; try lia; try congruence). }
  destruct (select_risk_findings 40 d) as [|a4 l4] eqn:S40.
  { pose proof (select_risk_findings_empty 40 60 d ltac:(lia) S40) as S60.
    rewrite S60. exists 3%nat. split; [reflexivity|].
    intros t [<- | [<- | [<- | [<- | [<- | []]]]]];
      rewrite ?S12, ?S18, ?S25, ?S40, ?S60; simpl;
      intuition (try discriminate; try lia; try congruence). }
  destruct (select_risk_findings 60 d) as [|a5 l5] eqn:S60.
  { exists 4%nat. split; [reflexivity|].
    intros t [<- | [<- | [<- | [<- | [<- | []]]]]];
      rewrite ?S12, ?S18, ?S25, ?S40, ?S60; simpl;
      intuition (try discriminate; try lia; try congruence). }
  exists 5%nat. split; [reflexivity|].
  intros t [<- | [<- | [<- | [<- | [<- | []]]]]];
    rewrite ?S12, ?S18, ?S25, ?S40, ?S60; simpl;
    intuition (try discriminate; try lia; try congruence).
Qed.
End AgeRiskShape.

(** ** From an imported row to the age-risk table *)

Lemma parse_age_group_max : forall age_group,
  (12 <= snd (_parse_age_group age_group) <= 100)%Z
  /\ (1 <= fst (_parse_age_group age_group)
      <= snd (_parse_age_group age_group))%Z.
Proof.
  intros g. unfold _parse_age_group.
  repeat match goal with
         | |- context [String.eqb g ?l] => destruct (String.eqb g l)
         end; simpl; lia.
Qed.

Lemma extracted_finding_fields : forall paper_id issue_id text age_group ci,
  let f := extracted_finding paper_id issue_id text age_group ci in
  rf_paper_id f = paper_id
  /\ rf_issue_id f = issue_id
  /\ rf_finding_type f = "risk"
  /\ rf_effect_value f = extract_value text
  /\ rf_effect_direction f = extract_direction text
  /\ rf_applies_to_age_min f = fst (_parse_age_group age_group)
  /\ rf_applies_to_age_max f = snd (_parse_age_group age_group).
Proof.
  intros paper_id issue_id text age_group ci. unfold extracted_finding.
  unfold _parse_risk_description.
  destruct (_parse_age_group age_group) as [lo hi]. cbn. repeat split.
Qed.

Section Imported.
Context {T : FloatText}.

(** A finding taken from an imported row always has the type risk and an
    age range within 1 and 100 that reaches 12; when its text reads as an
    increase and its paper and its issue are in the store, the threshold
    12 gets a profile. *)
Theorem imported_finding_reaches_profile :
  forall d paper_id issue_id text age_group ci rp di,
    In (extracted_finding paper_id (Some issue_id) text age_group ci)
       (research_findings d) ->
    In rp (research_papers d) -> rp_paper_id rp = paper_id ->
    In di (dental_issues d) -> di_issue_id di = issue_id ->
    extract_direction text = increase ->
    In 12%Z (map arp_age_threshold (age_risk_rows d)).
Proof.
  intros d paper_id issue_id text age_group ci rp di Hf Hrp Hpid Hdi Hiid Hdir.
  pose proof (extracted_finding_fields paper_id (Some issue_id) text
                age_group ci) as (F1 & F2 & F3 & _ & F5 & _ & F7).
  pose proof (parse_age_group_max age_group) as [[Hmax _] _].
  assert (Hne : select_risk_findings 12 d <> []).
  { intros Hnil.
    assert (Hin : In {| rr_effect_value :=
                          rf_effect_value
                            (extracted_finding paper_id (Some issue_id) text
                               age_group ci);
                        rr_effect_direction :=
                          rf_effect_direction
                            (extracted_finding paper_id (Some issue_id) text
                               age_group ci);
                        rr_confidence_interval :=
                          rf_confidence_interval
                            (extracted_finding paper_id (Some issue_id) text
                               age_group ci);
                        rr_applies_to_age_min :=
                          rf_applies_to_age_min
                            (extracted_finding paper_id (Some issue_id) text
                               age_group ci);
                        rr_applies_to_age_max :=
                          rf_applies_to_age_max
                            (extracted_finding paper_id (Some issue_id) text
                               age_group ci);
                        rr_evidence_level := rp_evidence_level rp;
                        rr_issue_name_ja := di_issue_name_ja di |}
                     (select_risk_findings 12 d)).
    { apply select_risk_findings_In.
      exists (extracted_finding paper_id (Some issue_id) text age_group ci),
        rp, di.
      repeat split; try assumption; try congruence. }
    rewrite Hnil in Hin. exact Hin. }
  rewrite age_risk_rows_flat_map. unfold age_thresholds. cbn [flat_map].
  rewrite map_app, profiles_for_threshold_key_list.
  destruct (select_risk_findings 12 d) as [|a l]; [congruence|]. now left.
Qed.
End Imported.

Lemma imported_finding_reaches_profile_witness :
  In 12%Z (map arp_age_threshold (age_risk_rows (T := decimal_text) percent_db)).
Proof.
  refine (imported_finding_reaches_profile (T := decimal_text) percent_db
            7 1 "5年後齲蝕リスク42%上昇" "全年齢" None
            {| rp_paper_id := 7; rp_evidence_level := Some "1b" |}
            {| di_issue_id := 1; di_issue_name_ja := "叢生";
               di_severity_base_score := 80 |} _ _ _ _ _ _).
  - left. reflexivity.
  - left. reflexivity.
  - reflexivity.
  - left. reflexivity.
  - reflexivity.
  - vm_compute. reflexivity.
Defined.

(** ** The economic figures of an age *)

Lemma select_economic_impact_bands : forall age d,
  select_economic_impact age d
  = match filter (fun b => (fst (fst b) <=? age)%Z && (age <=? snd (fst b))%Z)
                 (economic_bands (economic_impacts d)) with
    | [] => None
    | b :: _ => Some (snd b)
    end.
Proof.
  intros age d. unfold select_economic_impact, economic_bands.
  induction (economic_impacts d) as [|r t IH]; [reflexivity|].
  cbn [map filter fst snd].
  destruct ((ei_age_min r <=? age)%Z && (age <=? ei_age_max r)%Z);
    [reflexivity | exact IH].
Qed.

Lemma economic_bands_regenerated :
  economic_bands economic_impact_rows
  = [ (7, 12, (300000, 1500000, 120000000 # 300000));
      (13, 18, (350000, 1225000, 875000000 # 3500000));
      (19, 35, (400000, 900000, 5000000000 # 40000000));
      (36, 60, (450000, 585000, 135000000 # 4500000));
      (61, 100, (500000, 300000, -200000000 # 5000000)) ]%Z.
Proof. vm_compute. reflexivity. Qed.

Section Economic.
Context {T : FloatText}.

(** After a regeneration, whatever the age: the net benefit is the
    savings minus the cost, the return is the net benefit in percent of
    the cost, the monthly benefit is the savings over 360 months; the net
    benefit is negative from 61 to 100, positive otherwise; outside 7 to
    100 the fixed figures are returned.  An error of the store is
    raised. *)
Theorem economic_impact_after_regeneration : forall d age c,
  working c = regenerated 5 d ->
  (budget c = Some 0%nat ->
   get_economic_impact age c = (Raised StoreError, c))
  /\ (budget c = None ->
      exists res,
        get_economic_impact age c = (Returned res, c)
        /\ eb_net_benefit res
           = (eb_future_savings res - eb_current_cost res)%Z
        /\ eb_roi res * inject_Z (eb_current_cost res)
           == inject_Z (eb_net_benefit res) * 100
        /\ eb_monthly_benefit res = (eb_future_savings res / 360)%Z
        /\ ((age < 7 \/ 100 < age)%Z -> res = default_economic_benefit)
        /\ ((eb_net_benefit res < 0)%Z <-> (61 <= age <= 100)%Z)).
Proof.
  intros d age c Hw. split.
  - intros Hb. unfold get_economic_impact, bind, execute_select, spend.
    rewrite Hb. reflexivity.
  - intros Hb. unfold get_economic_impact, bind.
    rewrite (execute_select_answers _ (select_economic_impact age) c Hb).
    unfold ret. eexists. split; [reflexivity|].
    rewrite select_economic_impact_bands, Hw.
    change (economic_impacts (regenerated 5 d)) with economic_impact_rows.
    rewrite economic_bands_regenerated. cbn [filter fst snd].
    assert (Hage : (age < 7 \/ 7 <= age <= 12 \/ 13 <= age <= 18
                    \/ 19 <= age <= 35 \/ 36 <= age <= 60
                    \/ 61 <= age <= 100 \/ 100 < age)%Z) by lia.
    destruct Hage as [H | [H | [H | [H | [H | [H | H]]]]]];
      decide_leb; cbn [andb economic_benefit_of];
      cbn [eb_net_benefit eb_future_savings eb_current_cost eb_roi
           eb_monthly_benefit default_economic_benefit];
      (split; [reflexivity|]); (split; [reflexivity|]);
      (split; [reflexivity|]);
      (split; [intros; try reflexivity; lia|]);
      (split; [intros Hn; try lia; discriminate Hn
              | intros; try lia; reflexivity]).
Qed.
End Economic.

Lemma economic_impact_after_regeneration_witness :
  exists res,
    get_economic_impact 65
      (fresh_connection (regenerated (T := decimal_text) 5 percent_db) None)
    = (Returned res,
       fresh_connection (regenerated (T := decimal_text) 5 percent_db) None)
    /\ (eb_net_benefit res < 0)%Z.
Proof.
  destruct (proj2 (economic_impact_after_regeneration (T := decimal_text)
                     percent_db 65
                     (fresh_connection
                        (regenerated (T := decimal_text) 5 percent_db) None)
                     eq_refl) eq_refl)
    as (res & Hrun & _ & _ & _ & _ & Hneg).
  exists res. split; [exact Hrun|]. apply Hneg. lia.
Defined.

Lemma scenarios_for_age_years : forall age rows,
  map fs_timeframe_years (scenarios_for_age age rows)
  = map snd
      (filter (fun b => (fst (fst b) <=? age)%Z && (age <=? snd (fst b))%Z)
         (map (fun r => (fs_applies_to_age_min r, fs_applies_to_age_max r,
                         fs_timeframe_years r)) rows)).
Proof.
  intros age. unfold scenarios_for_age.
  induction rows as [|r t IH]; [reflexivity|].
  cbn [map filter fst snd].
  destruct ((fs_applies_to_age_min r <=? age)%Z
            && (age <=? fs_applies_to_age_max r)%Z);
    cbn [map snd]; now rewrite IH.
Qed.

(** The scenario table does not depend on the store, and for every age
    from 7 to 100 exactly one scenario of each time frame applies, in the
    order 5, 10 and 20 years; no scenario applies to another age. *)
Theorem future_scenarios_cover_ages : forall c,
  budget c = None ->
  exists c',
    generate_future_scenarios c = (Returned build_scenarios, c')
    /\ future_scenarios (committed c') = build_scenarios
    /\ forall age,
         map fs_timeframe_years (scenarios_for_age age build_scenarios)
         = if (7 <=? age)%Z && (age <=? 100)%Z then [5; 10; 20]%Z else [].
Proof.
  intros c Hb.
  destruct (generate_future_scenarios c) as [r c'] eqn:Hrun.
  destruct (generate_future_scenarios_atomic _ _ _ Hrun) as (Hr & _ & Hn).
  destruct (Hn Hb) as [_ [rows ->]].
  destruct (Hr rows eq_refl) as (-> & _ & Hc).
  exists c'. split; [reflexivity|]. split; [now rewrite Hc|].
  intros age. rewrite scenarios_for_age_years.
  change (map (fun r => (fs_applies_to_age_min r, fs_applies_to_age_max r,
                         fs_timeframe_years r)) build_scenarios)
    with [ (7, 18, 5); (19, 40, 5); (41, 100, 5);
           (7, 18, 10); (19, 40, 10); (41, 100, 10);
           (7, 18, 20); (19, 40, 20); (41, 100, 20) ]%Z.
  cbn [filter fst snd].
  assert (Hage : (age < 7 \/ 7 <= age <= 18 \/ 19 <= age <= 40
                  \/ 41 <= age <= 100 \/ 100 < age)%Z) by lia.
  destruct Hage as [H | [H | [H | [H | H]]]]; decide_leb; reflexivity.
Qed.

Lemma future_scenarios_cover_ages_witness :
  exists c',
    generate_future_scenarios (fresh_connection empty_db None)
    = (Returned build_scenarios, c')
    /\ map fs_timeframe_years (scenarios_for_age 30 build_scenarios)
       = [5; 10; 20]%Z.
Proof.
  destruct (future_scenarios_cover_ages (fresh_connection empty_db None) eq_refl)
    as (c' & Hrun & _ & Hage).
  exists c'. split; [exact Hrun | exact (Hage 30%Z)].
Defined.

Section Summary.
Context {T : FloatText}.

Lemma age_risk_rows_length : forall d,
  (List.length (age_risk_rows d) <= 5)%nat.
Proof.
  intros d. rewrite <- (length_map arp_age_threshold).
  rewrite age_risk_rows_flat_map. unfold age_thresholds. cbn [flat_map].
  rewrite !map_app, !profiles_for_threshold_key_list, !length_app.
  destruct (select_risk_findings 12 d); destruct (select_risk_findings 18 d);
    destruct (select_risk_findings 25 d); destruct (select_risk_findings 40 d);
    destruct (select_risk_findings 60 d); simpl; lia.
Qed.

(** The counts that a run of the whole regeneration reports are the
    numbers of rows of the tables it has committed: always 5 timing rows,
    9 scenarios and 5 economic rows, at most 5 risk profiles, and the
    papers, issues and findings are as before. *)
Theorem regenerate_all_summary : forall c s c',
  generate_all_evidence_data c = (Returned s, c') ->
  committed c' = regenerated 5 (working c)
  /\ working c' = committed c'
  /\ risk_profiles_count s
     = List.length (age_risk_profiles (committed c'))
  /\ treatment_effects_count s
     = List.length (issue_treatment_effects (committed c'))
  /\ timing_benefits_count s
     = List.length (age_timing_benefits (committed c'))
  /\ scenarios_count s = List.length (future_scenarios (committed c'))
  /\ economic_impacts_count s
     = List.length (economic_impacts (committed c'))
  /\ (risk_profiles_count s <= 5)%nat
  /\ timing_benefits_count s = 5%nat
  /\ scenarios_count s = 9%nat
  /\ economic_impacts_count s = 5%nat.
Proof.
  intros c s c' H.
  unfold generate_all_evidence_data, try_except, bind in H.
  destruct (generate_age_risk_profiles c) as [[r1|e1] c1] eqn:H1;
    [|discriminate].
  destruct (generate_age_risk_profiles_atomic _ _ _ H1) as (R1 & _ & _).
  destruct (R1 r1 eq_refl) as (A1 & Hw1 & Hc1).
  destruct (generate_issue_treatment_effects c1) as [[r2|e2] c2] eqn:H2;
    [|discriminate].
  destruct (generate_issue_treatment_effects_atomic _ _ _ H2) as (R2 & _ & _).
  destruct (R2 r2 eq_refl) as (A2 & Hw2 & Hc2).
  destruct (generate_age_timing_benefits c2) as [[r3|e3] c3] eqn:H3;
    [|discriminate].
  destruct (generate_age_timing_benefits_atomic _ _ _ H3) as (R3 & _ & _).
  destruct (R3 r3 eq_refl) as (A3 & Hw3 & Hc3).
  destruct (generate_future_scenarios c3) as [[r4|e4] c4] eqn:H4;
    [|discriminate].
  destruct (generate_future_scenarios_atomic _ _ _ H4) as (R4 & _ & _).
  destruct (R4 r4 eq_refl) as (A4 & Hw4 & Hc4).
  destruct (generate_economic_impacts c4) as [[r5|e5] c5] eqn:H5;
    [|discriminate].
  destruct (generate_economic_impacts_atomic _ _ _ H5) as (R5 & _ & _).
  destruct (R5 r5 eq_refl) as (A5 & Hw5 & Hc5).
  unfold conn_commit, ret in H.
  assert (Hs : s = {| risk_profiles_count := List.length r1;
                      treatment_effects_count := List.length r2;
                      timing_benefits_count := List.length r3;
                      scenarios_count := List.length r4;
                      economic_impacts_count := List.length r5 |})
    by congruence.
  assert (Hc' : committed c' = working c5).
  { assert (E : c' = mk_connection (working c5) (working c5) (budget c5))
      by congruence.
    rewrite E. reflexivity. }
  assert (Hw' : working c' = working c5).
  { assert (E : c' = mk_connection (working c5) (working c5) (budget c5))
      by congruence.
    rewrite E. reflexivity. }
  clear H.
  assert (Hall : working c5 = regenerated 5 (working c)).
  { rewrite Hw5, Hw4, Hw3, Hw2, Hw1. reflexivity. }
  rewrite Hs. cbn [risk_profiles_count treatment_effects_count
                   timing_benefits_count scenarios_count
                   economic_impacts_count].
  rewrite Hc', Hw', Hall.
  assert (E1 : r1 = age_risk_profiles (regenerated 5 (working c)))
    by (rewrite A1; reflexivity).
  assert (E2 : r2 = issue_treatment_effects (regenerated 5 (working c)))
    by (rewrite A2, Hw1; reflexivity).
  assert (E3 : r3 = age_timing_benefits (regenerated 5 (working c)))
    by (rewrite A3, Hw2, Hw1; reflexivity).
  split; [reflexivity|]. split; [reflexivity|].
  split; [now rewrite E1|]. split; [now rewrite E2|].
  split; [now rewrite E3|]. split; [now rewrite A4|].
  split; [now rewrite A5|].
  split; [rewrite A1; apply age_risk_rows_length|].
  split; [|split; [now rewrite A4 | now rewrite A5]].
  rewrite A3, timing_benefit_rows_map, length_map. reflexivity.
Qed.
End Summary.

Lemma regenerate_all_summary_witness :
  exists s c',
    generate_all_evidence_data (T := decimal_text)
      (fresh_connection percent_db None) = (Returned s, c')
    /\ scenarios_count s = 9%nat.
Proof.
  destruct (generate_all_evidence_data (T := decimal_text)
              (fresh_connection percent_db None)) as [r c'] eqn:E.
  pose proof E as E'. vm_compute in E'. injection E' as Hr Hc.
  destruct r as [s|e]; [|discriminate].
  exists s, c'. split; [reflexivity|].
  destruct (regenerate_all_summary (T := decimal_text)
              (fresh_connection percent_db None) s c' E)
    as (_ & _ & _ & _ & _ & _ & _ & _ & _ & H9 & _).
  exact H9.
Defined.
